(** * polymarket-mirror: decode-and-derive pipeline

    A shallow embedding of the TypeScript sources of the mirror bot
    (calldata decoder, recency set of the mempool watcher, single-flight
    TTL cache, copy-intent calculator and order placer) together with the
    properties of these components.

    Conventions of the embedding:
    - a JavaScript [bigint] is a [Z]; bigint division [/] truncates toward
      zero and is [Z.quot];
    - a JavaScript [number] is an IEEE 754 binary64 value, [float];
    - a JavaScript [string] is a sequence of 16-bit code units; the strings
      of this development are those whose code units are all below 256
      (the Latin-1 range, which holds the hexadecimal calldata, addresses
      and decimal amounts handled here), written as a [string] whose
      characters are the code units;
    - [undefined]/[null] or an optional field is [option];
    - a function that may throw returns a [completion]. *)

From Stdlib Require Import ZArith String Ascii List Bool Lia.
From Stdlib Require Import DecimalString DecimalPos DecimalZ.
From Stdlib Require Import Floats.PrimFloat Floats.SpecFloat Floats.FloatOps Floats.FloatAxioms.
From stdpp Require Import base option list gmap sets strings.

Set Warnings "-inexact-float,-register-all".
#[local] Open Scope string_scope.
#[local] Open Scope Z_scope.

(** ** JavaScript primitives used by the sources *)

Module Js.

(** Thrown values; [String(err)] is [String_of_error]. *)
Inductive JsError : Type :=
| RangeError (msg : string)
| SyntaxError (msg : string)
| Error (msg : string).

Definition String_of_error (e : JsError) : string :=
  match e with
  | RangeError msg => "RangeError: " ++ msg
  | SyntaxError msg => "SyntaxError: " ++ msg
  | Error msg => "Error: " ++ msg
  end.

(** The outcome of evaluating an expression: a value or a thrown error. *)
Inductive completion (A : Type) : Type :=
| Return (a : A)
| Throw (e : JsError).
Arguments Return {A} a.
Arguments Throw {A} e.

#[export] Instance completion_ret : MRet completion := @Return.
#[export] Instance completion_bind : MBind completion :=
  fun A B f c => match c with Return a => f a | Throw e => Throw e end.
#[export] Instance completion_fmap : FMap completion :=
  fun A B f c => match c with Return a => Return (f a) | Throw e => Throw e end.

(** [try { body } catch (err) { handler }] *)
Definition try_catch {A} (body : completion A) (handler : JsError -> completion A)
  : completion A :=
  match body with Return a => Return a | Throw e => handler e end.

(** *** Strings *)

(** The code units below 256 that [toLowerCase] changes: the letters A-Z,
    and the capital letters U+00C0-U+00DE of the Latin-1 supplement, of
    which U+00D7, the multiplication sign, is not one. Each is mapped to
    the unit 32 above it. *)
Definition is_upper (c : ascii) : bool :=
  let n := nat_of_ascii c in
  ((65 <=? n)%nat && (n <=? 90)%nat)
  || ((192 <=? n)%nat && (n <=? 214)%nat)
  || ((216 <=? n)%nat && (n <=? 222)%nat).

Definition lower_char (c : ascii) : ascii :=
  if is_upper c then ascii_of_nat (nat_of_ascii c + 32) else c.

(** [s.toLowerCase()] *)
Fixpoint toLowerCase (s : string) : string :=
  match s with
  | EmptyString => EmptyString
  | String c r => String (lower_char c) (toLowerCase r)
  end.

(** [s.startsWith(p)] *)
Definition startsWith (s p : string) : bool := String.prefix p s.

(** [s.includes(sub)]: [sub] occurs at some position of [s]. *)
Fixpoint includes (s sub : string) : bool :=
  String.prefix sub s
  || match s with
     | EmptyString => false
     | String _ r => includes r sub
     end.

(** Truthiness of a string: only the empty string is falsy. *)
Definition truthy_string (s : string) : bool := negb (String.eqb s "").

(** Truthiness of an optional string ([undefined] is falsy). *)
Definition truthy (v : option string) : bool :=
  match v with
  | None => false
  | Some s => truthy_string s
  end.

(** *** BigInt *)

(** [String(n)] for a bigint: the decimal numeral, with a leading minus
    sign for negative values. *)
Definition String_of_bigint (z : Z) : string :=
  NilZero.string_of_int (Z.to_int z).

(** The code units below 256 that are StrWhiteSpaceChar: TAB, LF, VT, FF,
    CR, the space and the no-break space U+00A0. *)
Definition is_StrWhiteSpaceChar (c : ascii) : bool :=
  let n := nat_of_ascii c in
  ((9 <=? n)%nat && (n <=? 13)%nat) || (n =? 32)%nat || (n =? 160)%nat.

Fixpoint skip_white (l : list ascii) : list ascii :=
  match l with
  | c :: r => if is_StrWhiteSpaceChar c then skip_white r else l
  | [] => []
  end.

Definition trim_white (l : list ascii) : list ascii :=
  rev (skip_white (rev (skip_white l))).

Definition between (lo hi : nat) (n : nat) : bool :=
  (lo <=? n)%nat && (n <=? hi)%nat.

(** Value of a digit in the given radix, when it is one. *)
Definition digit_of (radix : Z) (c : ascii) : option Z :=
  let n := nat_of_ascii c in
  let v :=
    if between 48 57 n then Some (Z.of_nat n - 48)
    else if between 97 102 n then Some (Z.of_nat n - 87)
    else if between 65 70 n then Some (Z.of_nat n - 55)
    else None in
  match v with
  | Some d => if d <? radix then Some d else None
  | None => None
  end.

Fixpoint digits_value (radix acc : Z) (l : list ascii) : option Z :=
  match l with
  | [] => Some acc
  | c :: r =>
      match digit_of radix c with
      | Some d => digits_value radix (acc * radix + d) r
      | None => None
      end
  end.

(** One or more digits of the radix. *)
Definition parse_digits (radix : Z) (l : list ascii) : option Z :=
  match l with
  | [] => None
  | _ => digits_value radix 0 l
  end.

Definition is_char (c : ascii) (n m : nat) : bool :=
  (nat_of_ascii c =? n)%nat || (nat_of_ascii c =? m)%nat.

(** StringToBigInt of ECMA-262: optional white space around either a
    decimal numeral with an optional sign or an unsigned numeral with a
    [0x], [0o] or [0b] prefix; the empty numeral denotes zero. *)
Definition StringToBigInt (s : string) : option Z :=
  match trim_white (list_ascii_of_string s) with
  | [] => Some 0
  | c0 :: c1 :: r =>
      if is_char c0 48 48 && is_char c1 120 88 then parse_digits 16 r
      else if is_char c0 48 48 && is_char c1 111 79 then parse_digits 8 r
      else if is_char c0 48 48 && is_char c1 98 66 then parse_digits 2 r
      else if is_char c0 43 43 then parse_digits 10 (c1 :: r)
      else if is_char c0 45 45 then Z.opp <$> parse_digits 10 (c1 :: r)
      else parse_digits 10 (c0 :: c1 :: r)
  | l => parse_digits 10 l
  end.

(** [BigInt(s)] for a string argument. *)
Definition BigInt_of_string (s : string) : completion Z :=
  match StringToBigInt s with
  | Some z => Return z
  | None => Throw (SyntaxError ("Cannot convert " ++ s ++ " to a BigInt"))
  end.

(** *** Numbers *)

(** [Number(n)] for a bigint: the nearest binary64 value, ties to even. *)
Definition Number_of_bigint (z : Z) : float :=
  SF2Prim (binary_normalize prec emax z 0 false).

(** The integer below a finite number given by sign, mantissa, exponent. *)
Definition floor_finite (s : bool) (m : positive) (e : Z) : Z :=
  let v := if s then Z.neg m else Z.pos m in
  if 0 <=? e then v * 2 ^ e else v / 2 ^ (- e).

(** [Math.floor(x)] *)
Definition Math_floor (x : float) : float :=
  match Prim2SF x with
  | S754_finite s m e => Number_of_bigint (floor_finite s m e)
  | _ => x
  end.

(** [Math.round(x)]: the nearest integer, ties toward positive infinity;
    a negative argument that rounds to zero gives negative zero. *)
Definition Math_round (x : float) : float :=
  match Prim2SF x with
  | S754_finite s m e =>
      let v := if s then Z.neg m else Z.pos m in
      let r := if 0 <=? e then v * 2 ^ e
               else (2 * v + 2 ^ (- e)) / 2 ^ (1 - e) in
      if (r =? 0) && s then neg_zero else Number_of_bigint r
  | _ => x
  end.

(** [BigInt(x)] for a number argument: the integral numbers convert, every
    other number (a fraction, an infinity, NaN) raises a RangeError. *)
Definition BigInt_of_number (x : float) : completion Z :=
  let not_integer :=
    Throw (RangeError "The number cannot be converted to a BigInt because it is not an integer") in
  match Prim2SF x with
  | S754_zero _ => Return 0
  | S754_finite s m e =>
      let v := if s then Z.neg m else Z.pos m in
      if 0 <=? e then Return (v * 2 ^ e)
      else if v mod 2 ^ (- e) =? 0 then Return (v / 2 ^ (- e))
      else not_integer
  | _ => not_integer
  end.

(** [Math.max(a, b)] *)
Definition Math_max (a b : float) : float :=
  if is_nan a || is_nan b then nan
  else if (a <? b)%float then b
  else if (b <? a)%float then a
  else if get_sign a then b else a.

(** [10 ** decimals] for the small non-negative exponents used here. *)
Definition pow10 (decimals : Z) : float := Number_of_bigint (10 ^ decimals).

(** *** Values of type [unknown] *)

Inductive JsValue : Type :=
| JsUndefined
| JsNull
| JsBoolean (b : bool)
| JsNumber (x : float)
| JsBigInt (z : Z)
| JsString (s : string)
| JsObject (props : list (string * JsValue)).

(** The own property [name] of an object, in an association list. *)
Fixpoint lookup_prop (name : string) (props : list (string * JsValue))
  : option JsValue :=
  match props with
  | [] => None
  | (k, v) :: rest => if String.eqb k name then Some v else lookup_prop name rest
  end.

(** [v?.name]: [undefined] on [undefined] and [null], the property (or
    [undefined]) on an object; the primitive values met here have no such
    property. *)
Definition optional_get (v : JsValue) (name : string) : JsValue :=
  match v with
  | JsObject props => default JsUndefined (lookup_prop name props)
  | _ => JsUndefined
  end.

(** [a ?? b] *)
Definition nullish_or (a b : JsValue) : JsValue :=
  match a with
  | JsUndefined | JsNull => b
  | _ => a
  end.

End Js.
Import Js.

(** ** Copy-intent calculator ([src/copy/types.ts], [src/copy/calculator.ts]) *)

(** [Side] of the venue client: the enum has the two members [BUY] and
    [SELL]. *)
Module Side.
Inductive t : Type := BUY | SELL.
End Side.

(** The side of an observed fill, ["BUY" | "SELL" | "UNKNOWN"]. *)
Inductive FillSide : Type := BUY | SELL | UNKNOWN.

(** ["FAK" | "FOK" | "GTC" | "GTD"] *)
Inductive OrderTypeName : Type := FAK | FOK | GTC | GTD.

Module CopyConfig.
Record t : Type := mk {
  scale : float;
  slippageBps : float;
  orderType : OrderTypeName;
  simulateOnly : bool;
  allowBuy : bool;
  allowSell : bool;
}.
End CopyConfig.

Module CopyFill.
Record t : Type := mk {
  hash : option string;
  tokenId : string;
  side : FillSide;
  shares : option string;
  usdc : option string;
}.
End CopyFill.

Module CopyIntent.
Record t : Type := mk {
  tokenId : string;
  side : Side.t;
  size : float;
  price : float;
  impliedPrice : float;
  notional : float;
  hash : option string;
}.
End CopyIntent.

Module Calculator.

Definition SCALE : Z := 1000000.

(** [toBigInt]: [undefined] and the empty string give [null]; a string that
    [BigInt] rejects gives [null] through the [catch]. *)
Definition toBigInt (value : option string) : option Z :=
  match value with
  | None => None
  | Some s =>
      if truthy_string s
      then match BigInt_of_string s with
           | Return z => Some z
           | Throw _ => None
           end
      else None
  end.

(** [applyScale]: [BigInt(Math.floor(scale * Number(SCALE)))] throws when
    the product is not finite. *)
Definition applyScale (value : Z) (scale : float) : completion Z :=
  scaled ← BigInt_of_number (Math_floor (scale * Number_of_bigint SCALE)%float);
  Return ((value * scaled) ÷ SCALE).

(** [applySlippage]: [BigInt(slippageBps)] throws when [slippageBps] is not
    an integral number. *)
Definition applySlippage (priceMicros : Z) (slippageBps : float) (side : FillSide)
  : completion Z :=
  bps ← BigInt_of_number slippageBps;
  let delta := (priceMicros * bps) ÷ 10000 in
  Return match side with
         | BUY => priceMicros + delta
         | SELL => priceMicros - delta
         | UNKNOWN => priceMicros
         end.

Definition is_BUY (s : FillSide) : bool :=
  match s with BUY => true | _ => false end.

Definition is_SELL (s : FillSide) : bool :=
  match s with SELL => true | _ => false end.

(** [!x || x <= 0n] for [x : bigint | null]: [null] and [0n] are falsy. *)
Definition missing_or_not_positive (x : option Z) : bool :=
  match x with
  | None => true
  | Some z => (z =? 0) || (z <=? 0)
  end.

(** [buildCopyIntent]; the result [None] is [null]. *)
Definition buildCopyIntent (fill : CopyFill.t) (config : CopyConfig.t)
  : completion (option CopyIntent.t) :=
  if (CopyConfig.scale config <=? 0)%float then Return None
  else if is_BUY (CopyFill.side fill) && negb (CopyConfig.allowBuy config)
  then Return None
  else if is_SELL (CopyFill.side fill) && negb (CopyConfig.allowSell config)
  then Return None
  else
    let shares := toBigInt (CopyFill.shares fill) in
    let usdc := toBigInt (CopyFill.usdc fill) in
    if missing_or_not_positive shares || missing_or_not_positive usdc
    then Return None
    else
      let shares := default 0 shares in
      let usdc := default 0 usdc in
      copyShares ← applyScale shares (CopyConfig.scale config);
      copyUsdc ← applyScale usdc (CopyConfig.scale config);
      if (copyShares <=? 0) || (copyUsdc <=? 0) then Return None
      else
        let priceMicros := (usdc * SCALE) ÷ shares in
        limitMicros ← applySlippage priceMicros (CopyConfig.slippageBps config)
                                   (CopyFill.side fill);
        if limitMicros <=? 0 then Return None
        else
          let size := (Number_of_bigint copyShares / Number_of_bigint SCALE)%float in
          let price := (Number_of_bigint limitMicros / Number_of_bigint SCALE)%float in
          let impliedPrice :=
            (Number_of_bigint priceMicros / Number_of_bigint SCALE)%float in
          let notional := (Number_of_bigint copyUsdc / Number_of_bigint SCALE)%float in
          let sideEnum := if is_SELL (CopyFill.side fill) then Side.SELL else Side.BUY in
          Return (Some {| CopyIntent.tokenId := CopyFill.tokenId fill;
                          CopyIntent.side := sideEnum;
                          CopyIntent.size := size;
                          CopyIntent.price := price;
                          CopyIntent.impliedPrice := impliedPrice;
                          CopyIntent.notional := notional;
                          CopyIntent.hash := CopyFill.hash fill |}).

End Calculator.

(** ** Calldata decoder ([src/onchain/decoder.ts]) *)

Module Role.
Inductive t : Type := MAKER | TAKER | UNKNOWN.
End Role.

(** An order leg as the decoder reads it: a [Record<string, unknown>] of
    which only these fields are accessed, each possibly absent. [side] is
    the [uint8] of the ABI, decoded as a number. *)
Module Order.
Record t : Type := mk {
  maker : option string;
  signer : option string;
  tokenId : option Z;
  makerAmount : option Z;
  takerAmount : option Z;
  side : option Z;
}.
(** The empty object [{}]. *)
Definition empty : t := mk None None None None None None.
End Order.

(** The argument tuple of a decoded [matchOrders] call. The two scalar
    amounts are read through [args?.[i]] and [safeBigInt], which accept an
    absent value. *)
Module MatchArgs.
Record t : Type := mk {
  takerOrder : Order.t;
  makerOrders : list Order.t;
  takerFillAmount : option Z;
  takerReceiveAmount : option Z;
  makerFillAmounts : list Z;
  takerFeeAmount : option Z;
  makerFeeAmounts : list Z;
}.
End MatchArgs.

Module MatchDecoded.
Record t : Type := mk {
  functionName : string;
  args : option MatchArgs.t;
}.
End MatchDecoded.

Module FillBreakdown.
Record t : Type := mk {
  role : Role.t;
  side : FillSide;
  tokenId : option string;
  shares : option string;
  usdc : option string;
}.
End FillBreakdown.

(** The result of [computeMakerFill], [{ shares?: bigint; usdc?: bigint }]. *)
Module MakerFill.
Record t : Type := mk {
  shares : option Z;
  usdc : option Z;
}.
End MakerFill.

Module Decoder.

Definition MATCH_SELECTOR : string := "0x2287e350".

(** [matchesCalldata(rawData, needle, selector)] *)
Definition matchesCalldata (rawData : JsValue) (needle selector : string) : bool :=
  match rawData with
  | JsString rawData =>
      if negb (truthy_string rawData) then false
      else
        let data := toLowerCase rawData in
        if negb (startsWith data selector) then false
        else includes data (toLowerCase needle)
  | _ => false
  end.

(** [safeBigInt]: the fields it is applied to hold a bigint or nothing. *)
Definition safeBigInt (value : option Z) : option Z :=
  match value with
  | None => None
  | Some v => Some v
  end.

(** A bigint or [null] used as a condition: [null] and [0n] are falsy. *)
Definition truthy_bigint (v : option Z) : bool :=
  match v with
  | None => false
  | Some z => negb (z =? 0)
  end.

(** [field?.toLowerCase() === target] *)
Definition lower_is (field : option string) (target : string) : bool :=
  match field with
  | None => false
  | Some s => String.eqb (toLowerCase s) target
  end.

Definition computeMakerFill (order : Order.t) (fillAmount : Z) : MakerFill.t :=
  let side := Order.side order in
  let makerAmount := safeBigInt (Order.makerAmount order) in
  let takerAmount := safeBigInt (Order.takerAmount order) in
  if negb (truthy_bigint makerAmount) || negb (truthy_bigint takerAmount)
     || bool_decide (makerAmount = Some 0)
  then
    {| MakerFill.shares := if decide (side = Some 1) then Some fillAmount else None;
       MakerFill.usdc := if decide (side = Some 0) then Some fillAmount else None |}
  else
    let ma := default 0 makerAmount in
    let ta := default 0 takerAmount in
    if decide (side = Some 0) then
      (* Maker BUY: pays makerAmount (USDC), receives takerAmount (shares) *)
      {| MakerFill.usdc := Some fillAmount;
         MakerFill.shares := Some ((fillAmount * ta) ÷ ma) |}
    else if decide (side = Some 1) then
      (* Maker SELL: sells makerAmount (shares), receives takerAmount (USDC) *)
      {| MakerFill.shares := Some fillAmount;
         MakerFill.usdc := Some ((fillAmount * ta) ÷ ma) |}
    else {| MakerFill.shares := None; MakerFill.usdc := None |}.

(** The predicate of the [filter] that selects the maker legs of the
    target. *)
Definition leg_matches (target : string) (entry : Order.t * nat) : bool :=
  lower_is (Order.maker (fst entry)) target
  || lower_is (Order.signer (fst entry)) target.

(** One iteration of the loop over [makerMatches]; the accumulator is
    [(sharesSum, usdcSum)]. *)
Definition maker_loop_body (makerFillAmounts : list Z) (acc : Z * Z)
    (entry : Order.t * nat) : Z * Z :=
  match safeBigInt (makerFillAmounts !! snd entry) with
  | None => acc
  | Some fill =>
      let r := computeMakerFill (fst entry) fill in
      let sharesSum :=
        match MakerFill.shares r with Some s => fst acc + s | None => fst acc end in
      let usdcSum :=
        match MakerFill.usdc r with Some u => snd acc + u | None => snd acc end in
      (sharesSum, usdcSum)
  end.

(** The amount derived in the TAKER branch when [takerReceiveAmount] is
    absent: [fill && makerAmount && takerAmount && makerAmount !== 0n
    ? (fill * takerAmount) / makerAmount : undefined]. *)
Definition taker_derived (fill makerAmount takerAmount : option Z) : option Z :=
  if truthy_bigint fill && truthy_bigint makerAmount
     && truthy_bigint takerAmount && negb (bool_decide (makerAmount = Some 0))
  then Some ((default 0 fill * default 0 takerAmount) ÷ default 0 makerAmount)
  else None.

(** [a ?? b] on optional bigints. *)
Definition or_else (a b : option Z) : option Z :=
  match a with
  | Some v => Some v
  | None => b
  end.

Definition side_of (sideVal : option Z) : FillSide :=
  if decide (sideVal = Some 0) then BUY
  else if decide (sideVal = Some 1) then SELL
  else UNKNOWN.

(** [computeFillForTarget]; the result [None] is [null]. *)
Definition computeFillForTarget (decoded : option MatchDecoded.t)
    (targetAddress : string) : option FillBreakdown.t :=
  match decoded with
  | None => None
  | Some decoded =>
      if negb (String.eqb (MatchDecoded.functionName decoded) "matchOrders")
      then None
      else
        let args := MatchDecoded.args decoded in
        let target := toLowerCase targetAddress in
        let takerOrder := default Order.empty (MatchArgs.takerOrder <$> args) in
        let makerOrders := default [] (MatchArgs.makerOrders <$> args) in
        let takerFillAmount := args ≫= MatchArgs.takerFillAmount in
        let takerReceiveAmount := args ≫= MatchArgs.takerReceiveAmount in
        let makerFillAmounts := default [] (MatchArgs.makerFillAmounts <$> args) in
        let takerRole :=
          lower_is (Order.maker takerOrder) target
          || lower_is (Order.signer takerOrder) target in
        let makerMatches :=
          List.filter (leg_matches target)
                      (imap (fun idx order => (order, idx)) makerOrders) in
        let role :=
          if takerRole then Role.TAKER
          else if (0 <? length makerMatches)%nat then Role.MAKER
          else Role.UNKNOWN in
        let side := side_of (Order.side takerOrder) in
        let tokenId := Order.tokenId takerOrder in
        let '(shares, usdc) :=
          match role with
          | Role.TAKER =>
              let makerAmount := safeBigInt (Order.makerAmount takerOrder) in
              let takerAmount := safeBigInt (Order.takerAmount takerOrder) in
              let fill := safeBigInt takerFillAmount in
              let receive := safeBigInt takerReceiveAmount in
              match side with
              | BUY => (or_else receive (taker_derived fill makerAmount takerAmount),
                        fill)
              | SELL => (fill,
                         or_else receive (taker_derived fill makerAmount takerAmount))
              | UNKNOWN => (None, None)
              end
          | _ => (None, None)
          end in
        let '(shares, usdc) :=
          match role with
          | Role.MAKER =>
              let '(sharesSum, usdcSum) :=
                fold_left (maker_loop_body makerFillAmounts) makerMatches (0, 0) in
              (if 0 <? sharesSum then Some sharesSum else shares,
               if 0 <? usdcSum then Some usdcSum else usdc)
          | _ => (shares, usdc)
          end in
        Some {| FillBreakdown.role := role;
                FillBreakdown.side := side;
                FillBreakdown.tokenId :=
                  if truthy_bigint tokenId then String_of_bigint <$> tokenId else None;
                FillBreakdown.shares := String_of_bigint <$> shares;
                FillBreakdown.usdc := String_of_bigint <$> usdc |}
  end.

End Decoder.

(** ** Recency set of the mempool watcher ([src/onchain/watcher.ts]) *)

Module HashCache.
(** The state captured by the closure of [makeHashCache]: the array
    [deque] (oldest hash first) and the [Set] of the same hashes. *)
Record t : Type := mk {
  deque : list string;
  set : gset string;
}.
End HashCache.

Module Watcher.

Definition HASH_CACHE_SIZE : nat := 1000.

(** The state right after [makeHashCache()]. *)
Definition makeHashCache : HashCache.t :=
  {| HashCache.deque := []; HashCache.set := ∅ |}.

(** [seen(hash)]: the returned boolean and the state it leaves. *)
Definition seen (hash : option string) (c : HashCache.t) : bool * HashCache.t :=
  if negb (truthy hash) then (false, c)
  else
    let hash := default "" hash in
    if bool_decide (hash ∈ HashCache.set c) then (true, c)
    else
      let deque := (HashCache.deque c ++ [hash])%list in
      let set := HashCache.set c ∪ {[hash]} in
      if (HASH_CACHE_SIZE <? length deque)%nat
      then
        match deque with
        | oldest :: rest =>
            (false,
             {| HashCache.deque := rest;
                HashCache.set :=
                  if truthy_string oldest then set ∖ {[oldest]} else set |})
        | [] => (false, {| HashCache.deque := []; HashCache.set := set |})
        end
      else (false, {| HashCache.deque := deque; HashCache.set := set |}).

(** The booleans returned by a sequence of [seen] calls, in order, and the
    final state. *)
Fixpoint seen_all (hashes : list string) (c : HashCache.t)
  : list bool * HashCache.t :=
  match hashes with
  | [] => ([], c)
  | h :: rest =>
      let '(b, c1) := seen (Some h) c in
      let '(bs, c2) := seen_all rest c1 in
      (b :: bs, c2)
  end.

(** The states a cache created by [makeHashCache] can be in. *)
Inductive reachable : HashCache.t -> Prop :=
| reachable_make : reachable makeHashCache
| reachable_seen hash c : reachable c -> reachable (snd (seen hash c)).

End Watcher.

(** ** Single-flight TTL cache (the [cache] module of the market resolver) *)

Module CacheEntry.
Record t (T : Type) : Type := mk {
  value : T;
  expiresAt : float;
}.
Arguments mk {T} value expiresAt.
Arguments value {T} t.
Arguments expiresAt {T} t.
End CacheEntry.

Module TtlCache.

(** A promise is identified by a name; two names are the same promise
    object. *)
Definition promise : Type := nat.

(** The two maps captured by the closure of [createTtlCache]. *)
Record t (T : Type) : Type := mk {
  store : gmap string (CacheEntry.t T);
  inflight : gmap string promise;
}.
Arguments mk {T} store inflight.
Arguments store {T} t.
Arguments inflight {T} t.

(** What a [getOrSet] call does before its first suspension. *)
Inductive started (T : Type) : Type :=
| Cached (value : T)          (** an unexpired entry: resolved with its value *)
| Pending (p : promise)       (** an earlier call is in flight: its promise *)
| Launched (p : promise).     (** [producer()] was called; its chained promise *)
Arguments Cached {T} value.
Arguments Pending {T} p.
Arguments Launched {T} p.

Section Cache.
Context {T : Type}.

(** The state right after [createTtlCache()]. *)
Definition createTtlCache : t T := {| store := ∅; inflight := ∅ |}.

(** [cleanup()] at time [now = Date.now()]. *)
Definition cleanup (now : float) (c : t T) : t T :=
  {| store := filter (fun kv => (CacheEntry.expiresAt (snd kv) <=? now)%float = false)
                     (store c);
     inflight := inflight c |}.

(** [get(key)] at time [now = Date.now()]; [None] is [undefined]. *)
Definition get (now : float) (key : string) (c : t T) : option T * t T :=
  match store c !! key with
  | None => (None, c)
  | Some entry =>
      if (CacheEntry.expiresAt entry <=? now)%float
      then (None, {| store := delete key (store c); inflight := inflight c |})
      else (Some (CacheEntry.value entry), c)
  end.

(** [set(key, value, ttlMs)] at time [now = Date.now()]. *)
Definition set (now : float) (key : string) (value : T) (ttlMs : float) (c : t T)
  : T * t T :=
  let expiresAt := (now + Math_max 0 ttlMs)%float in
  (value,
   {| store := <[key := CacheEntry.mk value expiresAt]> (store c);
      inflight := inflight c |}).

(** The synchronous part of [getOrSet(key, ttlMs, producer)] at time [now]:
    [fresh] names the promise [producer().then(..).catch(..)] built when
    the producer is called. *)
Definition getOrSet (now : float) (key : string) (fresh : promise) (c : t T)
  : started T * t T :=
  let '(cached, c) := get now key c in
  match cached with
  | Some value => (Cached value, c)
  | None =>
      match inflight c !! key with
      | Some pending => (Pending pending, c)
      | None =>
          (Launched fresh,
           {| store := store c; inflight := <[key := fresh]> (inflight c) |})
      end
  end.

(** The [then] callback of [getOrSet], run at time [now] when the producer's
    promise fulfils with [value]. *)
Definition producer_fulfilled (now : float) (key : string) (ttlMs : float)
    (value : T) (c : t T) : completion T * t T :=
  let c := {| store := store c; inflight := delete key (inflight c) |} in
  let '(_, c) := set now key value ttlMs c in
  (Return value, c).

(** The [catch] callback of [getOrSet], run when the producer's promise
    rejects with [err]: the chained promise rejects with [err] too. *)
Definition producer_rejected (key : string) (err : JsError) (c : t T)
  : completion T * t T :=
  let c := {| store := store c; inflight := delete key (inflight c) |} in
  (Throw err, c).

(** [delete(key)] *)
Definition delete_key (key : string) (c : t T) : t T :=
  {| store := delete key (store c); inflight := inflight c |}.

(** [clear()] *)
Definition clear (c : t T) : t T :=
  {| store := ∅; inflight := inflight c |}.

(** [size()] at time [now]. *)
Definition size (now : float) (c : t T) : nat * t T :=
  let c := cleanup now c in
  (base.size (store c), c).

End Cache.
End TtlCache.

(** ** Order placer ([src/copy/placer.ts]) *)

(** [OrderType] of the venue client. *)
Module OrderType.
Inductive t : Type := GTC | FOK | GTD | FAK.
End OrderType.

(** [SignatureType] of the order utilities. *)
Module SignatureType.
Inductive t : Type := EOA | POLY_PROXY | POLY_GNOSIS_SAFE.
End SignatureType.

(** The fields of [AppConfig] that the placer reads. *)
Module AppConfig.
Record t : Type := mk {
  clobRestUrl : string;
  clobApiKey : option string;
  clobApiSecret : option string;
  clobApiPassphrase : option string;
  privateKey : option string;
  fundingAddress : option string;
  signatureType : option float;
  copyOrderType : OrderTypeName;
  copySimulateOnly : bool;
}.
End AppConfig.

Module ApiCreds.
Record t : Type := mk {
  key : string;
  secret : string;
  passphrase : string;
}.
End ApiCreds.

(** The argument of [client.createMarketOrder]. *)
Module UserMarketOrder.
Record t : Type := mk {
  tokenID : string;
  amount : float;
  side : Side.t;
  price : float;
}.
End UserMarketOrder.

(** The argument of [client.createOrder]. *)
Module UserOrder.
Record t : Type := mk {
  tokenID : string;
  price : float;
  size : float;
  side : Side.t;
}.
End UserOrder.

Module Placer.

(** [roundToDecimals] *)
Definition roundToDecimals (value : float) (decimals : Z) : float :=
  if negb (is_finite value) then 0%float
  else
    let factor := pow10 decimals in
    (Math_round (value * factor) / factor)%float.

Definition toOrderType (value : OrderTypeName) : OrderType.t :=
  match value with
  | FOK => OrderType.FOK
  | GTC => OrderType.GTC
  | GTD => OrderType.GTD
  | _ => OrderType.FAK
  end.

Section Venue.
(** The signing wallet and the venue client are external: a wallet is built
    from the private key (the constructor may throw), and each method of
    the client either returns or throws. *)
Variable Wallet : Type.
Variable SignedOrder : Type.
Variable new_Wallet : string -> completion Wallet.

(** The arguments [new ClobClient(..)] is called with. *)
Record ClobClient : Type := mkClobClient {
  host : string;
  signer : Wallet;
  creds : option ApiCreds.t;
  signatureType : SignatureType.t;
  funder : option string;
}.

Variable createMarketOrder : ClobClient -> UserMarketOrder.t -> completion SignedOrder.
Variable createOrder : ClobClient -> UserOrder.t -> completion SignedOrder.
Variable postOrder : ClobClient -> SignedOrder -> OrderType.t -> completion JsValue.

(** What the placer does to the outside: log lines and calls of the venue
    client. *)
Inductive Event : Type :=
| LogInfo (msg : string)
| LogWarn (msg : string)
| CallCreateMarketOrder (order : UserMarketOrder.t)
| CallCreateOrder (order : UserOrder.t)
| CallPostOrder (order : SignedOrder) (orderType : OrderType.t).

Definition is_client_call (e : Event) : bool :=
  match e with
  | LogInfo _ | LogWarn _ => false
  | _ => true
  end.

Inductive PlaceResult : Type :=
| simulated (intent : CopyIntent.t)
| posted (intent : CopyIntent.t) (orderHash : JsValue)
| skipped (intent : CopyIntent.t) (reason : string).

(** A computation that may throw and that appends to the trace of events. *)
Definition Eff (A : Type) : Type := list Event -> completion A * list Event.

Definition ret {A} (a : A) : Eff A := fun tr => (Return a, tr).

Definition bind {A B} (m : Eff A) (k : A -> Eff B) : Eff B :=
  fun tr =>
    match m tr with
    | (Return a, tr1) => k a tr1
    | (Throw e, tr1) => (Throw e, tr1)
    end.

Definition emit (e : Event) : Eff unit := fun tr => (Return tt, (tr ++ [e])%list).

Definition lift {A} (e : Event) (c : completion A) : Eff A :=
  fun tr => (c, (tr ++ [e])%list).

(** [try { body } catch (err) { handler(err) }] *)
Definition try_ {A} (body : Eff A) (handler : JsError -> Eff A) : Eff A :=
  fun tr =>
    match body tr with
    | (Return a, tr1) => (Return a, tr1)
    | (Throw e, tr1) => handler e tr1
    end.

Notation "x <~ m ;; k" := (bind m (fun x => k))
  (at level 100, m at next level, right associativity).
Notation "m ;;; k" := (bind m (fun _ => k))
  (at level 100, right associativity).

(** The variables captured by the closure [place]. *)
Record Placer : Type := mkPlacer {
  config : AppConfig.t;
  enabled : bool;
  client : option ClobClient;
}.

(** [createCopyPlacer(config, logger)] up to the definition of [place]. *)
Definition createCopyPlacer (config : AppConfig.t) : Eff Placer :=
  let signatureType :=
    match AppConfig.signatureType config with
    | Some n =>
        if (n =? 1)%float then SignatureType.POLY_PROXY
        else if (n =? 2)%float then SignatureType.POLY_GNOSIS_SAFE
        else SignatureType.EOA
    | None => SignatureType.EOA
    end in
  let creds :=
    if truthy (AppConfig.clobApiKey config)
       && truthy (AppConfig.clobApiSecret config)
       && truthy (AppConfig.clobApiPassphrase config)
    then Some {| ApiCreds.key := default "" (AppConfig.clobApiKey config);
                 ApiCreds.secret := default "" (AppConfig.clobApiSecret config);
                 ApiCreds.passphrase := default "" (AppConfig.clobApiPassphrase config) |}
    else None in
  signer <~ (fun tr =>
               if truthy (AppConfig.privateKey config)
               then (Some <$> new_Wallet (default "" (AppConfig.privateKey config)), tr)
               else (Return None, tr)) ;;
  let hasCreds :=
    bool_decide (is_Some signer)
    && truthy (ApiCreds.key <$> creds)
    && truthy (ApiCreds.secret <$> creds)
    && truthy (ApiCreds.passphrase <$> creds) in
  let enabled := negb (AppConfig.copySimulateOnly config) && hasCreds in
  let client :=
    match enabled, signer with
    | true, Some signer =>
        Some {| host := AppConfig.clobRestUrl config;
                signer := signer;
                creds := creds;
                signatureType := signatureType;
                funder := AppConfig.fundingAddress config |}
    | _, _ => None
    end in
  (if negb enabled
   then emit (LogWarn "copy trading in simulate-only (missing signer or API creds)")
   else ret tt) ;;;
  ret {| config := config; enabled := enabled; client := client |}.

(** The body of the [try] block of [place]: [inl r] is an early
    [return r], [inr res] reaches the statements after the branches with
    the venue's response [res]. *)
Definition submit (p : Placer) (client : ClobClient) (intent : CopyIntent.t)
  : Eff (PlaceResult + JsValue) :=
  let orderType := toOrderType (AppConfig.copyOrderType (config p)) in
  let isMarket :=
    match orderType with
    | OrderType.FOK | OrderType.FAK => true
    | _ => false
    end in
  if isMarket then
    match CopyIntent.side intent with
    | Side.BUY =>
        let amount := roundToDecimals (CopyIntent.notional intent) 2 in
        if (amount <=? 0)%float
        then ret (inl (skipped intent "amount rounded to zero"))
        else
          let args := {| UserMarketOrder.tokenID := CopyIntent.tokenId intent;
                         UserMarketOrder.amount := amount;
                         UserMarketOrder.side := CopyIntent.side intent;
                         UserMarketOrder.price := CopyIntent.price intent |} in
          order <~ lift (CallCreateMarketOrder args) (createMarketOrder client args) ;;
          res <~ lift (CallPostOrder order orderType) (postOrder client order orderType) ;;
          ret (inr res)
    | Side.SELL =>
        let amount := roundToDecimals (CopyIntent.size intent) 4 in
        if (amount <=? 0)%float
        then ret (inl (skipped intent "amount rounded to zero"))
        else
          let args := {| UserMarketOrder.tokenID := CopyIntent.tokenId intent;
                         UserMarketOrder.amount := amount;
                         UserMarketOrder.side := CopyIntent.side intent;
                         UserMarketOrder.price := CopyIntent.price intent |} in
          order <~ lift (CallCreateMarketOrder args) (createMarketOrder client args) ;;
          res <~ lift (CallPostOrder order orderType) (postOrder client order orderType) ;;
          ret (inr res)
    end
  else
    let price := roundToDecimals (CopyIntent.price intent) 4 in
    let size := roundToDecimals (CopyIntent.size intent) 4 in
    if (price <=? 0)%float || (size <=? 0)%float
    then ret (inl (skipped intent "price/size rounded to zero"))
    else
      let args := {| UserOrder.tokenID := CopyIntent.tokenId intent;
                     UserOrder.price := price;
                     UserOrder.size := size;
                     UserOrder.side := CopyIntent.side intent |} in
      order <~ lift (CallCreateOrder args) (createOrder client args) ;;
      res <~ lift (CallPostOrder order orderType) (postOrder client order orderType) ;;
      ret (inr res).

(** [place(intent)] *)
Definition place (p : Placer) (intent : CopyIntent.t) : Eff PlaceResult :=
  match enabled p, client p with
  | true, Some client =>
      try_
        (r <~ submit p client intent ;;
         match r with
         | inl early => ret early
         | inr res =>
             emit (LogInfo "copy posted") ;;;
             ret (posted intent (nullish_or (optional_get res "orderId") res))
         end)
        (fun err =>
           emit (LogWarn "copy placement failed") ;;;
           ret (skipped intent (String_of_error err)))
  | _, _ =>
      emit (LogInfo "copy simulate") ;;;
      ret (simulated intent)
  end.

(** The completion of the order-creation call that an event records. *)
Definition create_result (client : ClobClient) (e : Event)
  : option (completion SignedOrder) :=
  match e with
  | CallCreateMarketOrder args => Some (createMarketOrder client args)
  | CallCreateOrder args => Some (createOrder client args)
  | _ => None
  end.

End Venue.

Arguments LogInfo {SignedOrder} msg.
Arguments LogWarn {SignedOrder} msg.
Arguments CallCreateMarketOrder {SignedOrder} order.
Arguments CallCreateOrder {SignedOrder} order.
Arguments CallPostOrder {SignedOrder} order orderType.
Arguments is_client_call {SignedOrder} e.
Arguments ret {SignedOrder A} a _.
Arguments bind {SignedOrder A B} m k _.
Arguments emit {SignedOrder} e _.
Arguments lift {SignedOrder A} e c _.
Arguments try_ {SignedOrder A} body handler _.
Arguments mkClobClient {Wallet} host signer creds signatureType funder.
Arguments mkPlacer {Wallet} config enabled client.
Arguments config {Wallet} p.
Arguments enabled {Wallet} p.
Arguments client {Wallet} p.
Arguments createCopyPlacer {Wallet SignedOrder} new_Wallet config _.
Arguments submit {Wallet SignedOrder} createMarketOrder createOrder postOrder
  p client intent _.
Arguments place {Wallet SignedOrder} createMarketOrder createOrder postOrder
  p intent _.
Arguments create_result {Wallet SignedOrder} createMarketOrder createOrder client e.

End Placer.

(** ** Reference definitions the properties are stated against *)

Module DecoderRef.
Import Decoder.

(** [floor(fill * takerAmount / makerAmount)], and nothing for a leg whose
    [makerAmount] is zero or absent. *)
Definition derived_amount (order : Order.t) (fill : Z) : Z :=
  let ma := default 0 (Order.makerAmount order) in
  let ta := default 0 (Order.takerAmount order) in
  if ma =? 0 then 0 else (fill * ta) / ma.

(** The shares a filled maker leg adds: the derived amount on a BUY leg,
    the fill itself on a SELL leg. *)
Definition leg_shares (order : Order.t) (fill : Z) : Z :=
  match Order.side order with
  | Some 0 => derived_amount order fill
  | Some 1 => fill
  | _ => 0
  end.

(** The cash a filled maker leg adds: the fill itself on a BUY leg, the
    derived amount on a SELL leg. *)
Definition leg_usdc (order : Order.t) (fill : Z) : Z :=
  match Order.side order with
  | Some 0 => fill
  | Some 1 => derived_amount order fill
  | _ => 0
  end.

(** The leg's maker field equals the target, letter case ignored. *)
Definition maker_is (targetAddress : string) (order : Order.t) : bool :=
  lower_is (Order.maker order) (toLowerCase targetAddress).

(** The leg's maker field or its signer field equals the target. *)
Definition maker_or_signer_is (targetAddress : string) (order : Order.t) : bool :=
  lower_is (Order.maker order) (toLowerCase targetAddress)
  || lower_is (Order.signer order) (toLowerCase targetAddress).

(** The sum of [amount leg fill] over the selected legs, each leg paired
    with the fill at its own index. *)
Definition sum_legs (selected : Order.t -> bool) (amount : Order.t -> Z -> Z)
    (orders : list Order.t) (fills : list Z) : Z :=
  foldr Z.add 0
        (zip_with (fun order fill => if selected order then amount order fill else 0)
                  orders fills).

(** How a sum is reported: its decimal numeral when positive, [undefined]
    otherwise. *)
Definition report (sum : Z) : option string :=
  if 0 <? sum then Some (String_of_bigint sum) else None.


Definition nonneg (v : option Z) : bool :=
  match v with
  | Some z => 0 <=? z
  | None => true
  end.

Definition nonneg_order (order : Order.t) : bool :=
  nonneg (Order.makerAmount order) && nonneg (Order.takerAmount order).

(** Every amount of the call is an unsigned integer, as the ABI decoder
    yields them. *)
Definition unsigned_amounts (a : MatchArgs.t) : bool :=
  nonneg_order (MatchArgs.takerOrder a)
  && forallb nonneg_order (MatchArgs.makerOrders a)
  && nonneg (MatchArgs.takerFillAmount a)
  && nonneg (MatchArgs.takerReceiveAmount a)
  && forallb (fun fill => 0 <=? fill) (MatchArgs.makerFillAmounts a).

End DecoderRef.

Module CalculatorRef.
Import Calculator.

(** The amount is present and parses as a positive integer. *)
Definition parses_positive (value : option string) : bool :=
  match value with
  | Some s =>
      match StringToBigInt s with
      | Some z => 0 <? z
      | None => false
      end
  | None => false
  end.

(** The scaled amount of a raw amount in fixed point: floor(v * k / 10^6)
    for the parsed amount v and k = floor(scale * 10^6), the scale rounded
    down to millionths; nothing when the amount is missing or does not
    parse, or when the scale has no millionths (it is not finite). *)
Definition scaled_amount (value : option string) (scale : float) : option Z :=
  match toBigInt value,
        BigInt_of_number (Math_floor (scale * Number_of_bigint SCALE)%float) with
  | Some v, Return k => Some ((v * k) / 10 ^ 6)
  | _, _ => None
  end.

(** A precondition of [buildCopyIntent] fails. *)
Definition precondition_fails (fill : CopyFill.t) (config : CopyConfig.t) : Prop :=
  (CopyConfig.scale config <=? 0)%float = true
  \/ (CopyFill.side fill = BUY /\ CopyConfig.allowBuy config = false)
  \/ (CopyFill.side fill = SELL /\ CopyConfig.allowSell config = false)
  \/ parses_positive (CopyFill.shares fill) = false
  \/ parses_positive (CopyFill.usdc fill) = false
  \/ (exists c, scaled_amount (CopyFill.shares fill) (CopyConfig.scale config) = Some c
                /\ c <= 0)
  \/ (exists c, scaled_amount (CopyFill.usdc fill) (CopyConfig.scale config) = Some c
                /\ c <= 0).

End CalculatorRef.

(** ** Inputs of the worked examples *)

Module Examples.

Definition target : string := "0x557bEd924A1bB6F62842C5742d1dc789B8D480d4".
Definition other : string := "0xE3f18aCc55091e2c48d883fc8C8413319d4Ab7b0".
Definition proxy : string := "0x4bFb41d5B3570DeFd03C39a9A4D8dE6Bd8B8982E".

Definition leg (maker signer : string) (side makerAmount takerAmount : Z) : Order.t :=
  {| Order.maker := Some maker;
     Order.signer := Some signer;
     Order.tokenId := Some 77;
     Order.makerAmount := Some makerAmount;
     Order.takerAmount := Some takerAmount;
     Order.side := Some side |}.

Definition call (taker : Order.t) (makers : list Order.t)
    (takerFill takerReceive : option Z) (makerFills : list Z) : MatchDecoded.t :=
  {| MatchDecoded.functionName := "matchOrders";
     MatchDecoded.args :=
       Some {| MatchArgs.takerOrder := taker;
               MatchArgs.makerOrders := makers;
               MatchArgs.takerFillAmount := takerFill;
               MatchArgs.takerReceiveAmount := takerReceive;
               MatchArgs.makerFillAmounts := makerFills;
               MatchArgs.takerFeeAmount := Some 0;
               MatchArgs.makerFeeAmounts := map (fun _ => 0) makerFills |} |}.

(** The target is the only maker leg, a SELL of 1000 shares for 300, filled
    for 500. *)
Definition maker_sell_call : MatchDecoded.t :=
  call (leg other other 0 300 1000) [leg target target 1 1000 300]
       (Some 150) (Some 500) [500].

(** Two maker legs of the target: one placed under its own address, one
    placed by a proxy wallet that the target signs for. *)
Definition proxy_leg_call : MatchDecoded.t :=
  call (leg other other 0 300 1000)
       [leg target target 1 1000 300; leg proxy target 1 1000 300]
       (Some 210) (Some 700) [500; 200].

(** The target is a maker whose leg is filled for nothing. *)
Definition zero_fill_call : MatchDecoded.t :=
  call (leg other other 0 300 1000) [leg target target 1 1000 300]
       (Some 0) (Some 0) [0].


Definition fill (side : FillSide) (shares usdc : string) : CopyFill.t :=
  {| CopyFill.hash := Some "0xabc";
     CopyFill.tokenId := "77";
     CopyFill.side := side;
     CopyFill.shares := Some shares;
     CopyFill.usdc := Some usdc |}.

Definition copy_config (scale slippageBps : float) (allowBuy allowSell : bool)
  : CopyConfig.t :=
  {| CopyConfig.scale := scale;
     CopyConfig.slippageBps := slippageBps;
     CopyConfig.orderType := FAK;
     CopyConfig.simulateOnly := true;
     CopyConfig.allowBuy := allowBuy;
     CopyConfig.allowSell := allowSell |}.

End Examples.

Module WatcherRef.
Import Watcher.

(** The array and the set of a recency set hold the same hashes, none of
    them twice, none of them empty, at most [HASH_CACHE_SIZE] of them. *)
Definition coherent (c : HashCache.t) : Prop :=
  HashCache.set c = list_to_set (HashCache.deque c)
  /\ NoDup (HashCache.deque c)
  /\ Forall (fun h => h <> "") (HashCache.deque c)
  /\ (length (HashCache.deque c) <= HASH_CACHE_SIZE)%nat.

(** [HASH_CACHE_SIZE + 1] distinct transaction hashes. *)
Definition sample_hash (n : nat) : string := "0x" ++ String_of_bigint (Z.of_nat n).

Definition sample_hashes : list string :=
  sample_hash <$> seq 0 (S HASH_CACHE_SIZE).

End WatcherRef.

Module CacheExamples.
Import TtlCache.

(** A cache of numbers whose only entry, under ["market:77"], expired at
    time 1000; nothing is in flight. *)
Definition stale_cache : TtlCache.t Z :=
  {| store := {[ "market:77" := CacheEntry.mk 5 1000%float ]};
     inflight := ∅ |}.

End CacheExamples.

Module PlacerExamples.
Import Placer.

(** The credentials and the signing key are all present. *)
Definition has_credentials (cfg : AppConfig.t) : bool :=
  truthy (AppConfig.privateKey cfg)
  && truthy (AppConfig.clobApiKey cfg)
  && truthy (AppConfig.clobApiSecret cfg)
  && truthy (AppConfig.clobApiPassphrase cfg).

(** A configuration with credentials and a private key. *)
Definition live_config (simulateOnly : bool) (orderType : OrderTypeName)
  : AppConfig.t :=
  {| AppConfig.clobRestUrl := "https://clob.polymarket.com";
     AppConfig.clobApiKey := Some "key";
     AppConfig.clobApiSecret := Some "secret";
     AppConfig.clobApiPassphrase := Some "passphrase";
     AppConfig.privateKey := Some "0x01";
     AppConfig.fundingAddress := None;
     AppConfig.signatureType := None;
     AppConfig.copyOrderType := orderType;
     AppConfig.copySimulateOnly := simulateOnly |}.

Definition intent : CopyIntent.t :=
  {| CopyIntent.tokenId := "77";
     CopyIntent.side := Side.BUY;
     CopyIntent.size := 100;
     CopyIntent.price := 0.525;
     CopyIntent.impliedPrice := 0.5;
     CopyIntent.notional := 50;
     CopyIntent.hash := Some "0xabc" |}.

(** A venue that signs every order and rejects every submission. *)
Definition wallet (key : string) : completion string := Return key.
Definition sign_market (c : ClobClient string) (o : UserMarketOrder.t)
  : completion string := Return "signed".
Definition sign_limit (c : ClobClient string) (o : UserOrder.t)
  : completion string := Return "signed".
Definition reject (c : ClobClient string) (o : string) (t : OrderType.t)
  : completion JsValue := Throw (Error "not enough balance").
Definition accept (c : ClobClient string) (o : string) (t : OrderType.t)
  : completion JsValue := Return (JsObject [("orderId", JsString "0x9f")]).

End PlacerExamples.

(** ** Role inference of the decoder ([src/onchain/decoder.ts]) *)

(** The result of [inferRoleAndSide]. *)
Module RoleAndSide.
Record t : Type := mk {
  role : Role.t;
  side : FillSide;
  tokenId : option string;
}.
End RoleAndSide.

Module RoleInference.
Import Decoder.

(** [inferRoleAndSide]; the result [None] is [null]. *)
Definition inferRoleAndSide (decoded : option MatchDecoded.t)
    (targetAddress : string) : option RoleAndSide.t :=
  match decoded with
  | None => None
  | Some decoded =>
      if negb (String.eqb (MatchDecoded.functionName decoded) "matchOrders")
      then None
      else
        let args := MatchDecoded.args decoded in
        let takerOrder := default Order.empty (MatchArgs.takerOrder <$> args) in
        let makerOrders := default [] (MatchArgs.makerOrders <$> args) in
        let targetLower := toLowerCase targetAddress in
        let takerRole :=
          if lower_is (Order.maker takerOrder) targetLower
             || lower_is (Order.signer takerOrder) targetLower
          then Some Role.TAKER else None in
        let makerHit :=
          List.find (fun m => lower_is (Order.maker m) targetLower) makerOrders in
        let makerRole :=
          match makerHit with Some _ => Some Role.MAKER | None => None end in
        let role :=
          match takerRole with
          | Some r => r
          | None => match makerRole with Some r => r | None => Role.UNKNOWN end
          end in
        let side := side_of (Order.side takerOrder) in
        let tokenId := Order.tokenId takerOrder in
        Some {| RoleAndSide.role := role;
                RoleAndSide.side := side;
                RoleAndSide.tokenId :=
                  if truthy_bigint tokenId then String_of_bigint <$> tokenId else None |}
  end.

End RoleInference.


(** ** Reference definitions for the further properties *)

Module DecimalRef.

(** The number written by the decimal digits [d] after the digits that
    made [acc]. *)
Fixpoint uint_value (acc : Z) (d : Decimal.uint) : Z :=
  match d with
  | Decimal.Nil => acc
  | Decimal.D0 d => uint_value (acc * 10 + 0) d
  | Decimal.D1 d => uint_value (acc * 10 + 1) d
  | Decimal.D2 d => uint_value (acc * 10 + 2) d
  | Decimal.D3 d => uint_value (acc * 10 + 3) d
  | Decimal.D4 d => uint_value (acc * 10 + 4) d
  | Decimal.D5 d => uint_value (acc * 10 + 5) d
  | Decimal.D6 d => uint_value (acc * 10 + 6) d
  | Decimal.D7 d => uint_value (acc * 10 + 7) d
  | Decimal.D8 d => uint_value (acc * 10 + 8) d
  | Decimal.D9 d => uint_value (acc * 10 + 9) d
  end.

(** A decimal digit character. *)
Definition is_decimal_digit (c : ascii) : bool := between 48 57 (nat_of_ascii c).

End DecimalRef.


(** ** What a created order must look like *)

Module PlacerRef.
Import Placer.

(** The amount of a market order: the notional of a BUY rounded to two
    decimals, the size of a SELL rounded to four. *)
Definition market_amount (intent : CopyIntent.t) : float :=
  match CopyIntent.side intent with
  | Side.BUY => roundToDecimals (CopyIntent.notional intent) 2
  | Side.SELL => roundToDecimals (CopyIntent.size intent) 4
  end.

(** The number [market_amount] rounds. *)
Definition market_input (intent : CopyIntent.t) : float :=
  match CopyIntent.side intent with
  | Side.BUY => CopyIntent.notional intent
  | Side.SELL => CopyIntent.size intent
  end.

(** A call of the venue client is the one the intent and the configured
    order type ask for. *)
Definition call_fits {SignedOrder : Type} (orderType : OrderType.t)
    (intent : CopyIntent.t) (e : Event SignedOrder) : Prop :=
  match e with
  | CallCreateMarketOrder args =>
      (orderType = OrderType.FOK \/ orderType = OrderType.FAK)
      /\ args = {| UserMarketOrder.tokenID := CopyIntent.tokenId intent;
                   UserMarketOrder.amount := market_amount intent;
                   UserMarketOrder.side := CopyIntent.side intent;
                   UserMarketOrder.price := CopyIntent.price intent |}
      /\ (market_amount intent <=? 0)%float = false
      /\ is_finite (market_input intent) = true
  | CallCreateOrder args =>
      (orderType = OrderType.GTC \/ orderType = OrderType.GTD)
      /\ args = {| UserOrder.tokenID := CopyIntent.tokenId intent;
                   UserOrder.price := roundToDecimals (CopyIntent.price intent) 4;
                   UserOrder.size := roundToDecimals (CopyIntent.size intent) 4;
                   UserOrder.side := CopyIntent.side intent |}
      /\ (roundToDecimals (CopyIntent.price intent) 4 <=? 0)%float = false
      /\ (roundToDecimals (CopyIntent.size intent) 4 <=? 0)%float = false
      /\ is_finite (CopyIntent.price intent) = true
      /\ is_finite (CopyIntent.size intent) = true
  | CallPostOrder _ ot => ot = orderType
  | LogInfo _ | LogWarn _ => True
  end.

End PlacerRef.

(** ** Copy handler ([src/copy/handler.ts]) *)

(** The fields of [AppConfig] that the handler reads and the placer does
    not. *)
Module CopySettings.
Record t : Type := mk {
  copyScale : float;
  copySlippageBps : float;
  copyAllowBuy : bool;
  copyAllowSell : bool;
}.
End CopySettings.

Module Handler.
Import Placer.

Section Venue.
Variable Wallet : Type.
Variable SignedOrder : Type.
Variable new_Wallet : string -> completion Wallet.
Variable createMarketOrder :
  ClobClient Wallet -> UserMarketOrder.t -> completion SignedOrder.
Variable createOrder : ClobClient Wallet -> UserOrder.t -> completion SignedOrder.
Variable postOrder :
  ClobClient Wallet -> SignedOrder -> OrderType.t -> completion JsValue.

(** The variables captured by the closure [handle]. *)
Record Handler : Type := mkHandler {
  placer : Placer Wallet;
  copyConfig : CopyConfig.t;
}.

(** [createCopyHandler(config, logger)] up to the definition of [handle]. *)
Definition createCopyHandler (config : AppConfig.t) (settings : CopySettings.t)
  : Eff SignedOrder Handler :=
  bind (createCopyPlacer new_Wallet config)
       (fun placer =>
          ret {| placer := placer;
                 copyConfig :=
                   {| CopyConfig.scale := CopySettings.copyScale settings;
                      CopyConfig.slippageBps := CopySettings.copySlippageBps settings;
                      CopyConfig.orderType := AppConfig.copyOrderType config;
                      CopyConfig.simulateOnly := AppConfig.copySimulateOnly config;
                      CopyConfig.allowBuy := CopySettings.copyAllowBuy settings;
                      CopyConfig.allowSell := CopySettings.copyAllowSell settings |} |}).

(** [handle(fill)]; the result [None] is [null]. *)
Definition handle (h : Handler) (fill : CopyFill.t)
  : Eff SignedOrder (option PlaceResult) :=
  bind (fun tr => (Calculator.buildCopyIntent fill (copyConfig h), tr))
       (fun intent =>
          match intent with
          | None => ret None
          | Some intent =>
              bind (place createMarketOrder createOrder postOrder (placer h) intent)
                   (fun r => ret (Some r))
          end).

End Venue.

Arguments mkHandler {Wallet} placer copyConfig.
Arguments placer {Wallet} h.
Arguments copyConfig {Wallet} h.
Arguments createCopyHandler {Wallet SignedOrder} new_Wallet config settings _.
Arguments handle {Wallet SignedOrder} createMarketOrder createOrder postOrder
  h fill _.

End Handler.

(** ** From a decoded call to the fill that is copied
    ([src/onchain/watcher.ts], the strategy's [handleOnchainEvent]) *)

(** The [info] object of an on-chain event. *)
Module OnchainInfo.
Record t : Type := mk {
  role : option Role.t;
  side : option FillSide;
  tokenId : option string;
  takerFill : option string;
  takerReceive : option string;
}.
End OnchainInfo.

Module Strategy.
Import Decoder RoleInference.

(** [x ? String(x) : undefined] for an optional bigint. *)
Definition String_if_truthy (x : option Z) : option string :=
  if truthy_bigint x then String_of_bigint <$> x else None.

(** The [info] that both pending-transaction watchers attach to the event
    they emit for a decoded call. *)
Definition event_info (decoded : option MatchDecoded.t) (target : string)
  : OnchainInfo.t :=
  let info := inferRoleAndSide decoded target in
  let args := decoded ≫= MatchDecoded.args in
  let takerFill := args ≫= MatchArgs.takerFillAmount in
  let takerReceive := args ≫= MatchArgs.takerReceiveAmount in
  {| OnchainInfo.role := RoleAndSide.role <$> info;
     OnchainInfo.side := RoleAndSide.side <$> info;
     OnchainInfo.tokenId := info ≫= RoleAndSide.tokenId;
     OnchainInfo.takerFill := String_if_truthy takerFill;
     OnchainInfo.takerReceive := String_if_truthy takerReceive |}.

(** [a ?? b] on optional values. *)
Definition nullish {A : Type} (a b : option A) : option A :=
  match a with
  | Some v => Some v
  | None => b
  end.

(** The fill that [handleOnchainEvent] hands to the copy handler for an
    on-chain event; [None] when it returns before that because the event
    has no token id. *)
Definition copy_fill (hash : option string) (info : option OnchainInfo.t)
    (decoded : option MatchDecoded.t) (target : string) : option CopyFill.t :=
  match info ≫= OnchainInfo.tokenId with
  | None => None
  | Some tokenId =>
      if negb (truthy_string tokenId) then None
      else
        let breakdown := computeFillForTarget decoded target in
        Some {| CopyFill.hash := hash;
                CopyFill.tokenId := tokenId;
                CopyFill.side :=
                  default UNKNOWN
                    (nullish (FillBreakdown.side <$> breakdown)
                             (info ≫= OnchainInfo.side));
                CopyFill.shares :=
                  nullish (breakdown ≫= FillBreakdown.shares)
                          (nullish (info ≫= OnchainInfo.takerReceive)
                                   (info ≫= OnchainInfo.takerFill));
                CopyFill.usdc :=
                  nullish (breakdown ≫= FillBreakdown.usdc)
                          (nullish (info ≫= OnchainInfo.takerFill)
                                   (info ≫= OnchainInfo.takerReceive)) |}
  end.

End Strategy.


(** ** Gamma HTTP client: the retry loop of [fetchJson] *)

Module GammaClient.

(** [shouldRetry] *)
Definition shouldRetry (status : Z) : bool :=
  (500 <=? status) || (status =? 429) || (status =? 408).

(** The parts of a [fetch] response that [fetchJson] reads: [text] and
    [json] are the outcomes of awaiting [res.text()] and [res.json()]. *)
Record Response : Type := mkResponse {
  ok : bool;
  status : Z;
  text : completion string;
  json : completion JsValue;
}.

(** The debug line [gamma fetch non-200]. *)
Inductive LogLine : Type :=
| FetchNon200 (path : string) (status : Z) (text : string).

(** What a call of [fetchJson] leaves behind: its completion, the number
    of requests it made, and the lines it logged. *)
Record Outcome : Type := mkOutcome {
  result : completion JsValue;
  requests : nat;
  logged : list LogLine;
}.

Section Client.
(** [options?.retries], a whole number when given. *)
Variable retries_option : option Z.
Variable path : string.
(** The outcome of building the URL and awaiting [fetch] in the turn of
    the loop that comes after [n] earlier turns: a response, or a throw
    (a network failure, or the abort when the timer fires). *)
Variable fetch : nat -> completion Response.

Definition retries : Z := Z.max 0 (default 1 retries_option).

(** The [while] loop of [fetchJson], entered with the loop variables
    [attempt] and [lastError] after [n] requests; [fuel] bounds the number
    of turns, and [None] is returned when it runs out. *)
Fixpoint loop (fuel : nat) (attempt : Z) (lastError : option JsError)
    (n : nat) (log : list LogLine) : option Outcome :=
  match fuel with
  | O => None
  | S fuel =>
      if attempt <=? retries then
        (* the [catch] block *)
        let catch (err : JsError) (log : list LogLine) : option Outcome :=
          if attempt <? retries
          then loop fuel (attempt + 1) (Some err) (S n) log
          else Some (mkOutcome (Throw err) (S n) log) in
        match fetch n with
        | Return res =>
            if negb (ok res) then
              if (attempt <? retries) && shouldRetry (status res)
              then loop fuel (attempt + 1) lastError (S n) log
              else
                let text := match text res with
                            | Return t => t
                            | Throw _ => ""
                            end in
                catch (Error ("Gamma request failed ("
                              ++ String_of_bigint (status res) ++ ")"))
                      (log ++ [FetchNon200 path (status res) text])%list
            else
              match json res with
              | Return value => Some (mkOutcome (Return value) (S n) log)
              | Throw err => catch err log
              end
        | Throw err => catch err log
        end
      else
        Some (mkOutcome
                (Throw (match lastError with
                        | Some err => err
                        | None => Error "Gamma request failed"
                        end))
                n log)
  end.

(** [fetchJson(path, params)] *)
Definition fetchJson (fuel : nat) : option Outcome := loop fuel 0 None 0%nat [].

End Client.
End GammaClient.

(** What the retry loop comes to. *)
Module GammaClientRef.
Import GammaClient.

(** The completion of one request taken alone: the parsed body of an [ok]
    response, and otherwise the error. *)
Definition attempt_result (a : completion Response) : completion JsValue :=
  match a with
  | Return res =>
      if ok res then json res
      else Throw (Error ("Gamma request failed ("
                         ++ String_of_bigint (status res) ++ ")"))
  | Throw err => Throw err
  end.

(** The first request from number [n] on that succeeds, within [more]
    further requests; the error of the last one when none does. The
    second component is the number of requests made. *)
Fixpoint first_success (fetch : nat -> completion Response) (n more : nat)
  : completion JsValue * nat :=
  match attempt_result (fetch n), more with
  | Return value, _ => (Return value, S n)
  | Throw err, O => (Throw err, S n)
  | Throw _, S more => first_success fetch (S n) more
  end.

End GammaClientRef.

(** ** Gamma market resolver *)

(** A normalised market: the fields the resolver reads, and the remaining
    properties, which it copies unread. *)
Module GammaMarket.
Record t : Type := mk {
  id : string;
  slug : option string;
  clobTokenIds : option (list string);
  rest : list (string * JsValue);
}.
End GammaMarket.

Module GammaResolver.
Import TtlCache.

(** The debug lines of the resolver. *)
Inductive LogLine : Type :=
| CacheHit (key : string)
| ResolveError (key : string) (err : string).

(** The variables captured by the closures of [createGammaResolver]. *)
Record t : Type := mk {
  cache : TtlCache.t (option GammaMarket.t);
  inflight : gmap string promise;
  logged : list LogLine;
}.

Section Resolver.
(** [options?.ttlMs] and [options?.negativeTtlMs] *)
Variable ttlMs_option : option float.
Variable negativeTtlMs_option : option float.

Definition ttlMs : float := default 60000%float ttlMs_option.
Definition negativeTtlMs : float := default 10000%float negativeTtlMs_option.

(** The state right after [createGammaResolver(..)]. *)
Definition createGammaResolver : t :=
  {| cache := createTtlCache; inflight := ∅; logged := [] |}.

Definition cacheKey (kind value : string) : string := kind ++ ":" ++ value.

(** [put(key, market)] on the TTL cache, the clock reading [now]. *)
Definition put (now : float) (key : string) (market : option GammaMarket.t)
    (c : TtlCache.t (option GammaMarket.t)) : TtlCache.t (option GammaMarket.t) :=
  let ttl := match market with Some _ => ttlMs | None => negativeTtlMs end in
  let c := snd (set now key market ttl c) in
  match market with
  | None => c
  | Some m =>
      let c := snd (set now (cacheKey "id" (GammaMarket.id m)) market ttlMs c) in
      let c :=
        match GammaMarket.slug m with
        | Some slug =>
            if truthy_string slug
            then snd (set now (cacheKey "slug" slug) market ttlMs c)
            else c
        | None => c
        end in
      match GammaMarket.clobTokenIds m with
      | Some tokenIds =>
          fold_left
            (fun c tokenId => snd (set now (cacheKey "token" tokenId) market ttlMs c))
            tokenIds c
      | None => c
      end
  end.

(** [fromCache(key)]; the outer [None] is [undefined], [Some None] is a
    cached [null]. *)
Definition fromCache (now : float) (key : string) (r : t)
  : option (option GammaMarket.t) * t :=
  let '(cached, c) := get now key (cache r) in
  (cached,
   {| cache := c;
      inflight := inflight r;
      logged := match cached with
                | Some _ => (logged r ++ [CacheHit key])%list
                | None => logged r
                end |}).

(** The synchronous part of [resolveWithFetcher(key, fetcher)]; [fresh]
    names the promise [fetcher().then(..).catch(..)]. *)
Definition resolveWithFetcher (now : float) (key : string) (fresh : promise)
    (r : t) : started (option GammaMarket.t) * t :=
  let '(cached, r) := fromCache now key r in
  match cached with
  | Some market => (Cached market, r)
  | None =>
      match inflight r !! key with
      | Some pending => (Pending pending, r)
      | None =>
          (Launched fresh,
           {| cache := cache r;
              inflight := <[key := fresh]> (inflight r);
              logged := logged r |})
      end
  end.

(** The [then] callback, run at time [now] when the fetcher fulfils with
    [market]. *)
Definition fetcher_fulfilled (now : float) (key : string)
    (market : option GammaMarket.t) (r : t) : option GammaMarket.t * t :=
  (market,
   {| cache := put now key market (cache r);
      inflight := delete key (inflight r);
      logged := logged r |}).

(** The [catch] callback, run when the fetcher rejects with [err]: the
    promise fulfils with [null]. *)
Definition fetcher_rejected (key : string) (err : JsError) (r : t)
  : option GammaMarket.t * t :=
  (None,
   {| cache := cache r;
      inflight := delete key (inflight r);
      logged := (logged r ++ [ResolveError key (String_of_error err)])%list |}).

(** [getMarketByClobTokenId(client, tokenId)] given the completion
    [listed] of its [listMarkets] call. *)
Definition getMarketByClobTokenId (listed : completion (list GammaMarket.t))
    (tokenId : string) : completion (option GammaMarket.t) :=
  markets ← listed;
  match markets with
  | [] => Return None
  | first :: _ =>
      Return (Some {| GammaMarket.id := GammaMarket.id first;
                      GammaMarket.slug := GammaMarket.slug first;
                      GammaMarket.clobTokenIds :=
                        Some (default [tokenId] (GammaMarket.clobTokenIds first));
                      GammaMarket.rest := GammaMarket.rest first |})
  end.

(** The fetcher of [resolveByClobTokenId(tokenId)]. *)
Definition token_fetcher (listed : completion (list GammaMarket.t))
    (tokenId : string) : option GammaMarket.t :=
  let market :=
    match getMarketByClobTokenId listed tokenId with
    | Return market => market
    | Throw _ => None
    end in
  match market with
  | Some m =>
      if match GammaMarket.clobTokenIds m with
         | Some tokenIds => negb (bool_decide (tokenId ∈ tokenIds))
         | None => true
         end
      then Some {| GammaMarket.id := GammaMarket.id m;
                   GammaMarket.slug := GammaMarket.slug m;
                   GammaMarket.clobTokenIds :=
                     Some (default [] (GammaMarket.clobTokenIds m) ++ [tokenId])%list;
                   GammaMarket.rest := GammaMarket.rest m |}
      else Some m
  | None => None
  end.

(** The fetcher of [resolveById(id)] and of [resolveBySlug(slug)], given
    the completion of [getMarketById] or [getMarketBySlug]. *)
Definition market_fetcher (got : completion GammaMarket.t) : option GammaMarket.t :=
  match got with
  | Return market => Some market
  | Throw _ => None
  end.

Definition resolveById (now : float) (id : string) (fresh : promise) (r : t)
  : started (option GammaMarket.t) * t :=
  resolveWithFetcher now (cacheKey "id" id) fresh r.

Definition resolveBySlug (now : float) (slug : string) (fresh : promise) (r : t)
  : started (option GammaMarket.t) * t :=
  resolveWithFetcher now (cacheKey "slug" slug) fresh r.

Definition resolveByClobTokenId (now : float) (tokenId : string) (fresh : promise)
    (r : t) : started (option GammaMarket.t) * t :=
  resolveWithFetcher now (cacheKey "token" tokenId) fresh r.

(** [getCached(key)] *)
Definition getCached (now : float) (key : string) (r : t)
  : option (option GammaMarket.t) * t :=
  let '(cached, c) := get now key (cache r) in
  (cached, {| cache := c; inflight := inflight r; logged := logged r |}).

(** [clear()] *)
Definition clear (r : t) : t :=
  {| cache := TtlCache.clear (cache r); inflight := inflight r; logged := logged r |}.

End Resolver.
End GammaResolver.

(** The keys [put] writes a market under. *)
Module GammaResolverRef.
Import GammaResolver.

Definition keys_of (key : string) (m : GammaMarket.t) : list string :=
  (key :: cacheKey "id" (GammaMarket.id m)
       :: match GammaMarket.slug m with
          | Some slug => if truthy_string slug then [cacheKey "slug" slug] else []
          | None => []
          end
       ++ (cacheKey "token" <$> default [] (GammaMarket.clobTokenIds m)))%list.

End GammaResolverRef.

(** ** Token resolver ([src/clob/resolver.ts]) *)

Module TokenInfo.
Record t : Type := mk {
  tokenId : string;
  marketId : option string;
  assetId : option string;
  raw : JsValue;
}.
End TokenInfo.

Module TokenResolver.
Import TtlCache.

(** The two maps captured by the closures of [createTokenResolver]. *)
Record t : Type := mk {
  cache : gmap string TokenInfo.t;
  inflight : gmap string promise;
}.

(** The state right after [createTokenResolver(..)]. *)
Definition createTokenResolver : t := {| cache := ∅; inflight := ∅ |}.

(** [getCached(tokenId)] *)
Definition getCached (tokenId : string) (r : t) : option TokenInfo.t :=
  cache r !! tokenId.

(** The synchronous part of [resolve(tokenId)]; [fresh] names the promise
    [fetchBook(tokenId).then(..)]. *)
Definition resolve (tokenId : string) (fresh : promise) (r : t)
  : started TokenInfo.t * t :=
  match cache r !! tokenId with
  | Some cached => (Cached cached, r)
  | None =>
      match inflight r !! tokenId with
      | Some pending => (Pending pending, r)
      | None =>
          (Launched fresh,
           {| cache := cache r; inflight := <[tokenId := fresh]> (inflight r) |})
      end
  end.

(** The [then] callback of [resolve], run when [fetchBook], which never
    rejects, fulfils with [info] ([None] is [null]). *)
Definition fetched (tokenId : string) (info : option TokenInfo.t) (r : t)
  : option TokenInfo.t * t :=
  let cache := match info with
               | Some i => <[tokenId := i]> (cache r)
               | None => cache r
               end in
  (info, {| cache := cache; inflight := delete tokenId (inflight r) |}).

End TokenResolver.


(** Runs of the token resolver. *)
Module TokenResolverRef.
Import TtlCache TokenResolver.

(** What happens to the resolver: a call of [resolve], or the completion
    of a [fetchBook] that a [resolve] launched. *)
Inductive op : Type :=
| Resolve (tokenId : string) (fresh : promise)
| Fetched (tokenId : string) (info : option TokenInfo.t).

Definition step (r : TokenResolver.t) (o : op) : TokenResolver.t :=
  match o with
  | Resolve tokenId fresh => snd (resolve tokenId fresh r)
  | Fetched tokenId info => snd (fetched tokenId info r)
  end.

Definition run (ops : list op) (r : TokenResolver.t) : TokenResolver.t :=
  fold_left step ops r.

(** The operation completes a fetch of [tokenId]. *)
Definition completes (tokenId : string) (o : op) : bool :=
  match o with
  | Fetched t _ => String.eqb t tokenId
  | Resolve _ _ => false
  end.

End TokenResolverRef.

(** Inputs of the worked examples of the Gamma client and resolver. *)
Module GammaExamples.
Import GammaClient.

(** A server that answers 404 to the first request and 200 to the rest. *)
Definition not_found_once (n : nat) : completion Response :=
  match n with
  | O => Return {| ok := false; status := 404;
                   text := Return "not found"; json := Throw (SyntaxError "Unexpected token") |}
  | S _ => Return {| ok := true; status := 200;
                     text := Return "[]"; json := Return (JsString "ok") |}
  end.

Definition market : GammaMarket.t :=
  {| GammaMarket.id := "512";
     GammaMarket.slug := Some "will-it-rain";
     GammaMarket.clobTokenIds := Some ["77"; "78"];
     GammaMarket.rest := [("question", JsString "Will it rain?")] |}.

End GammaExamples.


(** ** Readable amounts (the strategy's [formatUnits]) *)

Module Format.

Definition DISPLAY_DECIMALS : Z := 6.
Definition DECIMAL_BASE : Z := 10 ^ DISPLAY_DECIMALS.

(** [s.padStart(n, "0")] *)
Definition padStart_zero (s : string) (n : nat) : string :=
  string_of_list_ascii (repeat "0"%char (n - String.length s)) ++ s.

Fixpoint drop_zeros (l : list ascii) : list ascii :=
  match l with
  | c :: r => if Ascii.eqb c "0" then drop_zeros r else l
  | [] => []
  end.

(** [s.replace(/0+$/, "")] *)
Definition strip_trailing_zeros (s : string) : string :=
  string_of_list_ascii (rev (drop_zeros (rev (list_ascii_of_string s)))).

(** [formatUnits] *)
Definition formatUnits (raw : option string) : string :=
  match raw with
  | None => "n/a"
  | Some raw =>
      if negb (truthy_string raw) then "n/a"
      else
        match BigInt_of_string raw with
        | Return value =>
            let intPart := value ÷ DECIMAL_BASE in
            let fracPart := Z.rem value DECIMAL_BASE in
            if fracPart =? 0 then String_of_bigint intPart
            else
              let fracStr :=
                padStart_zero (String_of_bigint fracPart) (Z.to_nat DISPLAY_DECIMALS) in
              let trimmed := strip_trailing_zeros fracStr in
              String_of_bigint intPart ++ "." ++ trimmed
        | Throw _ => raw
        end
  end.

End Format.

(** Reading a displayed amount back. *)
Module FormatRef.
Import Format.

(** The characters before the first dot, and those after it when there is
    one. *)
Fixpoint split_dot (l : list ascii) : list ascii * option (list ascii) :=
  match l with
  | [] => ([], None)
  | c :: r =>
      if Ascii.eqb c "."
      then ([], Some r)
      else let '(whole, fraction) := split_dot r in (c :: whole, fraction)
  end.

(** The number of micro-units that a decimal numeral with at most six
    fraction digits denotes. *)
Definition units_of_display (s : string) : option Z :=
  let '(whole, fraction) := split_dot (list_ascii_of_string s) in
  match parse_digits 10 whole with
  | Some q =>
      match fraction with
      | None => Some (q * DECIMAL_BASE)
      | Some f =>
          if (0 <? length f)%nat && (length f <=? 6)%nat
          then match digits_value 10 0 (f ++ repeat "0"%char (6 - length f))%list with
               | Some fv => Some (q * DECIMAL_BASE + fv)
               | None => None
               end
          else None
      end
  | None => None
  end.

End FormatRef.


(** ** The scaled amount as the claim words it *)

Module CalculatorClaimed.
Import Calculator.






End CalculatorClaimed.


(** * Properties *)

(** ** Copy-intent calculator *)

Section CalculatorFacts.
Import Calculator CalculatorRef.

(** [toBigInt] is the parser, except that the empty string is rejected
    before it is parsed. *)
Lemma toBigInt_Some value z :
  toBigInt value = Some z ->
  exists s, value = Some s /\ s <> "" /\ StringToBigInt s = Some z.
Proof.
  destruct value as [s|]; simpl; [|discriminate].
  unfold truthy_string, BigInt_of_string.
  destruct (String.eqb_spec s "") as [->|Hne]; simpl; [discriminate|].
  destruct (StringToBigInt s) as [z'|] eqn:Hz; [|discriminate].
  intros [= ->]. eauto.
Qed.

Lemma parses_positive_toBigInt value :
  parses_positive value = true <-> exists z, toBigInt value = Some z /\ 0 < z.
Proof.
  split.
  - destruct value as [s|]; simpl; [|discriminate].
    unfold truthy_string, BigInt_of_string.
    destruct (String.eqb_spec s "") as [->|Hne]; simpl; [discriminate|].
    destruct (StringToBigInt s) as [z|]; [|discriminate].
    intros Hz. exists z. split; [reflexivity|lia].
  - intros (z & Hz & Hpos).
    destruct (toBigInt_Some _ _ Hz) as (s & -> & _ & Hs).
    simpl. rewrite Hs. lia.
Qed.

Lemma missing_or_not_positive_spec value :
  missing_or_not_positive (toBigInt value) = negb (parses_positive value).
Proof.
  destruct (parses_positive value) eqn:Hp; simpl.
  - apply parses_positive_toBigInt in Hp as (z & -> & Hz). simpl. lia.
  - destruct (toBigInt value) as [z|] eqn:Hz; [|reflexivity].
    simpl. destruct (Z.eqb_spec z 0); [reflexivity|]. simpl.
    destruct (Z.leb_spec z 0); [reflexivity|].
    assert (parses_positive value = true) as Hp'; [|congruence].
    apply parses_positive_toBigInt. exists z. split; [assumption|lia].
Qed.

(** Whether [applyScale] throws depends on the scale factor alone. *)
Lemma applyScale_Return_any v c scale v' :
  applyScale v scale = Return c ->
  exists c', applyScale v' scale = Return c'.
Proof.
  unfold applyScale.
  destruct (BigInt_of_number _) as [scaled|e]; simpl; [eauto|discriminate].
Qed.

(** A scaled amount that is not positive is not positive either when
    [applyScale] computes it, with a division that truncates. *)
Lemma scaled_amount_Some value scale c :
  scaled_amount value scale = Some c ->
  c <= 0 ->
  exists v c',
    toBigInt value = Some v /\ applyScale v scale = Return c' /\ c' <= 0.
Proof.
  unfold scaled_amount, applyScale, SCALE.
  destruct (toBigInt value) as [v|]; [|discriminate].
  destruct (BigInt_of_number _) as [k|]; [|discriminate].
  intros [= <-] Hle. exists v, ((v * k) ÷ 1000000).
  split; [reflexivity|]. split; [reflexivity|].
  change (10 ^ 6) with 1000000 in Hle.
  destruct (Z_lt_le_dec (v * k) 0) as [Hneg|Hpos].
  - pose proof (Z.quot_le_mono (v * k) 0 1000000 ltac:(lia) ltac:(lia)) as H.
    rewrite Z.quot_0_l in H by lia. exact H.
  - rewrite Z.quot_div_nonneg by lia. exact Hle.
Qed.

(** The steps of [buildCopyIntent] up to the two scaled amounts. *)
Lemma buildCopyIntent_scaled fill config s u cs cu :
  toBigInt (CopyFill.shares fill) = Some s ->
  toBigInt (CopyFill.usdc fill) = Some u ->
  applyScale s (CopyConfig.scale config) = Return cs ->
  applyScale u (CopyConfig.scale config) = Return cu ->
  cs <= 0 \/ cu <= 0 ->
  buildCopyIntent fill config = Return None.
Proof.
  intros Hs Hu Hcs Hcu Hle. unfold buildCopyIntent.
  destruct (_ <=? _)%float; [reflexivity|].
  destruct (is_BUY _ && _); [reflexivity|].
  destruct (is_SELL _ && _); [reflexivity|].
  rewrite Hs, Hu.
  destruct (missing_or_not_positive (Some s) || missing_or_not_positive (Some u));
    [reflexivity|].
  simpl default. rewrite Hcs, Hcu. simpl.
  destruct ((cs <=? 0) || (cu <=? 0)) eqn:Hb; [reflexivity|].
  apply orb_false_iff in Hb as [H1 H2]. lia.
Qed.

Lemma buildCopyIntent_not_positive fill config :
  parses_positive (CopyFill.shares fill) = false
  \/ parses_positive (CopyFill.usdc fill) = false ->
  buildCopyIntent fill config = Return None.
Proof.
  intros Hp. unfold buildCopyIntent.
  destruct (_ <=? _)%float; [reflexivity|].
  destruct (is_BUY _ && _); [reflexivity|].
  destruct (is_SELL _ && _); [reflexivity|].
  rewrite !missing_or_not_positive_spec.
  destruct Hp as [-> | ->]; simpl; [reflexivity|].
  rewrite orb_true_r. reflexivity.
Qed.

End CalculatorFacts.

Section CalculatorClaims.
Import Calculator CalculatorRef CalculatorClaimed Examples.

(** A number above zero fails the test [x <= 0]. *)
Lemma positive_not_le_zero (x : float) :
  (0 <? x)%float = true -> (x <=? 0)%float = false.
Proof.
  rewrite ltb_spec, leb_spec.
  change (Prim2SF 0) with (S754_zero false).
  unfold SFltb, SFleb.
  destruct (Prim2SF x) as [s|s| |s m e]; simpl; try discriminate;
    destruct s; simpl; congruence.
Qed.

(** C1, at the stated input: for the fill with shares=1000, usdc=500,
    side BUY and scale=0.1, slippageBps=500, buying enabled,
    [buildCopyIntent] returns an intent whose size is not 100 and whose
    notional is not 50. *)
Lemma C1_size_and_notional_are_micro_units :
  exists intent,
    buildCopyIntent (fill BUY "1000" "500") (copy_config 0.1 500 true true)
    = Return (Some intent)
    /\ (CopyIntent.size intent =? 100)%float = false
    /\ (CopyIntent.notional intent =? 50)%float = false.
Proof. eexists. vm_compute. repeat split. Qed.

(** C1, amended: for the fill with shares=1000, usdc=500 (raw integer
    amounts), side BUY and scale=0.1, slippageBps=500, buying enabled,
    [buildCopyIntent] returns the intent with size=0.0001, impliedPrice=0.5,
    price=0.525 and notional=0.00005: the scaled amounts 100 and 50 are
    divided by 10^6 at the boundary. The values size=100 and notional=50
    are those of the fill with shares=1000000000 and usdc=500000000. *)
Theorem C1_buildCopyIntent_example :
  buildCopyIntent (fill BUY "1000" "500") (copy_config 0.1 500 true true)
  = Return (Some {| CopyIntent.tokenId := "77";
                    CopyIntent.side := Side.BUY;
                    CopyIntent.size := 0.0001;
                    CopyIntent.price := 0.525;
                    CopyIntent.impliedPrice := 0.5;
                    CopyIntent.notional := 0.00005;
                    CopyIntent.hash := Some "0xabc" |})
  /\ buildCopyIntent (fill BUY "1000000000" "500000000")
                     (copy_config 0.1 500 true true)
     = Return (Some {| CopyIntent.tokenId := "77";
                       CopyIntent.side := Side.BUY;
                       CopyIntent.size := 100;
                       CopyIntent.price := 0.525;
                       CopyIntent.impliedPrice := 0.5;
                       CopyIntent.notional := 50;
                       CopyIntent.hash := Some "0xabc" |}).
Proof. split; vm_compute; reflexivity. Qed.




(** C9, at a fill that passes the stated preconditions: side UNKNOWN,
    shares=2000000 and usdc=1 parse as positive integers, scale=1 > 0, both
    scaled amounts are positive; the implied price floor(1*10^6/2000000) is
    0, and [buildCopyIntent] returns null. With usdc=100 and
    slippageBps=2.5 the conversion of slippageBps to a bigint throws, and
    no intent is returned either. *)
Lemma C9_zero_implied_price_gives_null :
  toBigInt (CopyFill.shares (fill UNKNOWN "2000000" "1")) = Some 2000000
  /\ toBigInt (CopyFill.usdc (fill UNKNOWN "2000000" "1")) = Some 1
  /\ (0 <? CopyConfig.scale (copy_config 1 500 true true))%float = true
  /\ applyScale 2000000 1 = Return 2000000
  /\ applyScale 1 1 = Return 1
  /\ buildCopyIntent (fill UNKNOWN "2000000" "1") (copy_config 1 500 true true)
     = Return None
  /\ exists msg,
      buildCopyIntent (fill UNKNOWN "2000000" "100") (copy_config 1 2.5 true true)
      = Throw (RangeError msg).
Proof. repeat split. eexists. reflexivity. Qed.

(** C9, amended: for every fill whose side is UNKNOWN, with shares and usdc
    parsing as positive integers, scale > 0, both scaled amounts positive,
    an integral slippageBps and an implied price floor(usdc*10^6/shares) of
    at least one micro-unit, [buildCopyIntent] returns an intent whose side
    is BUY and whose limit price is the implied price unchanged, whatever
    the allowBuy and allowSell flags are. *)
Theorem C9_unknown_side_builds_buy_intent
    (fill : CopyFill.t) (config : CopyConfig.t) (s u cs cu bps : Z) :
  CopyFill.side fill = UNKNOWN ->
  toBigInt (CopyFill.shares fill) = Some s -> 0 < s ->
  toBigInt (CopyFill.usdc fill) = Some u -> 0 < u ->
  (0 <? CopyConfig.scale config)%float = true ->
  applyScale s (CopyConfig.scale config) = Return cs -> 0 < cs ->
  applyScale u (CopyConfig.scale config) = Return cu -> 0 < cu ->
  BigInt_of_number (CopyConfig.slippageBps config) = Return bps ->
  0 < (u * SCALE) ÷ s ->
  exists intent,
    buildCopyIntent fill config = Return (Some intent)
    /\ CopyIntent.side intent = Side.BUY
    /\ CopyIntent.price intent = CopyIntent.impliedPrice intent
    /\ CopyIntent.impliedPrice intent
       = (Number_of_bigint ((u * SCALE) ÷ s) / Number_of_bigint SCALE)%float
    /\ CopyIntent.size intent
       = (Number_of_bigint cs / Number_of_bigint SCALE)%float
    /\ CopyIntent.notional intent
       = (Number_of_bigint cu / Number_of_bigint SCALE)%float.
Proof.
  intros Hside Hs Hspos Hu Hupos Hscale Hcs Hcspos Hcu Hcupos Hbps Hprice.
  unfold buildCopyIntent.
  rewrite (positive_not_le_zero _ Hscale), Hside, Hs, Hu. simpl.
  destruct (Z.eqb_spec s 0); [lia|]. destruct (Z.leb_spec s 0); [lia|].
  destruct (Z.eqb_spec u 0); [lia|]. destruct (Z.leb_spec u 0); [lia|].
  simpl. rewrite Hcs, Hcu. simpl.
  destruct (Z.leb_spec cs 0); [lia|]. destruct (Z.leb_spec cu 0); [lia|].
  simpl. unfold applySlippage. rewrite Hbps. simpl.
  destruct (Z.leb_spec ((u * SCALE) ÷ s) 0); [lia|].
  eexists. split; [reflexivity|]. simpl. repeat split.
Qed.

(** C9 at shares=2000000, usdc=100, scale=1, slippageBps=5, both sides
    disabled. *)
Lemma C9_witness :
  exists intent,
    buildCopyIntent (fill UNKNOWN "2000000" "100") (copy_config 1 5 false false)
    = Return (Some intent)
    /\ CopyIntent.side intent = Side.BUY
    /\ CopyIntent.price intent = CopyIntent.impliedPrice intent
    /\ CopyIntent.impliedPrice intent
       = (Number_of_bigint ((100 * SCALE) ÷ 2000000) / Number_of_bigint SCALE)%float
    /\ CopyIntent.size intent
       = (Number_of_bigint 2000000 / Number_of_bigint SCALE)%float
    /\ CopyIntent.notional intent
       = (Number_of_bigint 100 / Number_of_bigint SCALE)%float.
Proof.
  apply (C9_unknown_side_builds_buy_intent
           (fill UNKNOWN "2000000" "100") (copy_config 1 5 false false)
           2000000 100 2000000 100 5);
    first [reflexivity | vm_compute; reflexivity].
Defined.

End CalculatorClaims.

(** ** Calldata decoder: the selector and address pre-filter *)

Section StringFacts.

Lemma append_cons (c : ascii) (a b : string) :
  String c a ++ b = String c (a ++ b).
Proof. reflexivity. Qed.

Lemma append_nil (b : string) : "" ++ b = b.
Proof. reflexivity. Qed.

Lemma prefix_iff_append (p s : string) :
  String.prefix p s = true <-> exists rest, s = p ++ rest.
Proof.
  revert s. induction p as [|a p IH]; intros s.
  - split; [intros _; exists s; reflexivity|].
    intros _. destruct s; reflexivity.
  - destruct s as [|b s]; simpl.
    + split; [discriminate|]. intros [rest H].
      rewrite append_cons in H. discriminate H.
    + destruct (ascii_dec a b) as [->|Hab].
      * rewrite IH. split; intros [rest H]; exists rest.
        -- rewrite append_cons. f_equal. exact H.
        -- rewrite append_cons in H. injection H as H. exact H.
      * split; [discriminate|]. intros [rest H].
        rewrite append_cons in H. injection H as H1 H2. congruence.
Qed.

Lemma includes_iff_append (s sub : string) :
  includes s sub = true <-> exists before after, s = before ++ sub ++ after.
Proof.
  induction s as [|c s IH]; cbn [includes].
  - rewrite orb_false_r, prefix_iff_append. split.
    + intros [rest H]. exists "", rest. exact H.
    + intros (before & after & H). destruct before as [|b before].
      * rewrite append_nil in H. eauto.
      * rewrite append_cons in H. discriminate H.
  - rewrite orb_true_iff, IH, prefix_iff_append. split.
    + intros [[rest H]|(before & after & H)].
      * exists "", rest. exact H.
      * exists (String c before), after. rewrite append_cons. f_equal. exact H.
    + intros (before & after & H). destruct before as [|b before].
      * left. exists after. exact H.
      * right. rewrite append_cons in H. injection H as _ H. eauto.
Qed.

Lemma toLowerCase_append (a b : string) :
  toLowerCase (a ++ b) = toLowerCase a ++ toLowerCase b.
Proof.
  induction a as [|c a IH]; [reflexivity|].
  rewrite append_cons. simpl. rewrite append_cons. f_equal. exact IH.
Qed.

Lemma toLowerCase_length (s : string) :
  String.length (toLowerCase s) = String.length s.
Proof. induction s as [|c s IH]; simpl; [reflexivity|]. f_equal. exact IH. Qed.

Lemma string_length_append (a b : string) :
  String.length (a ++ b) = (String.length a + String.length b)%nat.
Proof.
  induction a as [|c a IH]; [reflexivity|].
  rewrite append_cons. simpl. f_equal. exact IH.
Qed.

Lemma string_append_assoc (a b c : string) :
  (a ++ b) ++ c = a ++ (b ++ c).
Proof.
  induction a as [|x a IH]; [reflexivity|].
  rewrite !append_cons. f_equal. exact IH.
Qed.

Lemma prefix_longer (p s : string) :
  (String.length s < String.length p)%nat -> String.prefix p s = false.
Proof.
  intros Hlen. destruct (String.prefix p s) eqn:Hp; [|reflexivity].
  apply prefix_iff_append in Hp as [rest ->].
  rewrite string_length_append in Hlen. lia.
Qed.

End StringFacts.

Section MatchesCalldata.
Import Decoder.

Lemma matchesCalldata_string (rawData needle selector : string) :
  selector <> "" ->
  matchesCalldata (JsString rawData) needle selector
  = startsWith (toLowerCase rawData) selector
    && includes (toLowerCase rawData) (toLowerCase needle).
Proof.
  intros Hsel. unfold matchesCalldata, truthy_string.
  destruct (String.eqb_spec rawData "") as [->|Hraw]; simpl.
  - destruct selector; [congruence|reflexivity].
  - destruct (startsWith _ _); reflexivity.
Qed.

(** C5, at the selector of [matchOrders] written with a capital digit and
    calldata made of that selector followed by bytes that contain the
    needle: the first four bytes of the calldata are the selector and its
    lowercase form contains the needle, yet [matchesCalldata] is false,
    because the calldata is lowered before it is compared and the selector
    is not. *)
Lemma C5_capital_selector_is_not_matched :
  String.length "0x2287E350" = 10%nat
  /\ startsWith ("0x2287E350" ++ "0000" ++ "557bed924a1bb6f62842c5742d1dc789b8d480d4" ++ "00")
                "0x2287E350" = true
  /\ includes
       (toLowerCase
          ("0x2287E350" ++ "0000" ++ "557bed924a1bb6f62842c5742d1dc789b8d480d4" ++ "00"))
       "557bed924a1bb6f62842c5742d1dc789b8d480d4" = true
  /\ matchesCalldata
       (JsString
          ("0x2287E350" ++ "0000" ++ "557bed924a1bb6f62842c5742d1dc789b8d480d4" ++ "00"))
       "557bed924a1bb6f62842c5742d1dc789b8d480d4" "0x2287E350" = false.
Proof. repeat split. Qed.

(** C5, amended: [matchesCalldata(raw, needle, selector)], for a selector
    of four bytes (["0x"] and eight hexadecimal digits, ten characters),
    is false for every input that is not a string, for every string shorter
    than four bytes and for every string whose lowercase form does not
    start with the selector as it is given; it is true exactly when [raw]
    is a string whose lowercase form starts with the selector as given and
    contains the needle (compared in lowercase); so for a selector written
    in lowercase, as [MATCH_SELECTOR] is, it is true for every string made
    of the selector followed by anything that contains the needle. *)
Theorem C5_matchesCalldata_characterised (needle selector : string) :
  String.length selector = 10%nat ->
  (forall v, (forall s, v <> JsString s) ->
             matchesCalldata v needle selector = false)
  /\ (forall raw, (String.length raw < 10)%nat ->
                  matchesCalldata (JsString raw) needle selector = false)
  /\ (forall raw, startsWith (toLowerCase raw) selector = false ->
                  matchesCalldata (JsString raw) needle selector = false)
  /\ (forall v, matchesCalldata v needle selector = true
                <-> exists raw,
                    v = JsString raw
                    /\ (exists rest, toLowerCase raw = selector ++ rest)
                    /\ (exists before after,
                           toLowerCase raw
                           = before ++ toLowerCase needle ++ after))
  /\ (forall before after,
         toLowerCase selector = selector ->
         matchesCalldata (JsString (selector ++ before ++ needle ++ after))
                         needle selector = true).
Proof.
  intros Hlen.
  assert (selector <> "") as Hsel by (intros ->; discriminate Hlen).
  assert (forall v, matchesCalldata v needle selector = true
                <-> exists raw,
                    v = JsString raw
                    /\ (exists rest, toLowerCase raw = selector ++ rest)
                    /\ (exists before after,
                           toLowerCase raw
                           = before ++ toLowerCase needle ++ after)) as Hiff.
  { intros v. split.
    - destruct v as [| | | | |raw|]; try discriminate.
      rewrite (matchesCalldata_string _ _ _ Hsel), andb_true_iff.
      unfold startsWith. rewrite prefix_iff_append, includes_iff_append.
      intros [H1 H2]. exists raw. auto.
    - intros (raw & -> & H1 & H2).
      rewrite (matchesCalldata_string _ _ _ Hsel), andb_true_iff.
      unfold startsWith. rewrite prefix_iff_append, includes_iff_append. auto. }
  repeat split.
  - intros v Hv. destruct v; try reflexivity. exfalso. eapply Hv. reflexivity.
  - intros raw Hraw. rewrite (matchesCalldata_string _ _ _ Hsel).
    unfold startsWith. rewrite prefix_longer; [reflexivity|].
    rewrite toLowerCase_length. lia.
  - intros raw Hraw. rewrite (matchesCalldata_string _ _ _ Hsel), Hraw. reflexivity.
  - apply Hiff.
  - apply Hiff.
  - intros before after Hlow. apply Hiff. eexists. split; [reflexivity|].
    rewrite !toLowerCase_append, Hlow. split.
    + eexists. reflexivity.
    + exists (selector ++ toLowerCase before), (toLowerCase after).
      rewrite !string_append_assoc. reflexivity.
Qed.

(** C5 at the selector of [matchOrders] and the needle of the watched
    address, on calldata written with capital hexadecimal digits. *)
Lemma C5_witness :
  String.length MATCH_SELECTOR = 10%nat
  /\ matchesCalldata
       (JsString ("0x2287e350" ++ "0000" ++ "557BED924A1BB6F62842C5742D1DC789B8D480D4" ++ "00"))
       "557BED924A1BB6F62842C5742D1DC789B8D480D4" MATCH_SELECTOR = true.
Proof.
  split; [reflexivity|].
  apply (C5_matchesCalldata_characterised
           "557BED924A1BB6F62842C5742D1DC789B8D480D4" MATCH_SELECTOR);
    reflexivity.
Defined.

End MatchesCalldata.

(** ** Calldata decoder: fill attribution *)

Section FillFacts.
Import Decoder DecoderRef.

Lemma quot_is_floor (a b : Z) : 0 <= a -> 0 < b -> a ÷ b = a / b.
Proof. intros Ha Hb. apply Z.quot_div_nonneg; assumption. Qed.

(** What one maker leg adds to the two sums. *)
Lemma computeMakerFill_amounts (order : Order.t) (fill : Z) :
  nonneg_order order = true -> 0 <= fill ->
  default 0 (MakerFill.shares (computeMakerFill order fill)) = leg_shares order fill
  /\ default 0 (MakerFill.usdc (computeMakerFill order fill)) = leg_usdc order fill.
Proof.
  unfold nonneg_order, computeMakerFill, leg_shares, leg_usdc, derived_amount.
  destruct order as [mk sg tk ma ta side]. simpl.
  intros Hnn Hfill. apply andb_true_iff in Hnn as [Hma Hta].
  destruct ma as [ma|], ta as [ta|]; simpl in *.
  - destruct (Z.eqb_spec ma 0) as [->|Hma0]; simpl.
    + destruct side as [[|[]|]|]; split; reflexivity.
    + destruct (Z.eqb_spec ta 0) as [->|Hta0]; simpl.
      * rewrite Z.mul_0_r, Z.div_0_l by assumption.
        destruct side as [[|[]|]|]; split; reflexivity.
      * rewrite bool_decide_eq_false_2 by congruence. simpl.
        assert (0 < ma) by lia. assert (0 <= fill * ta) by nia.
        destruct side as [[|[]|]|]; simpl; split;
          try reflexivity; apply quot_is_floor; assumption.
  - destruct (Z.eqb_spec ma 0) as [->|Hma0]; simpl;
      [|rewrite Z.mul_0_r, Z.div_0_l by assumption];
      destruct side as [[|[]|]|]; split; reflexivity.
  - destruct side as [[|[]|]|]; split; reflexivity.
  - destruct side as [[|[]|]|]; split; reflexivity.
Qed.

Lemma maker_loop_body_Some fills acc entry fill :
  fills !! snd entry = Some fill ->
  maker_loop_body fills acc entry
  = (fst acc + default 0 (MakerFill.shares (computeMakerFill (fst entry) fill)),
     snd acc + default 0 (MakerFill.usdc (computeMakerFill (fst entry) fill))).
Proof.
  intros H. unfold maker_loop_body. rewrite H. simpl.
  destruct (MakerFill.shares _), (MakerFill.usdc _); simpl;
    rewrite ?Z.add_0_r; reflexivity.
Qed.

Lemma maker_loop_body_None fills acc entry :
  fills !! snd entry = None -> maker_loop_body fills acc entry = acc.
Proof. intros H. unfold maker_loop_body. rewrite H. reflexivity. Qed.

Lemma leg_matches_selected target order idx :
  leg_matches (toLowerCase target) (order, idx) = maker_or_signer_is target order.
Proof. reflexivity. Qed.

Lemma sum_legs_nil_fills selected amount orders :
  sum_legs selected amount orders [] = 0.
Proof. unfold sum_legs. destruct orders; reflexivity. Qed.

Lemma sum_legs_cons selected amount order orders fill fills :
  sum_legs selected amount (order :: orders) (fill :: fills)
  = (if selected order then amount order fill else 0)
    + sum_legs selected amount orders fills.
Proof. reflexivity. Qed.

(** The loop over [makerMatches] computes the two sums over the legs whose
    maker or signer is the target. *)
Lemma maker_loop_sums target fills orders :
  forallb (fun fill => 0 <=? fill) fills = true ->
  forall k acc,
    forallb nonneg_order orders = true ->
    fold_left (maker_loop_body fills)
              (List.filter (leg_matches (toLowerCase target))
                           (imap (fun idx order => (order, (k + idx)%nat)) orders))
              acc
    = (fst acc + sum_legs (maker_or_signer_is target) leg_shares orders (drop k fills),
       snd acc + sum_legs (maker_or_signer_is target) leg_usdc orders (drop k fills)).
Proof.
  intros Hfills. induction orders as [|order orders IH]; intros k acc Hnn.
  - simpl. unfold sum_legs. simpl. rewrite !Z.add_0_r. destruct acc; reflexivity.
  - simpl in Hnn. apply andb_true_iff in Hnn as [Hnn Hrest].
    cbn [imap List.filter].
    rewrite (imap_ext _ (fun idx order => (order, (S k + idx)%nat)))
      by (intros; simpl; f_equal; lia).
    rewrite leg_matches_selected, Nat.add_0_r.
    destruct (fills !! k) as [fill|] eqn:Hk.
    + rewrite (drop_S _ _ _ Hk), !sum_legs_cons.
      assert (0 <= fill) as Hfill.
      { rewrite forallb_forall in Hfills. apply Z.leb_le, Hfills.
        apply list_elem_of_In. eapply list_elem_of_lookup_2. exact Hk. }
      destruct (maker_or_signer_is target order).
      * cbn [fold_left]. rewrite IH by assumption.
        rewrite (maker_loop_body_Some _ _ _ fill) by exact Hk. simpl fst. simpl snd.
        destruct (computeMakerFill_amounts order fill Hnn Hfill) as [-> ->].
        f_equal; lia.
      * rewrite IH by assumption. f_equal; lia.
    + apply lookup_ge_None in Hk.
      rewrite (drop_ge fills k) by lia. rewrite !sum_legs_nil_fills.
      assert (forall l a,
                 Forall (fun entry => (k <= snd entry)%nat) l ->
                 fold_left (maker_loop_body fills) l a = a) as Hskip.
      { induction l as [|e l IHl]; intros a Hl; [reflexivity|].
        inversion Hl; subst. cbn [fold_left].
        rewrite maker_loop_body_None; [apply IHl; assumption|].
        apply lookup_ge_None. lia. }
      assert (forall l j,
                 Forall (fun entry : Order.t * nat => (k <= snd entry)%nat)
                        (List.filter (leg_matches (toLowerCase target))
                           (imap (fun idx order => (order, (j + k + idx)%nat)) l)))
        as Hall.
      { induction l as [|o l IHl]; intros j; [constructor|].
        cbn [imap List.filter].
        rewrite (imap_ext _ (fun idx order => (order, (S j + k + idx)%nat)))
          by (intros; simpl; f_equal; lia).
        destruct (leg_matches _ _); [constructor; [simpl; lia|]|]; apply IHl. }
      destruct (maker_or_signer_is target order); cbn [fold_left].
      * rewrite maker_loop_body_None by (apply lookup_ge_None; simpl; lia).
        rewrite Hskip; [destruct acc; simpl; f_equal; lia|].
        rewrite (imap_ext _ (fun idx order => (order, (1 + k + idx)%nat)))
          by (intros; simpl; f_equal; lia).
        apply Hall.
      * rewrite Hskip; [destruct acc; simpl; f_equal; lia|].
        rewrite (imap_ext _ (fun idx order => (order, (1 + k + idx)%nat)))
          by (intros; simpl; f_equal; lia).
        apply Hall.
Qed.

End FillFacts.

Section FillClaims.
Import Decoder DecoderRef Examples.

(** The MAKER branch of [computeFillForTarget]: each reported field is the
    sum over the legs of the target, reported when positive. *)
Lemma computeFillForTarget_maker decoded a target r :
  MatchDecoded.args decoded = Some a ->
  unsigned_amounts a = true ->
  computeFillForTarget (Some decoded) target = Some r ->
  FillBreakdown.role r = Role.MAKER ->
  FillBreakdown.shares r
  = report (sum_legs (maker_or_signer_is target) leg_shares
                     (MatchArgs.makerOrders a) (MatchArgs.makerFillAmounts a))
  /\ FillBreakdown.usdc r
     = report (sum_legs (maker_or_signer_is target) leg_usdc
                        (MatchArgs.makerOrders a) (MatchArgs.makerFillAmounts a)).
Proof.
  intros Hargs Hun. unfold unsigned_amounts in Hun.
  apply andb_true_iff in Hun as [Hun Hfills].
  apply andb_true_iff in Hun as [Hun _].
  apply andb_true_iff in Hun as [Hun _].
  apply andb_true_iff in Hun as [_ Horders].
  unfold computeFillForTarget. rewrite Hargs.
  destruct (negb _); [discriminate|]. simpl.
  destruct (lower_is _ _ || lower_is _ _).
  { destruct (side_of _); intros [= <-]; discriminate. }
  destruct (0 <? _)%nat; [|intros [= <-]; discriminate].
  pose proof (maker_loop_sums target _ _ Hfills 0%nat (0, 0) Horders) as Hsum.
  rewrite drop_0 in Hsum. simpl in Hsum. rewrite Hsum.
  intros [= <-] _. simpl. unfold report.
  split; destruct (0 <? _); reflexivity.
Qed.

(** C2, at a call with two maker legs of the target, one of them placed
    through a proxy whose signer is the target: the role is MAKER and the
    reported amounts, 700 and 210, include the proxy leg, while the sums
    over the legs whose maker field is the target are 500 and 150. *)
Lemma C2_signer_leg_is_summed :
  exists a r,
    MatchDecoded.args proxy_leg_call = Some a
    /\ unsigned_amounts a = true
    /\ computeFillForTarget (Some proxy_leg_call) target = Some r
    /\ FillBreakdown.role r = Role.MAKER
    /\ FillBreakdown.shares r = Some "700"
    /\ FillBreakdown.usdc r = Some "210"
    /\ report (sum_legs (maker_is target) leg_shares
                        (MatchArgs.makerOrders a) (MatchArgs.makerFillAmounts a))
       = Some "500"
    /\ report (sum_legs (maker_is target) leg_usdc
                        (MatchArgs.makerOrders a) (MatchArgs.makerFillAmounts a))
       = Some "150".
Proof. do 2 eexists. vm_compute. repeat split. Qed.

(** C2, amended: for every decoded matchOrders call with unsigned amounts
    and every target address where the role is MAKER,
    [computeFillForTarget] sums, over exactly the maker legs whose maker
    field or signer field equals the target (letter case ignored), the fill
    at each such leg's index of makerFillAmounts: a BUY leg adds the fill to
    usdc and floor(fill*takerAmount/makerAmount) to shares, a SELL leg adds
    the fill to shares and floor(fill*takerAmount/makerAmount) to usdc; a
    sum is reported as its decimal string when it is positive. In
    particular a single matching SELL leg with makerAmount=1000,
    takerAmount=300, fill=500 yields shares="500" and usdc="150". *)
Theorem C2_maker_fill_is_sum_over_target_legs :
  (forall decoded a target r,
      MatchDecoded.args decoded = Some a ->
      unsigned_amounts a = true ->
      computeFillForTarget (Some decoded) target = Some r ->
      FillBreakdown.role r = Role.MAKER ->
      FillBreakdown.shares r
      = report (sum_legs (maker_or_signer_is target) leg_shares
                         (MatchArgs.makerOrders a) (MatchArgs.makerFillAmounts a))
      /\ FillBreakdown.usdc r
         = report (sum_legs (maker_or_signer_is target) leg_usdc
                            (MatchArgs.makerOrders a) (MatchArgs.makerFillAmounts a)))
  /\ computeFillForTarget (Some maker_sell_call) target
     = Some {| FillBreakdown.role := Role.MAKER;
               FillBreakdown.side := BUY;
               FillBreakdown.tokenId := Some "77";
               FillBreakdown.shares := Some "500";
               FillBreakdown.usdc := Some "150" |}.
Proof.
  split; [|vm_compute; reflexivity].
  intros decoded a target r. apply computeFillForTarget_maker.
Qed.

(** C2 at the call with the proxy leg. *)
Lemma C2_witness :
  exists a r,
    MatchDecoded.args proxy_leg_call = Some a
    /\ unsigned_amounts a = true
    /\ computeFillForTarget (Some proxy_leg_call) target = Some r
    /\ FillBreakdown.role r = Role.MAKER
    /\ FillBreakdown.shares r
       = report (sum_legs (maker_or_signer_is target) leg_shares
                          (MatchArgs.makerOrders a) (MatchArgs.makerFillAmounts a))
    /\ FillBreakdown.usdc r
       = report (sum_legs (maker_or_signer_is target) leg_usdc
                          (MatchArgs.makerOrders a) (MatchArgs.makerFillAmounts a)).
Proof.
  do 2 eexists.
  split; [reflexivity|]. split; [reflexivity|].
  split; [vm_compute; reflexivity|]. split; [reflexivity|].
  eapply (proj1 C2_maker_fill_is_sum_over_target_legs proxy_leg_call);
    reflexivity.
Defined.

Lemma sum_legs_all_zero selected amount orders :
  forall fills,
    (forall i order fill,
        orders !! i = Some order -> fills !! i = Some fill ->
        selected order = true -> amount order fill = 0) ->
    sum_legs selected amount orders fills = 0.
Proof.
  induction orders as [|order orders IH]; intros fills H; [reflexivity|].
  destruct fills as [|fill fills]; [reflexivity|].
  rewrite sum_legs_cons, IH.
  - destruct (selected order) eqn:Hsel; [|reflexivity].
    rewrite (H 0%nat order fill); auto.
  - intros i o f Ho Hf. apply (H (S i)); assumption.
Qed.

Lemma report_zero : report 0 = None.
Proof. reflexivity. Qed.

(** C10: for every decoded matchOrders call with unsigned amounts where the
    role is MAKER, a field whose sum over the legs of the target is exactly
    zero is reported as undefined, not as the string "0"; this is so for
    both fields when every fill of a leg of the target is 0. *)
Theorem C10_zero_maker_sum_is_undefined decoded a target r :
  MatchDecoded.args decoded = Some a ->
  unsigned_amounts a = true ->
  computeFillForTarget (Some decoded) target = Some r ->
  FillBreakdown.role r = Role.MAKER ->
  (sum_legs (maker_or_signer_is target) leg_shares
            (MatchArgs.makerOrders a) (MatchArgs.makerFillAmounts a) = 0 ->
   FillBreakdown.shares r = None /\ FillBreakdown.shares r <> Some "0")
  /\ (sum_legs (maker_or_signer_is target) leg_usdc
               (MatchArgs.makerOrders a) (MatchArgs.makerFillAmounts a) = 0 ->
      FillBreakdown.usdc r = None /\ FillBreakdown.usdc r <> Some "0")
  /\ ((forall i order fill,
          MatchArgs.makerOrders a !! i = Some order ->
          MatchArgs.makerFillAmounts a !! i = Some fill ->
          maker_or_signer_is target order = true -> fill = 0) ->
      FillBreakdown.shares r = None /\ FillBreakdown.usdc r = None).
Proof.
  intros Hargs Hun Hr Hrole.
  destruct (computeFillForTarget_maker _ _ _ _ Hargs Hun Hr Hrole) as [Hs Hu].
  split; [|split].
  - intros H0. rewrite Hs, H0, report_zero. split; [reflexivity|discriminate].
  - intros H0. rewrite Hu, H0, report_zero. split; [reflexivity|discriminate].
  - intros Hz. rewrite Hs, Hu, !sum_legs_all_zero; [split; reflexivity| |].
    + intros i order fill Ho Hf Hsel. rewrite (Hz i order fill Ho Hf Hsel).
      unfold leg_usdc, derived_amount.
      destruct (Order.side order) as [[|[]|]|]; try reflexivity.
      destruct (_ =? 0); reflexivity.
    + intros i order fill Ho Hf Hsel. rewrite (Hz i order fill Ho Hf Hsel).
      unfold leg_shares, derived_amount.
      destruct (Order.side order) as [[|[]|]|]; try reflexivity.
      destruct (_ =? 0); reflexivity.
Qed.

(** C10 at the call whose only leg of the target is filled for 0. *)
Lemma C10_witness :
  exists a r,
    MatchDecoded.args zero_fill_call = Some a
    /\ unsigned_amounts a = true
    /\ computeFillForTarget (Some zero_fill_call) target = Some r
    /\ FillBreakdown.role r = Role.MAKER
    /\ sum_legs (maker_or_signer_is target) leg_shares
                (MatchArgs.makerOrders a) (MatchArgs.makerFillAmounts a) = 0
    /\ FillBreakdown.shares r = None
    /\ FillBreakdown.shares r <> Some "0".
Proof.
  do 2 eexists.
  split; [reflexivity|]. split; [reflexivity|].
  split; [vm_compute; reflexivity|]. split; [reflexivity|].
  split; [reflexivity|].
  eapply (proj1 (C10_zero_maker_sum_is_undefined zero_fill_call _ target _
                   eq_refl eq_refl eq_refl eq_refl)).
  reflexivity.
Defined.

End FillClaims.

Section TakerClaims.
Import Decoder DecoderRef Examples.




End TakerClaims.

(** ** Recency set of the mempool watcher *)

Section RecencySet.
Import Watcher WatcherRef.

Lemma HASH_CACHE_SIZE_pos : (0 < HASH_CACHE_SIZE)%nat.
Proof. unfold HASH_CACHE_SIZE. lia. Qed.

Lemma truthy_Some_nonempty (h : string) : h <> "" -> truthy (Some h) = true.
Proof.
  intros Hne. unfold truthy, truthy_string.
  destruct (String.eqb_spec h ""); [contradiction|reflexivity].
Qed.

Lemma coherent_make : coherent makeHashCache.
Proof.
  repeat split; simpl; try constructor. lia.
Qed.

(** A call of [seen] on a hash that is in the set answers true and leaves
    the state as it is. *)
Lemma seen_member c h :
  coherent c -> h ∈ HashCache.set c -> seen (Some h) c = (true, c).
Proof.
  intros (Hset & _ & Hne & _) Hin. unfold seen.
  assert (h <> "") as Hh.
  { rewrite Hset, elem_of_list_to_set in Hin.
    rewrite Forall_forall in Hne. apply Hne. exact Hin. }
  rewrite (truthy_Some_nonempty _ Hh). simpl.
  rewrite bool_decide_eq_true_2 by exact Hin. reflexivity.
Qed.

(** A call of [seen] on a new hash answers false, appends the hash and, on
    overflow, drops the oldest one. *)
Lemma seen_fresh c h :
  coherent c -> h <> "" -> h ∉ HashCache.deque c ->
  exists c',
    seen (Some h) c = (false, c')
    /\ HashCache.deque c'
       = drop (length (HashCache.deque c ++ [h]) - HASH_CACHE_SIZE)
              (HashCache.deque c ++ [h])%list
    /\ coherent c'.
Proof.
  intros (Hset & Hnd & Hne & Hlen) Hh Hnew. unfold seen.
  rewrite (truthy_Some_nonempty _ Hh). simpl.
  rewrite bool_decide_eq_false_2
    by (rewrite Hset, elem_of_list_to_set; exact Hnew).
  assert (NoDup (HashCache.deque c ++ [h])) as Hnd'.
  { apply NoDup_app. split; [exact Hnd|]. split.
    - intros x Hx Hx'. apply list_elem_of_singleton in Hx'. subst. contradiction.
    - apply NoDup_singleton. }
  assert (Forall (fun h => h <> "") (HashCache.deque c ++ [h])) as Hne'.
  { apply Forall_app. split; [exact Hne|]. constructor; [exact Hh|constructor]. }
  rewrite length_app in *. simpl length in *.
  destruct (Nat.ltb_spec HASH_CACHE_SIZE (length (HashCache.deque c) + 1)) as [Hov|Hok].
  - destruct (HashCache.deque c ++ [h])%list as [|oldest rest] eqn:Hd.
    { destruct (HashCache.deque c); discriminate Hd. }
    assert (length (oldest :: rest) = (length (HashCache.deque c) + 1)%nat) as Hl.
    { rewrite <- Hd, length_app. reflexivity. }
    replace (length (HashCache.deque c) + 1 - HASH_CACHE_SIZE)%nat with 1%nat by lia.
    inversion Hnd' as [|? ? Hold Hrest]; subst.
    inversion Hne' as [|? ? Hold_ne Hrest_ne]; subst.
    eexists. split; [reflexivity|]. split; [reflexivity|].
    unfold coherent. simpl.
    unfold truthy_string. destruct (String.eqb_spec oldest ""); [contradiction|].
    simpl. repeat split; try assumption.
    + apply set_eq. intros x.
      rewrite elem_of_difference, elem_of_union, Hset, !elem_of_list_to_set,
        elem_of_singleton.
      assert (x ∈ HashCache.deque c \/ x = h <-> x ∈ oldest :: rest) as Hiff.
      { rewrite <- Hd, elem_of_app, list_elem_of_singleton. reflexivity. }
      rewrite elem_of_singleton, Hiff, elem_of_cons. split.
      * intros [[->|Hx] Hxo]; [contradiction|exact Hx].
      * intros Hx. split; [right; exact Hx|]. intros ->. contradiction.
    + simpl in Hl. lia.
  - replace (length (HashCache.deque c) + 1 - HASH_CACHE_SIZE)%nat with 0%nat by lia.
    eexists. split; [reflexivity|]. split; [reflexivity|].
    unfold coherent. simpl. repeat split; try assumption.
    + rewrite Hset, list_to_set_app_L. simpl. rewrite union_empty_r_L.
      reflexivity.
    + rewrite length_app. simpl. lia.
Qed.

Lemma coherent_seen hash c : coherent c -> coherent (snd (seen hash c)).
Proof.
  intros Hc. destruct hash as [h|]; [|exact Hc].
  destruct (String.eqb_spec h "") as [->|Hh]; [exact Hc|].
  destruct (decide (h ∈ HashCache.set c)) as [Hin|Hnin].
  - rewrite (seen_member _ _ Hc Hin). exact Hc.
  - destruct (seen_fresh c h Hc Hh) as (c' & -> & _ & Hc'); [|exact Hc'].
    destruct Hc as (Hset & _). rewrite Hset, elem_of_list_to_set in Hnin.
    exact Hnin.
Qed.

Lemma reachable_coherent c : reachable c -> coherent c.
Proof.
  induction 1 as [|hash c _ IH]; [apply coherent_make|].
  apply coherent_seen. exact IH.
Qed.

(** Distinct new hashes are all answered false, and the array ends up
    holding the last [HASH_CACHE_SIZE] hashes in arrival order. *)
Lemma seen_all_fresh hashes :
  forall c,
    coherent c -> NoDup hashes -> Forall (fun h => h <> "") hashes ->
    (forall h, h ∈ hashes -> h ∉ HashCache.deque c) ->
    exists c',
      seen_all hashes c = (replicate (length hashes) false, c')
      /\ HashCache.deque c'
         = drop (length (HashCache.deque c ++ hashes) - HASH_CACHE_SIZE)
                (HashCache.deque c ++ hashes)%list
      /\ coherent c'.
Proof.
  induction hashes as [|h hashes IH]; intros c Hc Hnd Hne Hnew.
  - exists c. split; [reflexivity|]. split; [|exact Hc].
    rewrite app_nil_r. destruct Hc as (_ & _ & _ & Hlen).
    replace (length (HashCache.deque c) - HASH_CACHE_SIZE)%nat with 0%nat by lia.
    reflexivity.
  - inversion Hnd as [|? ? Hh Hnd']; subst.
    inversion Hne as [|? ? Hh_ne Hne']; subst.
    destruct (seen_fresh c h Hc Hh_ne) as (c1 & Hseen & Hd1 & Hc1).
    { apply Hnew. left. }
    destruct (IH c1 Hc1 Hnd' Hne') as (c2 & Hall & Hd2 & Hc2).
    { intros x Hx Hx1. rewrite Hd1 in Hx1.
      apply (subseteq_drop _ _ x) in Hx1. apply elem_of_app in Hx1 as [Hx1|Hx1].
      - apply (Hnew x); [right; exact Hx|exact Hx1].
      - apply list_elem_of_singleton in Hx1. subst. contradiction. }
    exists c2. split; [|split; [|exact Hc2]].
    + simpl. rewrite Hseen, Hall. reflexivity.
    + rewrite Hd2, Hd1.
      set (L := (HashCache.deque c ++ [h])%list).
      replace (HashCache.deque c ++ h :: hashes)%list with (L ++ hashes)%list
        by (unfold L; rewrite <- app_assoc; reflexivity).
      set (k := (length L - HASH_CACHE_SIZE)%nat).
      assert (k <= length L)%nat as Hk by (unfold k; lia).
      rewrite <- (drop_app_le L hashes k Hk), drop_drop.
      f_equal. rewrite length_drop. unfold k, L.
      rewrite !length_app. simpl. lia.
Qed.

(** C6: the recency set has capacity 1000 and evicts only the oldest entry
    on overflow: after capacity+1 distinct (non-empty) hashes went through
    [seen], each answered false, the set holds exactly the hashes after the
    first one; the first-inserted hash is not in the set, a [seen] call for
    it answers false and admits it again; every [seen] call for a hash that
    is in the set answers true and leaves the set as it is; the set never
    holds more than 1000 hashes. *)
Theorem C6_recency_set_evicts_oldest (hashes : list string) :
  length hashes = S HASH_CACHE_SIZE ->
  NoDup hashes ->
  Forall (fun h => h <> "") hashes ->
  HASH_CACHE_SIZE = 1000%nat
  /\ (exists first rest,
         hashes = first :: rest
         /\ fst (seen_all hashes makeHashCache) = replicate (length hashes) false
         /\ HashCache.deque (snd (seen_all hashes makeHashCache)) = rest
         /\ (forall h, (h ∈ HashCache.set (snd (seen_all hashes makeHashCache)))
                       <-> (h ∈ rest))
         /\ (first ∉ HashCache.set (snd (seen_all hashes makeHashCache)))
         /\ fst (seen (Some first) (snd (seen_all hashes makeHashCache))) = false
         /\ first ∈ HashCache.set
                      (snd (seen (Some first) (snd (seen_all hashes makeHashCache)))))
  /\ (forall c h,
         reachable c -> h ∈ HashCache.set c -> seen (Some h) c = (true, c))
  /\ (forall c,
         reachable c ->
         (length (HashCache.deque c) <= 1000)%nat
         /\ (size (HashCache.set c) <= 1000)%nat).
Proof.
  intros Hlen Hnd Hne. split; [reflexivity|]. split; [|split].
  - destruct hashes as [|first rest]; [discriminate Hlen|].
    exists first, rest. split; [reflexivity|].
    destruct (seen_all_fresh (first :: rest) makeHashCache coherent_make Hnd Hne)
      as (c & Hall & Hd & Hc).
    { intros h _ Hh. simpl in Hh. inversion Hh. }
    rewrite Hall. simpl fst. simpl snd.
    change (HashCache.deque makeHashCache ++ first :: rest)%list
      with (first :: rest) in Hd.
    rewrite Hlen in Hd.
    replace (S HASH_CACHE_SIZE - HASH_CACHE_SIZE)%nat with 1%nat in Hd by lia.
    simpl in Hd. rewrite drop_0 in Hd.
    apply NoDup_cons in Hnd as [Hfirst Hrest].
    apply Forall_cons in Hne as [Hfirst_ne Hrest_ne].
    assert (forall h, (h ∈ HashCache.set c) <-> (h ∈ rest)) as Hmem.
    { intros h. destruct Hc as (Hset & _).
      rewrite Hset, elem_of_list_to_set, Hd. reflexivity. }
    split; [reflexivity|]. split; [exact Hd|]. split; [exact Hmem|].
    split; [rewrite Hmem; exact Hfirst|].
    destruct (seen_fresh c first Hc Hfirst_ne) as (c' & Hseen & Hd' & Hc').
    { rewrite Hd. exact Hfirst. }
    rewrite Hseen. simpl. split; [reflexivity|].
    destruct Hc' as (Hset' & _). rewrite Hset', elem_of_list_to_set, Hd', Hd.
    simpl in Hlen. injection Hlen as Hlen.
    rewrite length_app, Hlen. simpl.
    replace (HASH_CACHE_SIZE + 1 - HASH_CACHE_SIZE)%nat with 1%nat by lia.
    pose proof HASH_CACHE_SIZE_pos as Hpos.
    destruct rest as [|x rest']; [simpl in Hlen; lia|].
    simpl. rewrite drop_0. apply elem_of_app. right. left.
  - intros c h Hr Hin. apply seen_member; [|exact Hin].
    apply reachable_coherent. exact Hr.
  - intros c Hr. apply reachable_coherent in Hr as (Hset & Hnd' & _ & Hl).
    change 1000%nat with HASH_CACHE_SIZE.
    split; [exact Hl|]. rewrite Hset, size_list_to_set by exact Hnd'. exact Hl.
Qed.

(** Distinct bigints have distinct decimal strings. *)
Lemma String_of_bigint_inj (a b : Z) :
  String_of_bigint a = String_of_bigint b -> a = b.
Proof.
  assert (forall z, Z.to_int z <> Decimal.Pos Decimal.Nil
                    /\ Z.to_int z <> Decimal.Neg Decimal.Nil) as Hnil.
  { intros [|p|p]; simpl; split; try discriminate;
      intros [= H]; exact (DecimalPos.Unsigned.to_uint_nonnil p H). }
  unfold String_of_bigint. intros H.
  apply DecimalZ.to_int_inj.
  apply (f_equal NilZero.int_of_string) in H.
  rewrite !NilZero.isi in H by apply Hnil.
  injection H as H. exact H.
Qed.

Lemma sample_hash_inj : Inj (=) (=) sample_hash.
Proof.
  intros n m H. unfold sample_hash in H.
  rewrite !append_cons, append_nil in H. injection H as H.
  apply String_of_bigint_inj in H. lia.
Qed.

(** C6 at 1001 distinct hashes. *)
Lemma C6_witness :
  exists first rest,
    sample_hashes = first :: rest
    /\ length sample_hashes = 1001%nat
    /\ HashCache.deque (snd (seen_all sample_hashes makeHashCache)) = rest
    /\ (first ∉ HashCache.set (snd (seen_all sample_hashes makeHashCache)))
    /\ fst (seen (Some first) (snd (seen_all sample_hashes makeHashCache))) = false.
Proof.
  assert (length sample_hashes = S HASH_CACHE_SIZE) as Hlen
    by (unfold sample_hashes; rewrite length_fmap, length_seq; reflexivity).
  assert (NoDup sample_hashes) as Hnd
    by (apply (@NoDup_fmap_2 _ _ sample_hash sample_hash_inj), NoDup_seq).
  assert (Forall (fun h => h <> "") sample_hashes) as Hne
    by (apply Forall_fmap, Forall_forall; intros n _ H; discriminate H).
  destruct (C6_recency_set_evicts_oldest sample_hashes Hlen Hnd Hne)
    as (_ & (first & rest & H1 & _ & H3 & _ & H5 & H6 & _) & _).
  exists first, rest.
  split; [exact H1|]. split; [exact Hlen|]. split; [exact H3|].
  split; [exact H5|exact H6].
Defined.

End RecencySet.

(** ** Single-flight TTL cache *)

Section TtlCacheFacts.
Import TtlCache.
Context {T : Type}.

(** After [get], the store holds no expired entry under the key, and
    whatever it holds there it held before. *)
Lemma get_store_lookup (now : float) (key : string) (c : TtlCache.t T) :
  store (snd (get now key c)) !! key
  = match store c !! key with
    | Some entry =>
        if (CacheEntry.expiresAt entry <=? now)%float then None else Some entry
    | None => None
    end.
Proof.
  unfold get. destruct (store c !! key) as [entry|] eqn:Hk; simpl.
  - destruct (_ <=? _)%float; simpl; [apply lookup_delete_eq|exact Hk].
  - exact Hk.
Qed.

Lemma get_inflight (now : float) (key : string) (c : TtlCache.t T) :
  inflight (snd (get now key c)) = inflight c.
Proof.
  unfold get. destruct (store c !! key) as [entry|]; [|reflexivity].
  destruct (_ <=? _)%float; reflexivity.
Qed.

Lemma get_Some (now : float) (key : string) (c : TtlCache.t T) (v : T) :
  fst (get now key c) = Some v ->
  exists entry,
    store c !! key = Some entry
    /\ CacheEntry.value entry = v
    /\ (CacheEntry.expiresAt entry <=? now)%float = false
    /\ snd (get now key c) = c.
Proof.
  unfold get. destruct (store c !! key) as [entry|]; [|discriminate].
  destruct (_ <=? _)%float eqn:Hexp; [discriminate|].
  intros [= <-]. exists entry. auto.
Qed.

(** A call that launches the producer found no entry and nothing in
    flight, and leaves its promise as the in-flight marker. *)
Lemma getOrSet_Launched now key fresh (c c1 : TtlCache.t T) p :
  getOrSet now key fresh c = (Launched p, c1) ->
  p = fresh
  /\ store c1 !! key = None
  /\ inflight c !! key = None
  /\ inflight c1 = <[key := fresh]> (inflight c).
Proof.
  unfold getOrSet, get.
  destruct (store c !! key) as [entry|] eqn:Hk.
  - destruct (_ <=? _)%float; [|discriminate]. simpl.
    destruct (inflight c !! key) as [pending|] eqn:Hp; [discriminate|].
    intros [= <- <-]. simpl. repeat split. apply lookup_delete_eq.
  - simpl. destruct (inflight c !! key) as [pending|] eqn:Hp; [discriminate|].
    intros [= <- <-]. simpl. repeat split. exact Hk.
Qed.

(** With no entry and nothing in flight under the key, a call launches the
    producer. *)
Lemma getOrSet_launches now key fresh (c : TtlCache.t T) :
  store c !! key = None -> inflight c !! key = None ->
  getOrSet now key fresh c
  = (Launched fresh,
     {| store := store c; inflight := <[key := fresh]> (inflight c) |}).
Proof.
  intros Hs Hi. unfold getOrSet, get. rewrite Hs. simpl. rewrite Hi. reflexivity.
Qed.

End TtlCacheFacts.

Section TtlCacheClaims.
Import TtlCache CacheExamples.

(** C7: in the single-flight TTL cache, when a [getOrSet] call has launched
    the producer and the producer fails, the in-flight marker is removed
    and the error is propagated, nothing is stored, and the next [getOrSet]
    call for the same key launches the producer again (while the producer
    was still pending, a call for the key received the pending promise);
    and a [get] on a key whose entry has expired returns absent and removes
    the entry, so that a value returned by [get] is never that of an
    expired entry. *)
Theorem C7_failed_producer_retried_and_expired_purged :
  (forall (T : Type) (c c1 : TtlCache.t T) now key fresh p err,
      getOrSet now key fresh c = (Launched p, c1) ->
      inflight c1 !! key = Some p
      /\ (forall now' fresh', getOrSet now' key fresh' c1 = (Pending p, c1))
      /\ fst (producer_rejected key err c1) = Throw err
      /\ inflight (snd (producer_rejected key err c1)) !! key = None
      /\ store (snd (producer_rejected key err c1)) = store c1
      /\ (forall now' fresh',
             exists c3,
               getOrSet now' key fresh' (snd (producer_rejected key err c1))
               = (Launched fresh', c3)))
  /\ (forall (T : Type) (c : TtlCache.t T) now key entry,
         store c !! key = Some entry ->
         (CacheEntry.expiresAt entry <=? now)%float = true ->
         get now key c
         = (None, {| store := delete key (store c); inflight := inflight c |})
         /\ store (snd (get now key c)) !! key = None)
  /\ (forall (T : Type) (c : TtlCache.t T) now key v,
         fst (get now key c) = Some v ->
         exists entry,
           store c !! key = Some entry
           /\ CacheEntry.value entry = v
           /\ (CacheEntry.expiresAt entry <=? now)%float = false).
Proof.
  split; [|split].
  - intros T c c1 now key fresh p err Hcall.
    destruct (getOrSet_Launched _ _ _ _ _ _ Hcall) as (-> & Hstore & Hnone & Hin).
    assert (inflight c1 !! key = Some fresh) as Hmark
      by (rewrite Hin; apply lookup_insert_eq).
    split; [exact Hmark|]. split.
    { intros now' fresh'. unfold getOrSet, get. rewrite Hstore. simpl.
      rewrite Hmark. reflexivity. }
    unfold producer_rejected. simpl.
    split; [reflexivity|]. split; [apply lookup_delete_eq|].
    split; [reflexivity|].
    intros now' fresh'. eexists. apply getOrSet_launches; simpl.
    + exact Hstore.
    + apply lookup_delete_eq.
  - intros T c now key entry Hk Hexp. unfold get. rewrite Hk, Hexp.
    split; [reflexivity|]. simpl. apply lookup_delete_eq.
  - intros T c now key v Hv.
    destruct (get_Some _ _ _ _ Hv) as (entry & H1 & H2 & H3 & _). eauto.
Qed.

(** C7 on the cache whose entry for the key expired at time 1000: at time
    2000 the entry is purged and the producer is launched; once it has
    failed, a call at time 2001 launches it again. *)
Lemma C7_witness :
  exists c1,
    getOrSet 2000 "market:77" 1%nat stale_cache = (Launched 1%nat, c1)
    /\ store c1 !! "market:77" = None
    /\ inflight c1 !! "market:77" = Some 1%nat
    /\ fst (producer_rejected "market:77" (Error "timeout") c1)
       = Throw (Error "timeout")
    /\ exists c3,
        getOrSet 2001 "market:77" 2%nat
                 (snd (producer_rejected "market:77" (Error "timeout") c1))
        = (Launched 2%nat, c3).
Proof.
  eexists.
  assert (getOrSet 2000 "market:77" 1%nat stale_cache
          = (Launched 1%nat,
             {| store := delete "market:77" (store stale_cache);
                inflight := <["market:77" := 1%nat]> ∅ |})) as Hcall
    by reflexivity.
  split; [exact Hcall|].
  destruct (proj1 C7_failed_producer_retried_and_expired_purged
                  _ _ _ _ _ _ _ (Error "timeout") Hcall)
    as (Hmark & _ & Hthrow & _ & _ & Hretry).
  split; [apply lookup_delete_eq|]. split; [exact Hmark|].
  split; [exact Hthrow|]. exact (Hretry 2001%float 2%nat).
Defined.

End TtlCacheClaims.

(** ** Order placer *)

Section PlacerClaims.
Import Placer PlacerExamples.
Variables Wallet SignedOrder : Type.
Variable new_Wallet : string -> completion Wallet.
Variable createMarketOrder :
  ClobClient Wallet -> UserMarketOrder.t -> completion SignedOrder.
Variable createOrder : ClobClient Wallet -> UserOrder.t -> completion SignedOrder.
Variable postOrder :
  ClobClient Wallet -> SignedOrder -> OrderType.t -> completion JsValue.

Lemma truthy_default (v : option string) :
  truthy_string (default "" v) = truthy v.
Proof. destruct v; reflexivity. Qed.

(** A placer that was created is enabled exactly when the configuration is
    not simulate-only and has credentials, and then it holds a client. *)
Lemma createCopyPlacer_enabled cfg tr0 p tr1 :
  createCopyPlacer (SignedOrder:=SignedOrder) new_Wallet cfg tr0 = (Return p, tr1) ->
  config p = cfg
  /\ enabled p = negb (AppConfig.copySimulateOnly cfg) && has_credentials cfg
  /\ (enabled p = true -> exists c, client p = Some c).
Proof.
  unfold createCopyPlacer, has_credentials, bind, ret, emit.
  destruct (truthy (AppConfig.privateKey cfg)); simpl.
  - destruct (new_Wallet _) as [w|e]; simpl; [|discriminate].
    destruct (truthy (AppConfig.clobApiKey cfg)) eqn:Hk,
             (truthy (AppConfig.clobApiSecret cfg)) eqn:Hs,
             (truthy (AppConfig.clobApiPassphrase cfg)) eqn:Hp,
             (AppConfig.copySimulateOnly cfg); simpl;
      rewrite ?truthy_default, ?Hk, ?Hs, ?Hp; simpl;
      intros [= <- _]; simpl; repeat split; try discriminate; eauto.
  - rewrite !andb_false_r. simpl. intros [= <- _]. simpl.
    repeat split. discriminate.
Qed.

(** The outcomes of the [try] block: a skip before any call, a failed
    order creation, a failed submission, or the venue's response. *)
Lemma submit_cases (p : Placer Wallet) (c : ClobClient Wallet) intent tr :
  let orderType := toOrderType (AppConfig.copyOrderType (config p)) in
  (exists reason,
      submit createMarketOrder createOrder postOrder p c intent tr
      = (Return (inl (skipped intent reason)), tr))
  \/ (exists ev err,
         create_result createMarketOrder createOrder c ev = Some (Throw err)
         /\ submit createMarketOrder createOrder postOrder p c intent tr
            = (Throw err, tr ++ [ev])%list)
  \/ (exists ev order err,
         create_result createMarketOrder createOrder c ev = Some (Return order)
         /\ postOrder c order orderType = Throw err
         /\ submit createMarketOrder createOrder postOrder p c intent tr
            = (Throw err, (tr ++ [ev]) ++ [CallPostOrder order orderType])%list)
  \/ (exists ev order res,
         create_result createMarketOrder createOrder c ev = Some (Return order)
         /\ postOrder c order orderType = Return res
         /\ submit createMarketOrder createOrder postOrder p c intent tr
            = (Return (inr res),
               (tr ++ [ev]) ++ [CallPostOrder order orderType])%list).
Proof.
  intros orderType. unfold submit. fold orderType.
  assert (forall ev (r : completion SignedOrder),
             create_result createMarketOrder createOrder c ev = Some r ->
             let m := bind (lift ev r)
                        (fun order =>
                           bind (lift (CallPostOrder order orderType)
                                      (postOrder c order orderType))
                                (fun res => ret (inr res))) in
             (exists ev err,
                 create_result createMarketOrder createOrder c ev = Some (Throw err)
                 /\ m tr = (Throw err, tr ++ [ev])%list)
             \/ (exists ev order err,
                    create_result createMarketOrder createOrder c ev
                    = Some (Return order)
                    /\ postOrder c order orderType = Throw err
                    /\ m tr = (Throw err,
                               (tr ++ [ev]) ++ [CallPostOrder order orderType])%list)
             \/ (exists ev order res,
                    create_result createMarketOrder createOrder c ev
                    = Some (Return order)
                    /\ postOrder c order orderType = Return res
                    /\ m tr = (Return (inr res : PlaceResult + JsValue),
                               (tr ++ [ev]) ++ [CallPostOrder order orderType])%list))
    as Hcalls.
  { intros ev r Hev m. subst m. unfold bind, lift, ret.
    destruct r as [order|err].
    - destruct (postOrder c order orderType) as [res|err] eqn:Hpost.
      + right. right. exists ev, order, res. auto.
      + right. left. exists ev, order, err. auto.
    - left. exists ev, err. auto. }
  destruct (match orderType with
            | OrderType.FOK | OrderType.FAK => true
            | _ => false
            end).
  - destruct (CopyIntent.side intent).
    + destruct (_ <=? _)%float; [left; eexists; reflexivity|right].
      eapply (Hcalls (CallCreateMarketOrder _)). reflexivity.
    + destruct (_ <=? _)%float; [left; eexists; reflexivity|right].
      eapply (Hcalls (CallCreateMarketOrder _)). reflexivity.
  - destruct (_ || _); [left; eexists; reflexivity|right].
    eapply (Hcalls (CallCreateOrder _)). reflexivity.
Qed.

Lemma place_disabled (p : Placer Wallet) intent tr :
  enabled p = false ->
  place createMarketOrder createOrder postOrder p intent tr
  = (Return (simulated intent), (tr ++ [LogInfo "copy simulate"])%list).
Proof. intros H. unfold place. rewrite H. reflexivity. Qed.

Lemma place_enabled (p : Placer Wallet) (c : ClobClient Wallet) intent tr :
  enabled p = true -> client p = Some c ->
  place createMarketOrder createOrder postOrder p intent tr
  = match submit createMarketOrder createOrder postOrder p c intent tr with
    | (Return (inl early), tr1) => (Return early, tr1)
    | (Return (inr res), tr1) =>
        (Return (posted intent (nullish_or (optional_get res "orderId") res)),
         (tr1 ++ [LogInfo "copy posted"])%list)
    | (Throw err, tr1) =>
        (Return (skipped intent (String_of_error err)),
         (tr1 ++ [LogWarn "copy placement failed"])%list)
    end.
Proof.
  intros Hon Hc. unfold place, try_, bind, emit, ret. rewrite Hon, Hc.
  destruct (submit _ _ _ _ _ _ _) as [[[early|res]|err] tr1]; reflexivity.
Qed.

(** C8: for a placer created from a configuration, [place(intent)] returns
    {simulated}, after a log line and without any call of the venue client,
    whenever the private key or one of the API credentials is absent or the
    simulate-only flag is set; otherwise it returns {skipped} without a call
    when the amount rounds to zero, {skipped, reason = the error text} when
    the order creation or the submission throws, and {posted} with the
    venue's order id (the response's [orderId], or the response itself when
    it has none) when the submission succeeds; it never throws. *)
Theorem C8_place_outcomes (cfg : AppConfig.t) (p : Placer Wallet)
    (tr0 tr1 : list (Event SignedOrder)) :
  createCopyPlacer new_Wallet cfg tr0 = (Return p, tr1) ->
  (AppConfig.copySimulateOnly cfg = true \/ has_credentials cfg = false ->
   forall intent tr,
     place createMarketOrder createOrder postOrder p intent tr
     = (Return (simulated intent), (tr ++ [LogInfo "copy simulate"])%list)
     /\ is_client_call (SignedOrder:=SignedOrder) (LogInfo "copy simulate") = false)
  /\ (AppConfig.copySimulateOnly cfg = false -> has_credentials cfg = true ->
      exists c,
        client p = Some c
        /\ forall intent tr,
            let orderType := toOrderType (AppConfig.copyOrderType cfg) in
            (exists reason,
                place createMarketOrder createOrder postOrder p intent tr
                = (Return (skipped intent reason), tr))
            \/ (exists ev err,
                   create_result createMarketOrder createOrder c ev
                   = Some (Throw err)
                   /\ place createMarketOrder createOrder postOrder p intent tr
                      = (Return (skipped intent (String_of_error err)),
                         ((tr ++ [ev]) ++ [LogWarn "copy placement failed"])%list))
            \/ (exists ev order err,
                   create_result createMarketOrder createOrder c ev
                   = Some (Return order)
                   /\ postOrder c order orderType = Throw err
                   /\ place createMarketOrder createOrder postOrder p intent tr
                      = (Return (skipped intent (String_of_error err)),
                         (((tr ++ [ev]) ++ [CallPostOrder order orderType])
                            ++ [LogWarn "copy placement failed"])%list))
            \/ (exists ev order res,
                   create_result createMarketOrder createOrder c ev
                   = Some (Return order)
                   /\ postOrder c order orderType = Return res
                   /\ place createMarketOrder createOrder postOrder p intent tr
                      = (Return (posted intent
                                   (nullish_or (optional_get res "orderId") res)),
                         (((tr ++ [ev]) ++ [CallPostOrder order orderType])
                            ++ [LogInfo "copy posted"])%list)))
  /\ (forall intent tr,
         exists r tr',
           place createMarketOrder createOrder postOrder p intent tr
           = (Return r, tr'))
  /\ (forall props id,
         lookup_prop "orderId" props = Some id ->
         id <> JsUndefined -> id <> JsNull ->
         nullish_or (optional_get (JsObject props) "orderId") (JsObject props) = id).
Proof.
  intros Hmk.
  destruct (createCopyPlacer_enabled _ _ _ _ Hmk) as (Hcfg & Hen & Hcl).
  assert (forall c, client p = Some c -> enabled p = true ->
            forall intent tr,
            let orderType := toOrderType (AppConfig.copyOrderType cfg) in
            (exists reason,
                place createMarketOrder createOrder postOrder p intent tr
                = (Return (skipped intent reason), tr))
            \/ (exists ev err,
                   create_result createMarketOrder createOrder c ev
                   = Some (Throw err)
                   /\ place createMarketOrder createOrder postOrder p intent tr
                      = (Return (skipped intent (String_of_error err)),
                         ((tr ++ [ev]) ++ [LogWarn "copy placement failed"])%list))
            \/ (exists ev order err,
                   create_result createMarketOrder createOrder c ev
                   = Some (Return order)
                   /\ postOrder c order orderType = Throw err
                   /\ place createMarketOrder createOrder postOrder p intent tr
                      = (Return (skipped intent (String_of_error err)),
                         (((tr ++ [ev]) ++ [CallPostOrder order orderType])
                            ++ [LogWarn "copy placement failed"])%list))
            \/ (exists ev order res,
                   create_result createMarketOrder createOrder c ev
                   = Some (Return order)
                   /\ postOrder c order orderType = Return res
                   /\ place createMarketOrder createOrder postOrder p intent tr
                      = (Return (posted intent
                                   (nullish_or (optional_get res "orderId") res)),
                         (((tr ++ [ev]) ++ [CallPostOrder order orderType])
                            ++ [LogInfo "copy posted"])%list))) as Hlive.
  { intros c Hc Hon intent tr orderType. rewrite (place_enabled _ _ _ _ Hon Hc).
    pose proof (submit_cases p c intent tr) as Hsub. rewrite Hcfg in Hsub.
    fold orderType in Hsub.
    destruct Hsub as [(reason & ->)
                     |[(ev & err & Hev & ->)
                      |[(ev & order & err & Hev & Hpost & ->)
                       |(ev & order & res & Hev & Hpost & ->)]]].
    - left. exists reason. reflexivity.
    - right. left. exists ev, err. split; [exact Hev|reflexivity].
    - right. right. left. exists ev, order, err.
      split; [exact Hev|]. split; [exact Hpost|reflexivity].
    - right. right. right. exists ev, order, res.
      split; [exact Hev|]. split; [exact Hpost|reflexivity]. }
  split; [|split; [|split]].
  - intros Hsim intent tr. split; [|reflexivity].
    apply place_disabled. rewrite Hen.
    destruct Hsim as [-> | ->]; [reflexivity|apply andb_false_r].
  - intros Hsim Hcreds.
    assert (enabled p = true) as Hon by (rewrite Hen, Hsim, Hcreds; reflexivity).
    destruct (Hcl Hon) as [c Hc]. exists c. split; [exact Hc|].
    apply Hlive; assumption.
  - intros intent tr. destruct (bool_dec (enabled p) true) as [Hon|Hon].
    + destruct (Hcl Hon) as [c Hc].
      destruct (Hlive c Hc Hon intent tr)
        as [(reason & ->)
           |[(ev & err & _ & ->)
            |[(ev & order & err & _ & _ & ->)
             |(ev & order & res & _ & _ & ->)]]]; eauto.
    + apply not_true_is_false in Hon. rewrite (place_disabled _ _ _ Hon). eauto.
  - intros props id Hid Hu Hn. simpl. rewrite Hid. simpl.
    destruct id; try reflexivity; contradiction.
Qed.

End PlacerClaims.

Section PlacerExample.
Import Placer PlacerExamples.

(** C8 on a venue that signs every order and rejects every submission: with
    credentials and not simulate-only, placing the example intent as a FAK
    order gives {skipped} with the text of the venue's error. *)
Lemma C8_witness :
  exists p,
    createCopyPlacer (SignedOrder:=string) wallet (live_config false FAK) []
    = (Return p, [])
    /\ exists ev order,
        place sign_market sign_limit reject p intent []
        = (Return (skipped intent "Error: not enough balance"),
           [ev; CallPostOrder order OrderType.FAK;
            LogWarn "copy placement failed"]).
Proof.
  eexists. split; [reflexivity|].
  destruct (C8_place_outcomes _ _ wallet sign_market sign_limit reject
              (live_config false FAK) _ [] [] eq_refl)
    as (_ & Hlive & _).
  destruct (Hlive eq_refl eq_refl) as (c & _ & Hplace).
  destruct (Hplace intent [])
    as [(reason & H)
       |[(ev & err & _ & H)
        |[(ev & order & err & _ & Hpost & H)
         |(ev & order & res & _ & Hpost & H)]]].
  - discriminate H.
  - discriminate H.
  - exists ev, order. injection Hpost as <-. exact H.
  - discriminate Hpost.
Defined.

End PlacerExample.

(** * Further properties *)

(** ** Calldata decoder: roles, precedence and bounds *)

Section DecoderMore.
Import Decoder DecoderRef RoleInference Examples.

Lemma lower_char_idempotent (c : ascii) : lower_char (lower_char c) = lower_char c.
Proof. destruct c as [[] [] [] [] [] [] [] []]; reflexivity. Qed.

Lemma toLowerCase_idempotent (s : string) : toLowerCase (toLowerCase s) = toLowerCase s.
Proof.
  induction s as [|c s IH]; simpl; [reflexivity|].
  rewrite lower_char_idempotent, IH. reflexivity.
Qed.

Lemma toLowerCase_empty (s : string) : toLowerCase s = "" <-> s = "".
Proof. destruct s; simpl; split; congruence. Qed.

(** Some maker leg is selected exactly when some order has the target as
    its maker or signer. *)
Lemma maker_matches_nonempty (target : string) (orders : list Order.t) :
  forall k,
    (0 <? length (List.filter (leg_matches target)
                              (imap (fun idx order => (order, (k + idx)%nat)) orders)))%nat
    = existsb (fun order => lower_is (Order.maker order) target
                            || lower_is (Order.signer order) target) orders.
Proof.
  induction orders as [|order orders IH]; intros k; [reflexivity|].
  cbn [imap List.filter existsb].
  rewrite (imap_ext _ (fun idx order => (order, (S k + idx)%nat)))
    by (intros; simpl; f_equal; lia).
  unfold leg_matches at 1. cbn [fst].
  destruct (lower_is (Order.maker order) target
            || lower_is (Order.signer order) target); [reflexivity|].
  apply IH.
Qed.

Lemma find_is_existsb {A : Type} (f : A -> bool) (l : list A) :
  match List.find f l with Some _ => true | None => false end = existsb f l.
Proof.
  induction l as [|x l IH]; [reflexivity|]. simpl.
  destruct (f x); [reflexivity|exact IH].
Qed.

Lemma existsb_maker_is_party (target : string) (orders : list Order.t) :
  existsb (maker_is target) orders = true ->
  existsb (maker_or_signer_is target) orders = true.
Proof.
  induction orders as [|order orders IH]; [discriminate|]. simpl.
  unfold maker_is at 1, maker_or_signer_is at 1.
  destruct (lower_is (Order.maker order) (toLowerCase target)); [reflexivity|].
  simpl. intros H. rewrite (IH H). apply orb_true_r.
Qed.

(** [inferRoleAndSide] and [computeFillForTarget] return null on the same
    inputs and report the same side and token id. Both report TAKER
    exactly when the target is maker or signer of the taker order; failing
    that, [inferRoleAndSide] reports MAKER when the target is the maker of
    a maker order, [computeFillForTarget] when it is the maker or the
    signer of one. So the two roles differ exactly when the target has no
    part in the taker order, is the maker of no maker order and is the
    signer of one: then the former says UNKNOWN and the latter MAKER. *)
Theorem inferRoleAndSide_agrees_with_computeFillForTarget
    (decoded : option MatchDecoded.t) (target : string) :
  match inferRoleAndSide decoded target, computeFillForTarget decoded target with
  | None, None => True
  | Some i, Some r =>
      let args := decoded ≫= MatchDecoded.args in
      let takerOrder := default Order.empty (MatchArgs.takerOrder <$> args) in
      let makerOrders := default [] (MatchArgs.makerOrders <$> args) in
      let taker := maker_or_signer_is target takerOrder in
      let maker := existsb (maker_is target) makerOrders in
      let maker_or_signer := existsb (maker_or_signer_is target) makerOrders in
      RoleAndSide.side i = FillBreakdown.side r
      /\ RoleAndSide.tokenId i = FillBreakdown.tokenId r
      /\ RoleAndSide.role i
         = (if taker then Role.TAKER
            else if maker then Role.MAKER else Role.UNKNOWN)
      /\ FillBreakdown.role r
         = (if taker then Role.TAKER
            else if maker_or_signer then Role.MAKER else Role.UNKNOWN)
      /\ (RoleAndSide.role i <> FillBreakdown.role r
          <-> taker = false /\ maker = false /\ maker_or_signer = true)
      /\ (RoleAndSide.role i <> FillBreakdown.role r ->
          RoleAndSide.role i = Role.UNKNOWN /\ FillBreakdown.role r = Role.MAKER)
  | _, _ => False
  end.
Proof.
  unfold inferRoleAndSide, computeFillForTarget.
  destruct decoded as [decoded|]; [|exact I].
  destruct (negb _); [exact I|].
  cbn [mbind option_bind].
  set (args := MatchDecoded.args decoded).
  set (takerOrder := default Order.empty (MatchArgs.takerOrder <$> args)).
  set (makerOrders := default [] (MatchArgs.makerOrders <$> args)).
  cbv zeta.
  pose proof (maker_matches_nonempty (toLowerCase target) makerOrders 0) as Hlen.
  simpl in Hlen. rewrite Hlen. clear Hlen.
  pose proof (find_is_existsb
                (fun m => lower_is (Order.maker m) (toLowerCase target))
                makerOrders) as Hfind.
  pose proof (existsb_maker_is_party target makerOrders) as Hparty.
  unfold maker_or_signer_is, maker_is in *.
  destruct (lower_is (Order.maker takerOrder) (toLowerCase target)
            || lower_is (Order.signer takerOrder) (toLowerCase target)).
  - destruct (side_of _); simpl; repeat split; auto; intuition congruence.
  - destruct (List.find _ makerOrders) as [m|];
      destruct (existsb (fun order => lower_is (Order.maker order) (toLowerCase target))
                        makerOrders); try discriminate Hfind.
    + rewrite (Hparty eq_refl).
      destruct (fold_left _ _ _). simpl.
      repeat split; auto; intuition congruence.
    + destruct (existsb _ makerOrders).
      * destruct (fold_left _ _ _). simpl.
        repeat split; auto; intuition congruence.
      * simpl. repeat split; auto; intuition congruence.
Qed.

(** The breakdown of a call in which the target takes no part. *)
Lemma stranger_breakdown (a : MatchArgs.t) (target : string) :
  maker_or_signer_is target (MatchArgs.takerOrder a) = false ->
  forallb (fun order => negb (maker_or_signer_is target order))
          (MatchArgs.makerOrders a) = true ->
  computeFillForTarget
    (Some {| MatchDecoded.functionName := "matchOrders";
             MatchDecoded.args := Some a |}) target
  = Some {| FillBreakdown.role := Role.UNKNOWN;
            FillBreakdown.side := side_of (Order.side (MatchArgs.takerOrder a));
            FillBreakdown.tokenId :=
              if truthy_bigint (Order.tokenId (MatchArgs.takerOrder a))
              then String_of_bigint <$> Order.tokenId (MatchArgs.takerOrder a)
              else None;
            FillBreakdown.shares := None;
            FillBreakdown.usdc := None |}.
Proof.
  intros Htaker Hmakers. unfold computeFillForTarget. simpl.
  unfold maker_or_signer_is in Htaker. rewrite Htaker.
  pose proof (maker_matches_nonempty (toLowerCase target)
                                     (MatchArgs.makerOrders a) 0) as Hlen.
  simpl in Hlen. rewrite Hlen.
  assert (existsb (fun order =>
                     lower_is (Order.maker order) (toLowerCase target)
                     || lower_is (Order.signer order) (toLowerCase target))
                  (MatchArgs.makerOrders a) = false) as ->.
  { clear -Hmakers. induction (MatchArgs.makerOrders a) as [|o l IH];
      [reflexivity|].
    simpl in *. apply andb_true_iff in Hmakers as [Ho Hl].
    unfold maker_or_signer_is in Ho. apply negb_true_iff in Ho.
    rewrite Ho. simpl. apply IH. exact Hl. }
  reflexivity.
Qed.

(** When the target is neither maker nor signer of the taker leg or of any
    maker leg, [computeFillForTarget] reports the role UNKNOWN and no
    amounts at all. *)
Theorem computeFillForTarget_stranger_gets_nothing
    (functionName : string) (a : MatchArgs.t) (target : string) :
  functionName = "matchOrders" ->
  maker_or_signer_is target (MatchArgs.takerOrder a) = false ->
  forallb (fun order => negb (maker_or_signer_is target order))
          (MatchArgs.makerOrders a) = true ->
  exists r,
    computeFillForTarget
      (Some {| MatchDecoded.functionName := functionName;
               MatchDecoded.args := Some a |}) target = Some r
    /\ FillBreakdown.role r = Role.UNKNOWN
    /\ FillBreakdown.shares r = None
    /\ FillBreakdown.usdc r = None.
Proof.
  intros -> Htaker Hmakers.
  rewrite (stranger_breakdown a target Htaker Hmakers).
  eexists. split; [reflexivity|]. simpl. auto.
Qed.

(** A call in which the target takes no part. *)
Lemma computeFillForTarget_stranger_witness :
  exists r,
    computeFillForTarget (Some maker_sell_call) proxy = Some r
    /\ FillBreakdown.role r = Role.UNKNOWN
    /\ FillBreakdown.shares r = None
    /\ FillBreakdown.usdc r = None.
Proof.
  apply (computeFillForTarget_stranger_gets_nothing
           "matchOrders" _ proxy); reflexivity.
Defined.

(** When the target is maker or signer of the taker leg, the result of
    [computeFillForTarget] does not depend on the maker legs or on their
    fills: the maker legs of a taker are never added to its amounts. *)
Theorem computeFillForTarget_taker_ignores_maker_legs
    (functionName : string) (a : MatchArgs.t) (target : string)
    (makerOrders : list Order.t) (makerFillAmounts makerFeeAmounts : list Z) :
  maker_or_signer_is target (MatchArgs.takerOrder a) = true ->
  computeFillForTarget
    (Some {| MatchDecoded.functionName := functionName;
             MatchDecoded.args := Some a |}) target
  = computeFillForTarget
      (Some {| MatchDecoded.functionName := functionName;
               MatchDecoded.args :=
                 Some {| MatchArgs.takerOrder := MatchArgs.takerOrder a;
                         MatchArgs.makerOrders := makerOrders;
                         MatchArgs.takerFillAmount := MatchArgs.takerFillAmount a;
                         MatchArgs.takerReceiveAmount := MatchArgs.takerReceiveAmount a;
                         MatchArgs.makerFillAmounts := makerFillAmounts;
                         MatchArgs.takerFeeAmount := MatchArgs.takerFeeAmount a;
                         MatchArgs.makerFeeAmounts := makerFeeAmounts |} |}) target.
Proof.
  intros Htaker. unfold computeFillForTarget. simpl.
  unfold maker_or_signer_is in Htaker. rewrite Htaker.
  destruct (negb _); [reflexivity|].
  destruct (side_of _); reflexivity.
Qed.

(** The target is the taker and also one of the makers: only the taker
    amounts are reported. *)
Lemma computeFillForTarget_taker_witness :
  computeFillForTarget
    (Some (call (leg target target 0 100 500) [leg target target 1 500 100]
                (Some 100) (Some 500) [500])) target
  = computeFillForTarget
      (Some (call (leg target target 0 100 500) [] (Some 100) (Some 500) []))
      target.
Proof.
  apply (computeFillForTarget_taker_ignores_maker_legs
           "matchOrders"
           {| MatchArgs.takerOrder := leg target target 0 100 500;
              MatchArgs.makerOrders := [leg target target 1 500 100];
              MatchArgs.takerFillAmount := Some 100;
              MatchArgs.takerReceiveAmount := Some 500;
              MatchArgs.makerFillAmounts := [500];
              MatchArgs.takerFeeAmount := Some 0;
              MatchArgs.makerFeeAmounts := [0] |} target [] [] []).
  reflexivity.
Defined.

(** For a maker leg with a positive makerAmount that is filled for at most
    makerAmount, the derived amount never exceeds the leg's takerAmount, and
    a complete fill derives exactly takerAmount. *)
Theorem computeMakerFill_within_order (order : Order.t) (ma ta fill : Z) :
  Order.makerAmount order = Some ma ->
  Order.takerAmount order = Some ta ->
  0 < ma -> 0 <= ta -> 0 <= fill <= ma ->
  (Order.side order = Some 0 ->
   MakerFill.usdc (computeMakerFill order fill) = Some fill
   /\ 0 <= default 0 (MakerFill.shares (computeMakerFill order fill)) <= ta
   /\ (fill = ma -> 0 < ta ->
       MakerFill.shares (computeMakerFill order fill) = Some ta))
  /\ (Order.side order = Some 1 ->
      MakerFill.shares (computeMakerFill order fill) = Some fill
      /\ 0 <= default 0 (MakerFill.usdc (computeMakerFill order fill)) <= ta
      /\ (fill = ma -> 0 < ta ->
          MakerFill.usdc (computeMakerFill order fill) = Some ta)).
Proof.
  intros Hma Hta Hpos Htnn [Hf0 Hf1].
  assert (0 <= (fill * ta) ÷ ma <= ta) as Hbound.
  { rewrite quot_is_floor by (try nia; lia). split.
    - apply Z.div_pos; [nia|lia].
    - apply Z.div_le_upper_bound; [lia|nia]. }
  assert (fill = ma -> (fill * ta) ÷ ma = ta) as Hfull.
  { intros ->. rewrite Z.mul_comm. apply Z.quot_mul. lia. }
  unfold computeMakerFill. rewrite Hma, Hta. simpl.
  destruct (Z.eqb_spec ma 0) as [->|_]; [lia|]. simpl.
  split; intros Hside; rewrite Hside; simpl.
  - destruct (Z.eqb_spec ta 0) as [->|Hta0]; simpl.
    + repeat split; try lia.
    + rewrite bool_decide_eq_false_2 by (intros [= ?]; lia). simpl.
      repeat split; try lia. intros Hfm _. rewrite (Hfull Hfm). reflexivity.
  - destruct (Z.eqb_spec ta 0) as [->|Hta0]; simpl.
    + repeat split; try lia.
    + rewrite bool_decide_eq_false_2 by (intros [= ?]; lia). simpl.
      repeat split; try lia. intros Hfm _. rewrite (Hfull Hfm). reflexivity.
Qed.

(** The SELL leg of 1000 shares for 300, filled for 500. *)
Lemma computeMakerFill_within_order_witness :
  MakerFill.shares (computeMakerFill (leg target target 1 1000 300) 500) = Some 500
  /\ 0 <= default 0 (MakerFill.usdc (computeMakerFill (leg target target 1 1000 300) 500))
     <= 300.
Proof.
  destruct (computeMakerFill_within_order
              (leg target target 1 1000 300) 1000 300 500
              eq_refl eq_refl) as [_ H]; try lia.
  destruct (H eq_refl) as (H1 & H2 & _). split; assumption.
Defined.

(** Letter case is ignored: [matchesCalldata] gives the same answer on the
    lowercase forms of the calldata and of the needle, and
    [computeFillForTarget] and [inferRoleAndSide] give the same answer on
    the lowercase form of the target address. *)
Theorem letter_case_is_ignored :
  (forall raw needle selector,
      matchesCalldata (JsString raw) needle selector
      = matchesCalldata (JsString (toLowerCase raw)) (toLowerCase needle) selector)
  /\ (forall decoded target,
         computeFillForTarget decoded (toLowerCase target)
         = computeFillForTarget decoded target)
  /\ (forall decoded target,
         inferRoleAndSide decoded (toLowerCase target)
         = inferRoleAndSide decoded target).
Proof.
  split; [|split].
  - intros raw needle selector. unfold matchesCalldata, truthy_string.
    rewrite !toLowerCase_idempotent.
    destruct (String.eqb_spec raw "") as [->|Hraw]; [reflexivity|].
    destruct (String.eqb_spec (toLowerCase raw) "") as [He|_]; [|reflexivity].
    apply (proj1 (toLowerCase_empty raw)) in He. contradiction.
  - intros decoded target. unfold computeFillForTarget.
    rewrite toLowerCase_idempotent. reflexivity.
  - intros decoded target. unfold inferRoleAndSide.
    rewrite toLowerCase_idempotent. reflexivity.
Qed.

End DecoderMore.

(** ** Decimal strings of bigints *)

Section DecimalStrings.
Import DecimalRef.

Lemma digits_value_of_uint (d : Decimal.uint) :
  forall acc,
    digits_value 10 acc (list_ascii_of_string (NilEmpty.string_of_uint d))
    = Some (uint_value acc d).
Proof. induction d; intros acc; simpl; [reflexivity|..]; apply IHd. Qed.

Lemma uint_chars_are_digits (d : Decimal.uint) :
  Forall (fun c => is_decimal_digit c = true)
         (list_ascii_of_string (NilEmpty.string_of_uint d)).
Proof. induction d; simpl; constructor; auto. Qed.

Lemma of_uint_acc_value (d : Decimal.uint) :
  forall p, Z.pos (Pos.of_uint_acc d p) = uint_value (Z.pos p) d.
Proof.
  induction d; intros p; simpl; [reflexivity|..];
    rewrite IHd; f_equal; lia.
Qed.

Lemma of_uint_value (d : Decimal.uint) : Z.of_N (Pos.of_uint d) = uint_value 0 d.
Proof.
  induction d; simpl; [reflexivity|exact IHd|..];
    apply (of_uint_acc_value d).
Qed.

Lemma to_uint_value (p : positive) : uint_value 0 (Pos.to_uint p) = Z.pos p.
Proof.
  rewrite <- of_uint_value, DecimalPos.Unsigned.of_to. reflexivity.
Qed.

Lemma digit_char_facts (c : ascii) :
  is_decimal_digit c = true ->
  is_StrWhiteSpaceChar c = false
  /\ is_char c 120 88 = false /\ is_char c 111 79 = false
  /\ is_char c 98 66 = false /\ is_char c 43 43 = false
  /\ is_char c 45 45 = false.
Proof.
  destruct c as [[] [] [] [] [] [] [] []]; try discriminate;
    intros _; repeat split.
Qed.

Lemma skip_white_head (c : ascii) (l : list ascii) :
  is_StrWhiteSpaceChar c = false -> skip_white (c :: l) = c :: l.
Proof. intros H. simpl. rewrite H. reflexivity. Qed.

(** A string without white space is not changed by trimming. *)
Lemma trim_white_id (l : list ascii) :
  Forall (fun c => is_StrWhiteSpaceChar c = false) l -> trim_white l = l.
Proof.
  intros Hl. unfold trim_white.
  assert (forall k, Forall (fun c => is_StrWhiteSpaceChar c = false) k ->
                    skip_white k = k) as Hskip.
  { intros k Hk. destruct Hk as [|c k Hc Hk]; [reflexivity|].
    apply skip_white_head. exact Hc. }
  rewrite (Hskip l Hl), Hskip; [apply rev_involutive|].
  apply Forall_forall. intros c Hc. rewrite Forall_forall in Hl.
  apply Hl. apply list_elem_of_In. apply in_rev. apply list_elem_of_In. exact Hc.
Qed.

(** A non-empty run of decimal digits parses as the number it writes. *)
Lemma StringToBigInt_digits (l : list ascii) :
  l <> [] ->
  Forall (fun c => is_decimal_digit c = true) l ->
  StringToBigInt (string_of_list_ascii l) = digits_value 10 0 l.
Proof.
  intros Hne Hl. unfold StringToBigInt.
  rewrite list_ascii_of_string_of_list_ascii, trim_white_id.
  - destruct l as [|c0 [|c1 r]]; [contradiction|reflexivity|].
    inversion Hl as [|? ? H0 Hl']; subst. inversion Hl' as [|? ? H1 _]; subst.
    destruct (digit_char_facts _ H0) as (_ & _ & _ & _ & Hp & Hm).
    destruct (digit_char_facts _ H1) as (_ & Hx & Ho & Hb & _ & _).
    rewrite Hx, Ho, Hb, Hp, Hm, !andb_false_r. reflexivity.
  - eapply Forall_impl; [exact Hl|]. intros c Hc. apply digit_char_facts. exact Hc.
Qed.

(** A minus sign before a non-empty run of decimal digits parses as the
    opposite. *)
Lemma StringToBigInt_minus_digits (l : list ascii) :
  l <> [] ->
  Forall (fun c => is_decimal_digit c = true) l ->
  StringToBigInt (String "-" (string_of_list_ascii l))
  = Z.opp <$> digits_value 10 0 l.
Proof.
  intros Hne Hl. unfold StringToBigInt.
  change (list_ascii_of_string (String "-" (string_of_list_ascii l)))
    with ("-"%char :: list_ascii_of_string (string_of_list_ascii l)).
  rewrite list_ascii_of_string_of_list_ascii, trim_white_id.
  - destruct l as [|c1 r]; [contradiction|]. reflexivity.
  - constructor; [reflexivity|].
    eapply Forall_impl; [exact Hl|]. intros c Hc. apply digit_char_facts. exact Hc.
Qed.

Lemma to_uint_string (p : positive) :
  NilZero.string_of_uint (Pos.to_uint p)
  = string_of_list_ascii
      (list_ascii_of_string (NilEmpty.string_of_uint (Pos.to_uint p)))
  /\ list_ascii_of_string (NilEmpty.string_of_uint (Pos.to_uint p)) <> [].
Proof.
  pose proof (DecimalPos.Unsigned.to_uint_nonnil p) as Hnil.
  rewrite string_of_list_ascii_of_string.
  destruct (Pos.to_uint p); [contradiction|..]; split; try reflexivity; discriminate.
Qed.

(** [BigInt(String(n))] is [n]. *)
Lemma StringToBigInt_String_of_bigint (z : Z) :
  StringToBigInt (String_of_bigint z) = Some z.
Proof.
  unfold String_of_bigint. destruct z as [|p|p]; simpl.
  - reflexivity.
  - destruct (to_uint_string p) as [-> Hne].
    rewrite StringToBigInt_digits;
      [|exact Hne|apply uint_chars_are_digits].
    rewrite digits_value_of_uint, to_uint_value. reflexivity.
  - destruct (to_uint_string p) as [-> Hne].
    rewrite StringToBigInt_minus_digits;
      [|exact Hne|apply uint_chars_are_digits].
    rewrite digits_value_of_uint, to_uint_value. reflexivity.
Qed.

Lemma String_of_bigint_nonempty (z : Z) : String_of_bigint z <> "".
Proof.
  intros H. destruct z as [|p|p]; unfold String_of_bigint in H; simpl in H;
    [discriminate H| |discriminate H].
  destruct (to_uint_string p) as [Heq Hne]. rewrite Heq in H.
  destruct (list_ascii_of_string _); [contradiction|discriminate H].
Qed.

Lemma toBigInt_String_of_bigint (z : Z) :
  Calculator.toBigInt (Some (String_of_bigint z)) = Some z.
Proof.
  unfold Calculator.toBigInt, truthy_string, BigInt_of_string.
  destruct (String.eqb_spec (String_of_bigint z) "") as [He|_].
  - exfalso. exact (String_of_bigint_nonempty z He).
  - simpl. rewrite StringToBigInt_String_of_bigint. reflexivity.
Qed.

End DecimalStrings.

(** ** Copy-intent calculator: round trip, slippage and scaling *)

Section CalculatorMore.
Import Calculator CalculatorRef Decoder DecoderRef Examples.

(** The decimal string of a bigint is read back by [toBigInt] as the same
    bigint: the amounts that the decoder prints with [String] reach the
    calculator unchanged. *)
Theorem toBigInt_reads_back_String (z : Z) :
  StringToBigInt (String_of_bigint z) = Some z
  /\ toBigInt (Some (String_of_bigint z)) = Some z
  /\ parses_positive (Some (String_of_bigint z)) = (0 <? z).
Proof.
  split; [apply StringToBigInt_String_of_bigint|].
  split; [apply toBigInt_String_of_bigint|].
  simpl. rewrite StringToBigInt_String_of_bigint. reflexivity.
Qed.

(** For a MAKER role with unsigned amounts, every amount that
    [computeFillForTarget] reports is read by the calculator as a positive
    integer, the sum over the legs of the target. *)
Theorem maker_amounts_parse_positive decoded a target r :
  MatchDecoded.args decoded = Some a ->
  unsigned_amounts a = true ->
  computeFillForTarget (Some decoded) target = Some r ->
  FillBreakdown.role r = Role.MAKER ->
  (forall s, FillBreakdown.shares r = Some s ->
             toBigInt (Some s)
             = Some (sum_legs (maker_or_signer_is target) leg_shares
                              (MatchArgs.makerOrders a) (MatchArgs.makerFillAmounts a))
             /\ parses_positive (Some s) = true)
  /\ (forall u, FillBreakdown.usdc r = Some u ->
                toBigInt (Some u)
                = Some (sum_legs (maker_or_signer_is target) leg_usdc
                                 (MatchArgs.makerOrders a) (MatchArgs.makerFillAmounts a))
                /\ parses_positive (Some u) = true).
Proof.
  intros Hargs Hun Hr Hrole.
  destruct (computeFillForTarget_maker _ _ _ _ Hargs Hun Hr Hrole) as [Hs Hu].
  unfold report in Hs, Hu.
  split; intros x Hx.
  - clear Hu. rewrite Hs in Hx. destruct (0 <? _) eqn:Hpos; [|discriminate].
    injection Hx as <-. split; [apply toBigInt_String_of_bigint|].
    simpl. rewrite StringToBigInt_String_of_bigint. exact Hpos.
  - clear Hs. rewrite Hu in Hx. destruct (0 <? _) eqn:Hpos; [|discriminate].
    injection Hx as <-. split; [apply toBigInt_String_of_bigint|].
    simpl. rewrite StringToBigInt_String_of_bigint. exact Hpos.
Qed.

(** The call with the proxy leg: 700 shares for 210. *)
Lemma maker_amounts_parse_positive_witness :
  toBigInt (Some "700") = Some 700 /\ parses_positive (Some "700") = true.
Proof.
  destruct (maker_amounts_parse_positive proxy_leg_call _ target _
              eq_refl eq_refl eq_refl eq_refl) as [H _].
  destruct (H "700" eq_refl) as [H1 H2]. split; [exact H1|exact H2].
Defined.

(** What [applySlippage] returns for an integral [slippageBps]. *)
Lemma applySlippage_Return priceMicros slippageBps side bps :
  BigInt_of_number slippageBps = Return bps ->
  applySlippage priceMicros slippageBps side
  = Return match side with
           | BUY => priceMicros + (priceMicros * bps) ÷ 10000
           | SELL => priceMicros - (priceMicros * bps) ÷ 10000
           | UNKNOWN => priceMicros
           end.
Proof. intros H. unfold applySlippage. rewrite H. reflexivity. Qed.

Lemma slippage_delta_bounds (p bps : Z) :
  0 <= p -> 0 <= bps ->
  0 <= (p * bps) ÷ 10000
  /\ (bps <= 10000 -> (p * bps) ÷ 10000 <= p)
  /\ (10000 <= bps -> p <= (p * bps) ÷ 10000).
Proof.
  intros Hp Hb. rewrite quot_is_floor by (try nia; lia).
  split; [apply Z.div_pos; [nia|lia]|]. split; intros H.
  - apply Z.div_le_upper_bound; [lia|nia].
  - apply Z.div_le_lower_bound; [lia|nia].
Qed.

(** Slippage worsens the price in the direction of the side: for a
    non-negative price and a non-negative integral [slippageBps], a BUY
    limit is at or above the price, a SELL limit is at or below it and is
    not negative up to 10000 bps, an UNKNOWN side leaves the price as it
    is; from 10000 bps on, a SELL limit is zero or negative. *)
Theorem applySlippage_direction priceMicros slippageBps bps :
  BigInt_of_number slippageBps = Return bps ->
  0 <= priceMicros -> 0 <= bps ->
  (exists limit, applySlippage priceMicros slippageBps BUY = Return limit
                 /\ priceMicros <= limit)
  /\ (exists limit, applySlippage priceMicros slippageBps SELL = Return limit
                    /\ limit <= priceMicros
                    /\ (bps <= 10000 -> 0 <= limit)
                    /\ (10000 <= bps -> limit <= 0))
  /\ applySlippage priceMicros slippageBps UNKNOWN = Return priceMicros.
Proof.
  intros Hbps Hp Hb.
  destruct (slippage_delta_bounds priceMicros bps Hp Hb) as (H0 & Hle & Hge).
  rewrite !(applySlippage_Return _ _ _ _ Hbps).
  split; [|split; [|reflexivity]]; eexists; (split; [reflexivity|]).
  - lia.
  - split; [lia|]. split; intros H; [specialize (Hle H)|specialize (Hge H)]; lia.
Qed.

(** A price of 0.5 with 500 bps. *)
Lemma applySlippage_direction_witness :
  applySlippage 500000 500 BUY = Return 525000
  /\ applySlippage 500000 500 SELL = Return 475000
  /\ applySlippage 500000 500 UNKNOWN = Return 500000.
Proof.
  destruct (applySlippage_direction 500000 500 500 eq_refl
                                   ltac:(lia) ltac:(lia)) as (_ & _ & H).
  split; [reflexivity|]. split; [reflexivity|exact H].
Defined.

(** What a returned intent is made of. *)
Lemma buildCopyIntent_Some fill config intent :
  buildCopyIntent fill config = Return (Some intent) ->
  (CopyConfig.scale config <=? 0)%float = false
  /\ (CopyFill.side fill = BUY -> CopyConfig.allowBuy config = true)
  /\ (CopyFill.side fill = SELL -> CopyConfig.allowSell config = true)
  /\ exists s u cs cu limit,
      toBigInt (CopyFill.shares fill) = Some s /\ 0 < s
      /\ toBigInt (CopyFill.usdc fill) = Some u /\ 0 < u
      /\ applyScale s (CopyConfig.scale config) = Return cs /\ 0 < cs
      /\ applyScale u (CopyConfig.scale config) = Return cu /\ 0 < cu
      /\ applySlippage ((u * SCALE) ÷ s) (CopyConfig.slippageBps config)
                       (CopyFill.side fill) = Return limit
      /\ 0 < limit
      /\ intent
         = {| CopyIntent.tokenId := CopyFill.tokenId fill;
              CopyIntent.side :=
                if is_SELL (CopyFill.side fill) then Side.SELL else Side.BUY;
              CopyIntent.size :=
                (Number_of_bigint cs / Number_of_bigint SCALE)%float;
              CopyIntent.price :=
                (Number_of_bigint limit / Number_of_bigint SCALE)%float;
              CopyIntent.impliedPrice :=
                (Number_of_bigint ((u * SCALE) ÷ s) / Number_of_bigint SCALE)%float;
              CopyIntent.notional :=
                (Number_of_bigint cu / Number_of_bigint SCALE)%float;
              CopyIntent.hash := CopyFill.hash fill |}.
Proof.
  unfold buildCopyIntent.
  destruct (_ <=? _)%float; [discriminate|].
  destruct (is_BUY _ && _) eqn:Hbuy; [discriminate|].
  destruct (is_SELL (CopyFill.side fill) && _) eqn:Hsell; [discriminate|].
  destruct (toBigInt (CopyFill.shares fill)) as [s|]; [|discriminate].
  destruct (toBigInt (CopyFill.usdc fill)) as [u|];
    [|simpl; rewrite orb_true_r; discriminate].
  simpl missing_or_not_positive.
  destruct (Z.eqb_spec s 0); [discriminate|].
  destruct (Z.leb_spec s 0); [discriminate|].
  destruct (Z.eqb_spec u 0); [discriminate|].
  destruct (Z.leb_spec u 0); [discriminate|].
  simpl. destruct (applyScale s _) as [cs|] eqn:Hcs; [|discriminate]. simpl.
  destruct (applyScale u _) as [cu|] eqn:Hcu; [|discriminate]. simpl.
  destruct (Z.leb_spec cs 0); [discriminate|].
  destruct (Z.leb_spec cu 0); [discriminate|]. simpl.
  destruct (applySlippage _ _ _) as [limit|] eqn:Hlimit; [|discriminate]. simpl.
  destruct (Z.leb_spec limit 0); [discriminate|].
  intros [= <-]. split; [reflexivity|].
  split; [intros Hs; rewrite Hs in Hbuy; simpl in Hbuy;
          destruct (CopyConfig.allowBuy config); [reflexivity|discriminate]|].
  split; [intros Hs; rewrite Hs in Hsell; simpl in Hsell;
          destruct (CopyConfig.allowSell config); [reflexivity|discriminate]|].
  exists s, u, cs, cu, limit. repeat split; auto.
Qed.

(** Whenever [buildCopyIntent] returns an intent, the scale is not <= 0,
    the side of the fill is enabled, shares and usdc parse as positive
    integers, the two scaled amounts and the limit price in micro-units are
    positive, and the intent carries the fill's token id and hash, the side
    SELL exactly for a SELL fill, and the four amounts divided by 10^6. *)
Theorem buildCopyIntent_intent_is_well_formed fill config intent :
  buildCopyIntent fill config = Return (Some intent) ->
  (CopyConfig.scale config <=? 0)%float = false
  /\ (CopyFill.side fill = BUY -> CopyConfig.allowBuy config = true)
  /\ (CopyFill.side fill = SELL -> CopyConfig.allowSell config = true)
  /\ CopyIntent.tokenId intent = CopyFill.tokenId fill
  /\ CopyIntent.hash intent = CopyFill.hash fill
  /\ (CopyIntent.side intent = Side.SELL <-> CopyFill.side fill = SELL)
  /\ exists s u cs cu limit,
      toBigInt (CopyFill.shares fill) = Some s /\ 0 < s
      /\ toBigInt (CopyFill.usdc fill) = Some u /\ 0 < u
      /\ applyScale s (CopyConfig.scale config) = Return cs /\ 0 < cs
      /\ applyScale u (CopyConfig.scale config) = Return cu /\ 0 < cu
      /\ applySlippage ((u * SCALE) ÷ s) (CopyConfig.slippageBps config)
                       (CopyFill.side fill) = Return limit
      /\ 0 < limit
      /\ CopyIntent.size intent
         = (Number_of_bigint cs / Number_of_bigint SCALE)%float
      /\ CopyIntent.notional intent
         = (Number_of_bigint cu / Number_of_bigint SCALE)%float
      /\ CopyIntent.impliedPrice intent
         = (Number_of_bigint ((u * SCALE) ÷ s) / Number_of_bigint SCALE)%float
      /\ CopyIntent.price intent
         = (Number_of_bigint limit / Number_of_bigint SCALE)%float.
Proof.
  intros H. apply buildCopyIntent_Some in H
    as (Hscale & Hbuy & Hsell & s & u & cs & cu & limit
        & Hs & Hs0 & Hu & Hu0 & Hcs & Hcs0 & Hcu & Hcu0 & Hlim & Hlim0 & ->).
  simpl. repeat split; try assumption.
  - destruct (CopyFill.side fill); simpl; [discriminate|reflexivity|discriminate].
  - intros ->. reflexivity.
  - exists s, u, cs, cu, limit. repeat split; assumption.
Qed.

(** The SELL fill of 1000000000 shares for 500000000 at scale 0.1. *)
Lemma buildCopyIntent_intent_is_well_formed_witness :
  exists intent,
    buildCopyIntent (fill SELL "1000000000" "500000000")
                    (copy_config 0.1 500 true true) = Return (Some intent)
    /\ CopyIntent.tokenId intent = "77"
    /\ CopyIntent.side intent = Side.SELL.
Proof.
  eexists. split; [vm_compute; reflexivity|].
  match goal with
  | |- CopyIntent.tokenId ?i = _ /\ _ =>
      destruct (buildCopyIntent_intent_is_well_formed
                  (fill SELL "1000000000" "500000000")
                  (copy_config 0.1 500 true true) i)
        as (_ & _ & _ & Ht & _ & Hside & _)
  end.
  - vm_compute. reflexivity.
  - split; [exact Ht|]. apply Hside. reflexivity.
Defined.

(** A SELL fill never yields an intent when [slippageBps] is 10000 or
    more: the limit price would be zero or negative. *)
Theorem buildCopyIntent_sell_needs_slippage_below_10000 fill config bps :
  CopyFill.side fill = SELL ->
  BigInt_of_number (CopyConfig.slippageBps config) = Return bps ->
  10000 <= bps ->
  forall intent, buildCopyIntent fill config <> Return (Some intent).
Proof.
  intros Hside Hbps Hge intent H.
  apply buildCopyIntent_Some in H
    as (_ & _ & _ & s & u & cs & cu & limit
        & _ & Hs0 & _ & Hu0 & _ & _ & _ & _ & Hlim & Hlim0 & _).
  rewrite Hside, (applySlippage_Return _ _ _ _ Hbps) in Hlim.
  injection Hlim as <-.
  assert (0 <= (u * SCALE) ÷ s) as Hp.
  { rewrite quot_is_floor; [apply Z.div_pos|..]; unfold SCALE; nia. }
  destruct (slippage_delta_bounds _ bps Hp ltac:(lia)) as (_ & _ & H). 
  specialize (H Hge). lia.
Qed.

(** A SELL fill with 10000 bps. *)
Lemma buildCopyIntent_sell_slippage_witness :
  buildCopyIntent (fill SELL "1000000000" "500000000")
                  (copy_config 0.1 10000 true true) = Return None
  /\ forall intent,
      buildCopyIntent (fill SELL "1000000000" "500000000")
                      (copy_config 0.1 10000 true true) <> Return (Some intent).
Proof.
  split; [vm_compute; reflexivity|].
  apply (buildCopyIntent_sell_needs_slippage_below_10000 _ _ 10000);
    [reflexivity|vm_compute; reflexivity|lia].
Defined.

(** Scaling keeps the order of amounts: with the same scale factor, when
    the scaled amount of a positive amount is positive, a larger amount
    never scales to a smaller one, and scaled amounts of non-negative
    amounts are not negative. *)
Theorem applyScale_monotone (v v' c c' : Z) (scale : float) :
  applyScale v scale = Return c ->
  applyScale v' scale = Return c' ->
  0 < v -> 0 < c -> v <= v' ->
  c <= c' /\ 0 < c'.
Proof.
  unfold applyScale, SCALE.
  destruct (BigInt_of_number _) as [k|]; [|discriminate]. simpl.
  intros [= <-] [= <-] Hv Hc Hle.
  assert (0 < k) as Hk.
  { destruct (Z_lt_le_dec 0 k) as [Hk|Hk]; [exact Hk|exfalso].
    assert (v * k <= 0) as Hneg by nia.
    pose proof (Z.quot_le_mono (v * k) 0 1000000 ltac:(lia) Hneg) as Hq.
    rewrite Z.quot_0_l in Hq by lia. lia. }
  assert (c_le : (v * k) ÷ 1000000 <= (v' * k) ÷ 1000000)
    by (apply Z.quot_le_mono; [lia|nia]).
  split; [exact c_le|lia].
Qed.

(** Scaling 1000 and 2000 by 0.1. *)
Lemma applyScale_monotone_witness :
  applyScale 1000 0.1 = Return 100
  /\ applyScale 2000 0.1 = Return 200
  /\ 100 <= 200 /\ 0 < 200.
Proof.
  split; [vm_compute; reflexivity|]. split; [vm_compute; reflexivity|].
  apply (applyScale_monotone 1000 2000 100 200 0.1);
    first [vm_compute; reflexivity | lia].
Defined.

End CalculatorMore.

(** ** Recency set: how long a hash stays recognised *)

Section RecencyWindow.
Import Watcher WatcherRef.

(** A call of [seen] on a hash that is not in the set, spelled out. *)
Lemma seen_not_member c h :
  coherent c -> h <> "" -> fst (seen (Some h) c) = false ->
  h ∉ HashCache.deque c.
Proof.
  intros Hc Hh Hfalse Hin.
  rewrite seen_member in Hfalse; [discriminate|exact Hc|].
  destruct Hc as (Hset & _). rewrite Hset, elem_of_list_to_set. exact Hin.
Qed.

(** One more call of [seen], whatever its argument, puts at most one more
    hash behind [h], and leaves [h] in the array unless all other places
    are already taken by later hashes. *)
Lemma seen_keeps_recent c h k hash :
  coherent c ->
  (exists pre post, HashCache.deque c = (pre ++ h :: post)%list
                    /\ (length post <= k)%nat) ->
  (S k < HASH_CACHE_SIZE)%nat ->
  exists pre post,
    HashCache.deque (snd (seen hash c)) = (pre ++ h :: post)%list
    /\ (length post <= S k)%nat.
Proof.
  intros Hc (pre & post & Hd & Hpost) Hk.
  assert (exists pre0 post0,
             HashCache.deque c = (pre0 ++ h :: post0)%list
             /\ (length post0 <= S k)%nat) as Hsame
    by (exists pre, post; split; [exact Hd|lia]).
  destruct hash as [x|]; [|exact Hsame].
  destruct (String.eqb_spec x "") as [->|Hx]; [exact Hsame|].
  destruct (decide (x ∈ HashCache.set c)) as [Hin|Hnin].
  { rewrite (seen_member _ _ Hc Hin). exact Hsame. }
  destruct (seen_fresh c x Hc Hx) as (c' & Hseen & Hd' & _).
  { destruct Hc as (Hset & _). rewrite Hset, elem_of_list_to_set in Hnin.
    exact Hnin. }
  rewrite Hseen. simpl. rewrite Hd'.
  destruct Hc as (_ & _ & _ & Hlen).
  rewrite length_app. simpl.
  rewrite Hd in *. rewrite length_app in Hlen. simpl in Hlen.
  rewrite length_app. simpl.
  destruct (Nat.le_gt_cases (length pre + S (length post) + 1) HASH_CACHE_SIZE)
    as [Hfit|Hover].
  - replace (length pre + S (length post) + 1 - HASH_CACHE_SIZE)%nat with 0%nat
      by lia.
    exists pre, (post ++ [x])%list. split.
    + simpl. rewrite <- app_assoc. reflexivity.
    + rewrite length_app. simpl. lia.
  - replace (length pre + S (length post) + 1 - HASH_CACHE_SIZE)%nat with 1%nat
      by lia.
    destruct pre as [|p pre']; [simpl in *; lia|].
    exists pre', (post ++ [x])%list. split.
    + simpl. rewrite drop_0, <- app_assoc. reflexivity.
    + rewrite length_app. simpl. lia.
Qed.

Lemma seen_all_keeps_recent h hashes :
  forall c k,
    coherent c ->
    (exists pre post, HashCache.deque c = (pre ++ h :: post)%list
                      /\ (length post <= k)%nat) ->
    (k + length hashes < HASH_CACHE_SIZE)%nat ->
    coherent (snd (seen_all hashes c))
    /\ exists pre post,
        HashCache.deque (snd (seen_all hashes c)) = (pre ++ h :: post)%list
        /\ (length post <= k + length hashes)%nat.
Proof.
  induction hashes as [|x hashes IH]; intros c k Hc Hrec Hk.
  - simpl. split; [exact Hc|]. destruct Hrec as (pre & post & Hd & Hp).
    exists pre, post. split; [exact Hd|lia].
  - simpl in Hk. simpl.
    pose proof (coherent_seen (Some x) c Hc) as Hc1.
    pose proof (seen_keeps_recent c h k (Some x) Hc Hrec ltac:(lia)) as Hrec1.
    destruct (seen (Some x) c) as [b c1]. simpl in Hc1, Hrec1.
    destruct (IH c1 (S k) Hc1 Hrec1 ltac:(lia)) as [Hc2 (pre & post & Hd & Hp)].
    destruct (seen_all hashes c1) as [bs c2]. simpl in *.
    split; [exact Hc2|]. exists pre, post. split; [exact Hd|lia].
Qed.

(** A hash that [seen] has just admitted is recognised as a duplicate
    after any sequence of fewer than 1000 further [seen] calls: a second
    delivery is missed only after 1000 or more other hashes came in
    between. *)
Theorem seen_recognises_recent_hash (c : HashCache.t) (h : string)
    (between : list string) :
  reachable c -> h <> "" ->
  fst (seen (Some h) c) = false ->
  (length between < HASH_CACHE_SIZE)%nat ->
  fst (seen (Some h) (snd (seen_all between (snd (seen (Some h) c))))) = true.
Proof.
  intros Hr Hh Hfalse Hlen.
  pose proof (reachable_coherent c Hr) as Hc.
  pose proof (seen_not_member c h Hc Hh Hfalse) as Hnew.
  destruct (seen_fresh c h Hc Hh Hnew) as (c1 & Hseen & Hd1 & Hc1).
  rewrite Hseen. simpl.
  assert (exists pre post, HashCache.deque c1 = (pre ++ h :: post)%list
                           /\ (length post <= 0)%nat) as Hrec.
  { rewrite Hd1. destruct Hc as (_ & _ & _ & Hl).
    rewrite length_app. simpl.
    pose proof HASH_CACHE_SIZE_pos as Hpos.
    destruct (Nat.le_gt_cases (length (HashCache.deque c) + 1) HASH_CACHE_SIZE)
      as [Hfit|Hover].
    - replace (length (HashCache.deque c) + 1 - HASH_CACHE_SIZE)%nat with 0%nat
        by lia.
      exists (HashCache.deque c), []. split; [reflexivity|simpl; lia].
    - replace (length (HashCache.deque c) + 1 - HASH_CACHE_SIZE)%nat with 1%nat
        by lia.
      destruct (HashCache.deque c) as [|x rest]; [simpl in *; lia|].
      exists rest, []. split; [simpl; rewrite drop_0; reflexivity|simpl; lia]. }
  destruct (seen_all_keeps_recent h between c1 0%nat Hc1 Hrec ltac:(lia))
    as [Hc2 (pre & post & Hd2 & _)].
  rewrite seen_member; [reflexivity|exact Hc2|].
  destruct Hc2 as (Hset & _). rewrite Hset, elem_of_list_to_set, Hd2.
  apply elem_of_app. right. left.
Qed.

(** A hash, two other hashes, and the first hash again. *)
Lemma seen_recognises_recent_hash_witness :
  fst (seen (Some "0xaa")
            (snd (seen_all ["0xbb"; "0xcc"]
                           (snd (seen (Some "0xaa") makeHashCache))))) = true.
Proof.
  apply (seen_recognises_recent_hash makeHashCache "0xaa" ["0xbb"; "0xcc"]).
  - apply reachable_make.
  - discriminate.
  - reflexivity.
  - unfold HASH_CACHE_SIZE. simpl. lia.
Defined.

End RecencyWindow.

(** ** Single-flight TTL cache: stored values, clean-up and clearing *)

Section TtlCacheMore.
Import TtlCache.
Context {T : Type}.

(** A value that was set is returned by [get] under its key until its
    expiry time [now + Math.max(0, ttlMs)] is reached, [get] on every other
    key answers as before, and [set] does not touch the in-flight
    markers. *)
Theorem get_after_set (c : TtlCache.t T) (now now' : float) (key key' : string)
    (value : T) (ttlMs : float) :
  fst (set now key value ttlMs c) = value
  /\ fst (get now' key (snd (set now key value ttlMs c)))
     = (if (now + Math_max 0 ttlMs <=? now')%float then None else Some value)
  /\ (key' <> key ->
      fst (get now' key' (snd (set now key value ttlMs c)))
      = fst (get now' key' c))
  /\ inflight (snd (set now key value ttlMs c)) = inflight c.
Proof.
  unfold set, get. simpl. rewrite lookup_insert_eq. simpl.
  split; [reflexivity|]. split.
  - destruct (_ <=? _)%float; reflexivity.
  - split; [|reflexivity]. intros Hne. rewrite lookup_insert_ne by congruence.
    destruct (store c !! key') as [e|]; [|reflexivity].
    destruct (_ <=? _)%float; reflexivity.
Qed.

(** When the producer fulfils, the in-flight marker is removed and the
    value is stored: until the entry expires, [getOrSet] answers with the
    stored value and does not call the producer; once it has expired,
    [getOrSet] launches the producer again. *)
Theorem fulfilled_producer_is_cached (c : TtlCache.t T) (now : float)
    (key : string) (ttlMs : float) (value : T) :
  fst (producer_fulfilled now key ttlMs value c) = Return value
  /\ inflight (snd (producer_fulfilled now key ttlMs value c)) !! key = None
  /\ (forall now' fresh,
         (now + Math_max 0 ttlMs <=? now')%float = false ->
         getOrSet now' key fresh (snd (producer_fulfilled now key ttlMs value c))
         = (Cached value, snd (producer_fulfilled now key ttlMs value c)))
  /\ (forall now' fresh,
         (now + Math_max 0 ttlMs <=? now')%float = true ->
         exists c',
           getOrSet now' key fresh (snd (producer_fulfilled now key ttlMs value c))
           = (Launched fresh, c')).
Proof.
  unfold producer_fulfilled, set. simpl.
  split; [reflexivity|]. split; [apply lookup_delete_eq|]. split.
  - intros now' fresh Hlive. unfold getOrSet, get. simpl.
    rewrite lookup_insert_eq. simpl. rewrite Hlive. reflexivity.
  - intros now' fresh Hdead. unfold getOrSet, get. simpl.
    rewrite lookup_insert_eq. simpl. rewrite Hdead. simpl.
    rewrite lookup_delete_eq. eexists. reflexivity.
Qed.

(** [cleanup] keeps exactly the entries that have not expired, unchanged;
    [get] answers after it as before it, and [size] counts the entries that
    are left, never more than were stored. *)
Theorem cleanup_keeps_live_entries (c : TtlCache.t T) (now : float) :
  (forall key entry,
      store (cleanup now c) !! key = Some entry
      <-> store c !! key = Some entry
          /\ (CacheEntry.expiresAt entry <=? now)%float = false)
  /\ (forall key, fst (get now key (cleanup now c)) = fst (get now key c))
  /\ fst (size now c) = base.size (store (cleanup now c))
  /\ (fst (size now c) <= base.size (store c))%nat
  /\ inflight (cleanup now c) = inflight c.
Proof.
  assert (forall key entry,
             store (cleanup now c) !! key = Some entry
             <-> store c !! key = Some entry
                 /\ (CacheEntry.expiresAt entry <=? now)%float = false) as Hlook.
  { intros key entry. unfold cleanup. simpl.
    rewrite map_lookup_filter_Some. reflexivity. }
  split; [exact Hlook|]. split; [|split; [reflexivity|split; [|reflexivity]]].
  - intros key. unfold get.
    destruct (store (cleanup now c) !! key) as [e|] eqn:Hk.
    + apply Hlook in Hk as [Hk Hlive]. rewrite Hk, Hlive. reflexivity.
    + destruct (store c !! key) as [e|] eqn:Hk'; [|reflexivity].
      destruct (_ <=? _)%float eqn:Hexp; [reflexivity|].
      assert (store (cleanup now c) !! key = Some e) as Habs
        by (apply Hlook; split; assumption).
      congruence.
  - unfold size, cleanup. simpl. apply map_subseteq_size, map_filter_subseteq.
Qed.

(** [delete] and [clear] remove stored values and leave the in-flight
    markers: after them [get] finds nothing under the key, and a [getOrSet]
    for a key whose producer is still pending receives the pending promise
    instead of calling the producer. *)
Theorem delete_and_clear_keep_inflight (c : TtlCache.t T) (now : float)
    (key : string) (p fresh : promise) :
  inflight c !! key = Some p ->
  fst (get now key (delete_key key c)) = None
  /\ (forall k, fst (get now k (clear c)) = None)
  /\ getOrSet now key fresh (delete_key key c) = (Pending p, delete_key key c)
  /\ getOrSet now key fresh (clear c) = (Pending p, clear c).
Proof.
  intros Hp. unfold delete_key, clear, getOrSet, get. simpl.
  rewrite lookup_delete_eq. simpl. rewrite Hp.
  split; [reflexivity|]. split; [|split; [reflexivity|]].
  - intros k. rewrite lookup_empty. reflexivity.
  - rewrite lookup_empty. simpl. rewrite Hp. reflexivity.
Qed.

End TtlCacheMore.

Section TtlCacheMoreExample.
Import TtlCache CacheExamples.

(** The stale cache with a producer in flight for its key. *)
Lemma delete_and_clear_keep_inflight_witness :
  getOrSet 2000 "market:77" 2%nat
           (clear {| store := store stale_cache;
                     inflight := {[ "market:77" := 1%nat ]} |})
  = (Pending 1%nat,
     clear {| store := store stale_cache;
              inflight := {[ "market:77" := 1%nat ]} |}).
Proof.
  apply (delete_and_clear_keep_inflight
           {| store := store stale_cache; inflight := {[ "market:77" := 1%nat ]} |}
           2000 "market:77" 1%nat 2%nat).
  apply lookup_singleton_eq.
Defined.

End TtlCacheMoreExample.

(** ** Order placer: what reaches the venue *)

Section PlacerMore.
Import Placer PlacerRef.
Variables Wallet SignedOrder : Type.
Variable createMarketOrder :
  ClobClient Wallet -> UserMarketOrder.t -> completion SignedOrder.
Variable createOrder : ClobClient Wallet -> UserOrder.t -> completion SignedOrder.
Variable postOrder :
  ClobClient Wallet -> SignedOrder -> OrderType.t -> completion JsValue.

(** A number that is not finite rounds to zero. *)
Lemma roundToDecimals_positive_is_finite (value : float) (decimals : Z) :
  (roundToDecimals value decimals <=? 0)%float = false ->
  is_finite value = true.
Proof.
  unfold roundToDecimals. destruct (is_finite value); [reflexivity|].
  simpl. intros H. vm_compute in H. discriminate H.
Qed.

(** The calls of the [try] block of [place]. *)
Lemma submit_calls_fit (p : Placer Wallet) (c : ClobClient Wallet)
    (intent : CopyIntent.t) (tr : list (Event SignedOrder)) :
  exists evs,
    snd (submit createMarketOrder createOrder postOrder p c intent tr)
    = (tr ++ evs)%list
    /\ Forall (call_fits (toOrderType (AppConfig.copyOrderType (config p))) intent)
              evs
    /\ Forall (fun e => is_client_call e = true) evs
    /\ (length evs <= 2)%nat.
Proof.
  unfold submit.
  set (orderType := toOrderType (AppConfig.copyOrderType (config p))).
  assert (forall ev (r : completion SignedOrder),
             call_fits orderType intent ev -> is_client_call ev = true ->
             exists evs,
               snd (bind (lift ev r)
                      (fun order =>
                         bind (lift (CallPostOrder order orderType)
                                    (postOrder c order orderType))
                              (fun res => ret (inr res : PlaceResult + JsValue))) tr)
               = (tr ++ evs)%list
               /\ Forall (call_fits orderType intent) evs
               /\ Forall (fun e => is_client_call e = true) evs
               /\ (length evs <= 2)%nat) as Hcalls.
  { intros ev r Hev Hcall. unfold bind, lift, ret.
    destruct r as [order|err]; simpl.
    - exists [ev; CallPostOrder order orderType].
      destruct (postOrder c order orderType); simpl;
        rewrite <- app_assoc; simpl;
        (split; [reflexivity|]);
        (split; [repeat constructor; exact Hev|]);
        (split; [repeat constructor; exact Hcall|lia]).
    - exists [ev]. split; [reflexivity|].
      split; [repeat constructor; exact Hev|].
      split; [repeat constructor; exact Hcall|simpl; lia]. }
  assert (exists evs : list (Event SignedOrder),
             tr = (tr ++ evs)%list
             /\ Forall (call_fits orderType intent) evs
             /\ Forall (fun e => is_client_call e = true) evs
             /\ (length evs <= 2)%nat) as Hnone.
  { exists []. rewrite app_nil_r. repeat split; try constructor. simpl. lia. }
  assert (forall d, CopyIntent.side intent = d ->
            forall (Hpos :
                      (match d with
                       | Side.BUY => roundToDecimals (CopyIntent.notional intent) 2
                       | Side.SELL => roundToDecimals (CopyIntent.size intent) 4
                       end <=? 0)%float = false),
              orderType = OrderType.FOK \/ orderType = OrderType.FAK ->
              call_fits (SignedOrder:=SignedOrder) orderType intent
                (CallCreateMarketOrder
                   {| UserMarketOrder.tokenID := CopyIntent.tokenId intent;
                      UserMarketOrder.amount :=
                        match d with
                        | Side.BUY => roundToDecimals (CopyIntent.notional intent) 2
                        | Side.SELL => roundToDecimals (CopyIntent.size intent) 4
                        end;
                      UserMarketOrder.side := d;
                      UserMarketOrder.price := CopyIntent.price intent |}))
    as Hmarket.
  { intros d Hside Hpos Hot. simpl. unfold market_amount, market_input.
    rewrite Hside. repeat split; auto.
    destruct d; eapply roundToDecimals_positive_is_finite; exact Hpos. }
  assert ((roundToDecimals (CopyIntent.price intent) 4 <=? 0)%float
          || (roundToDecimals (CopyIntent.size intent) 4 <=? 0)%float = false ->
          orderType = OrderType.GTC \/ orderType = OrderType.GTD ->
          call_fits (SignedOrder:=SignedOrder) orderType intent
            (CallCreateOrder
               {| UserOrder.tokenID := CopyIntent.tokenId intent;
                  UserOrder.price := roundToDecimals (CopyIntent.price intent) 4;
                  UserOrder.size := roundToDecimals (CopyIntent.size intent) 4;
                  UserOrder.side := CopyIntent.side intent |})) as Hlimit.
  { intros Hpos Hot. apply orb_false_iff in Hpos as [Hprice Hsize].
    simpl. repeat split; auto;
      eapply roundToDecimals_positive_is_finite; eassumption. }
  destruct orderType eqn:Hot;
    first
      [ destruct (_ || _) eqn:Hpos; [exact Hnone|];
        apply Hcalls; [|reflexivity];
        apply Hlimit; auto
      | destruct (CopyIntent.side intent) eqn:Hside;
        [ destruct (roundToDecimals (CopyIntent.notional intent) 2 <=? 0)%float
            eqn:Hpos; [exact Hnone|];
          apply Hcalls; [|reflexivity];
          apply (Hmarket Side.BUY); auto
        | destruct (roundToDecimals (CopyIntent.size intent) 4 <=? 0)%float
            eqn:Hpos; [exact Hnone|];
          apply Hcalls; [|reflexivity];
          apply (Hmarket Side.SELL); auto ] ].
Qed.

(** [place] never throws. *)
Lemma place_returns (p : Placer Wallet) (intent : CopyIntent.t)
    (tr : list (Event SignedOrder)) :
  exists r tr',
    place createMarketOrder createOrder postOrder p intent tr = (Return r, tr').
Proof.
  unfold place, try_, bind, emit, ret.
  destruct (enabled p); [|eauto].
  destruct (client p) as [c|]; [|eauto].
  destruct (submit _ _ _ _ _ _ _) as [[[early|res]|err] tr1]; eauto.
Qed.

(** Whatever the placer's state and the intent, [place] only adds to the
    trace, and what it adds holds at most two calls of the venue client,
    and none when the placer is disabled. An order that is created carries
    the intent's token and side; it is a market order exactly for FOK and
    FAK and a limit order for GTC and GTD; its amount (or, for a limit
    order, price and size) is the intent's number rounded, and is never
    zero, negative, or the rounding of a number that is not finite; an
    order is posted with the configured order type. *)
Theorem place_calls_fit (p : Placer Wallet) (intent : CopyIntent.t)
    (tr : list (Event SignedOrder)) :
  exists evs,
    snd (place createMarketOrder createOrder postOrder p intent tr)
    = (tr ++ evs)%list
    /\ Forall (call_fits (toOrderType (AppConfig.copyOrderType (config p))) intent)
              evs
    /\ (length (List.filter is_client_call evs) <= 2)%nat
    /\ (enabled p = false -> List.filter is_client_call evs = []).
Proof.
  unfold place, try_, bind, emit, ret.
  destruct (enabled p) eqn:Hon.
  - destruct (client p) as [c|].
    + destruct (submit_calls_fit p c intent tr) as (evs & Htr & Hfit & Hcalls & Hlen).
      assert (forall l : list (Event SignedOrder),
                 Forall (fun e => is_client_call e = true) l ->
                 List.filter is_client_call l = l) as Hfilter.
      { induction 1 as [|e l He _ IH]; [reflexivity|].
        simpl. rewrite He, IH. reflexivity. }
      destruct (submit _ _ _ _ _ _ _) as [[[early|res]|err] tr1];
        simpl in Htr; subst tr1; simpl.
      * exists evs. split; [reflexivity|]. split; [exact Hfit|].
        rewrite (Hfilter _ Hcalls). split; [exact Hlen|discriminate].
      * exists (evs ++ [LogInfo "copy posted"])%list.
        rewrite <- app_assoc. split; [reflexivity|].
        split; [apply Forall_app; split; [exact Hfit|repeat constructor]|].
        rewrite List.filter_app, (Hfilter _ Hcalls). simpl. rewrite app_nil_r.
        split; [exact Hlen|discriminate].
      * exists (evs ++ [LogWarn "copy placement failed"])%list.
        rewrite <- app_assoc. split; [reflexivity|].
        split; [apply Forall_app; split; [exact Hfit|repeat constructor]|].
        rewrite List.filter_app, (Hfilter _ Hcalls). simpl. rewrite app_nil_r.
        split; [exact Hlen|discriminate].
    + exists [LogInfo "copy simulate"]. simpl.
      repeat split; [repeat constructor|lia].
  - exists [LogInfo "copy simulate"]. simpl.
    repeat split; [repeat constructor|lia].
Qed.

End PlacerMore.

(** ** Copy handler *)

Section HandlerMore.
Import Calculator CalculatorRef Placer Handler.
Variables Wallet SignedOrder : Type.
Variable new_Wallet : string -> completion Wallet.
Variable createMarketOrder :
  ClobClient Wallet -> UserMarketOrder.t -> completion SignedOrder.
Variable createOrder : ClobClient Wallet -> UserOrder.t -> completion SignedOrder.
Variable postOrder :
  ClobClient Wallet -> SignedOrder -> OrderType.t -> completion JsValue.

Lemma buildCopyIntent_precondition_fails fill config :
  precondition_fails fill config -> buildCopyIntent fill config = Return None.
Proof.
  intros [H|[[Hs Ha]|[[Hs Ha]|[H|[H|[(c & H & Hc)|(c & H & Hc)]]]]]].
  - unfold buildCopyIntent. rewrite H. reflexivity.
  - unfold buildCopyIntent. rewrite Hs, Ha.
    destruct (_ <=? _)%float; reflexivity.
  - unfold buildCopyIntent. rewrite Hs, Ha.
    destruct (_ <=? _)%float; reflexivity.
  - apply buildCopyIntent_not_positive. left. exact H.
  - apply buildCopyIntent_not_positive. right. exact H.
  - destruct (parses_positive (CopyFill.usdc fill)) eqn:Hu.
    + apply scaled_amount_Some in H as (s & cs & Hs & Hcs & Hle); [|exact Hc].
      apply parses_positive_toBigInt in Hu as (u & Hu & _).
      destruct (applyScale_Return_any _ _ _ u Hcs) as (cu & Hcu).
      eapply buildCopyIntent_scaled; eauto.
    + apply buildCopyIntent_not_positive. right. exact Hu.
  - destruct (parses_positive (CopyFill.shares fill)) eqn:Hs.
    + apply scaled_amount_Some in H as (u & cu & Hu & Hcu & Hle); [|exact Hc].
      apply parses_positive_toBigInt in Hs as (s & Hs & _).
      destruct (applyScale_Return_any _ _ _ s Hcu) as (cs & Hcs).
      eapply buildCopyIntent_scaled; eauto.
    + apply buildCopyIntent_not_positive. left. exact Hs.
Qed.

(** [buildCopyIntent] throws only when one of the two conversions of the
    configuration to a bigint does. *)
Lemma buildCopyIntent_returns fill config scaled bps :
  BigInt_of_number (Math_floor (CopyConfig.scale config * Number_of_bigint SCALE)%float)
  = Return scaled ->
  BigInt_of_number (CopyConfig.slippageBps config) = Return bps ->
  exists r, buildCopyIntent fill config = Return r.
Proof.
  intros Hscale Hbps. unfold buildCopyIntent, applyScale, applySlippage.
  rewrite Hscale, Hbps. simpl.
  repeat match goal with
         | |- context [if ?b then _ else _] => destruct b
         end; eauto.
Qed.

(** [handle] is [buildCopyIntent] followed by [place]: a fill that fails a
    precondition of [buildCopyIntent] gives null and leaves no trace, so
    nothing is logged and the venue is not called; a fill that gives an
    intent gives the result of placing it; [handle] throws exactly when
    [buildCopyIntent] does, leaving no trace either, and so never when the
    configured scale and slippage convert to bigints. *)
Theorem handle_is_build_then_place (h : Handler Wallet) (fill : CopyFill.t)
    (tr : list (Event SignedOrder)) :
  (precondition_fails fill (copyConfig h) ->
   handle createMarketOrder createOrder postOrder h fill tr = (Return None, tr))
  /\ (forall intent,
         buildCopyIntent fill (copyConfig h) = Return (Some intent) ->
         exists r tr',
           place createMarketOrder createOrder postOrder (placer h) intent tr
           = (Return r, tr')
           /\ handle createMarketOrder createOrder postOrder h fill tr
              = (Return (Some r), tr'))
  /\ (forall err,
         fst (handle createMarketOrder createOrder postOrder h fill tr) = Throw err
         <-> buildCopyIntent fill (copyConfig h) = Throw err)
  /\ (forall err,
         fst (handle createMarketOrder createOrder postOrder h fill tr) = Throw err ->
         snd (handle createMarketOrder createOrder postOrder h fill tr) = tr)
  /\ (forall scaled bps,
         BigInt_of_number
           (Math_floor (CopyConfig.scale (copyConfig h) * Number_of_bigint SCALE)%float)
         = Return scaled ->
         BigInt_of_number (CopyConfig.slippageBps (copyConfig h)) = Return bps ->
         exists r tr',
           handle createMarketOrder createOrder postOrder h fill tr = (Return r, tr')).
Proof.
  assert (forall intent,
             buildCopyIntent fill (copyConfig h) = Return (Some intent) ->
             exists r tr',
               place createMarketOrder createOrder postOrder (placer h) intent tr
               = (Return r, tr')
               /\ handle createMarketOrder createOrder postOrder h fill tr
                  = (Return (Some r), tr')) as Hsome.
  { intros intent Hb.
    destruct (place_returns _ _ createMarketOrder createOrder postOrder
                            (placer h) intent tr) as (r & tr' & Hp).
    exists r, tr'. split; [exact Hp|].
    unfold handle, bind, ret. rewrite Hb. rewrite Hp. reflexivity. }
  split; [|split; [exact Hsome|split; [|split]]].
  - intros Hfail. unfold handle, bind, ret.
    rewrite (buildCopyIntent_precondition_fails _ _ Hfail). reflexivity.
  - intros err. destruct (buildCopyIntent fill (copyConfig h)) as [[intent|]|e] eqn:Hb.
    + destruct (Hsome intent eq_refl) as (r & tr' & _ & ->). simpl.
      split; discriminate.
    + unfold handle, bind, ret. rewrite Hb. simpl. split; discriminate.
    + unfold handle, bind, ret. rewrite Hb. simpl.
      split; intros [= ->]; reflexivity.
  - intros err. destruct (buildCopyIntent fill (copyConfig h)) as [[intent|]|e] eqn:Hb.
    + destruct (Hsome intent eq_refl) as (r & tr' & _ & ->). simpl. discriminate.
    + unfold handle, bind, ret. rewrite Hb. reflexivity.
    + unfold handle, bind, ret. rewrite Hb. reflexivity.
  - intros scaled bps Hscale Hbps.
    destruct (buildCopyIntent_returns fill _ _ _ Hscale Hbps) as ([intent|] & Hb).
    + destruct (Hsome intent Hb) as (r & tr' & _ & ->). eauto.
    + unfold handle, bind, ret. rewrite Hb. eauto.
Qed.

(** Creating the handler fails exactly when a private key is configured
    and the wallet constructor rejects it, whether or not the
    configuration is simulate-only; otherwise the handler is created, and
    its copy configuration is read off the two parts of the application
    configuration. *)
Theorem createCopyHandler_fails_only_on_wallet (config : AppConfig.t)
    (settings : CopySettings.t) (tr : list (Event SignedOrder)) :
  (forall err,
      fst (createCopyHandler new_Wallet config settings tr) = Throw err
      <-> truthy (AppConfig.privateKey config) = true
          /\ new_Wallet (default "" (AppConfig.privateKey config)) = Throw err)
  /\ (forall h,
         fst (createCopyHandler new_Wallet config settings tr) = Return h ->
         Placer.config (placer h) = config
         /\ copyConfig h
            = {| CopyConfig.scale := CopySettings.copyScale settings;
                 CopyConfig.slippageBps := CopySettings.copySlippageBps settings;
                 CopyConfig.orderType := AppConfig.copyOrderType config;
                 CopyConfig.simulateOnly := AppConfig.copySimulateOnly config;
                 CopyConfig.allowBuy := CopySettings.copyAllowBuy settings;
                 CopyConfig.allowSell := CopySettings.copyAllowSell settings |}
         /\ (AppConfig.copySimulateOnly config = true -> enabled (placer h) = false)).
Proof.
  unfold createCopyHandler, createCopyPlacer, bind, ret, emit.
  destruct (truthy (AppConfig.privateKey config)); simpl.
  - destruct (new_Wallet _) as [w|e]; simpl.
    + split.
      * intros err.
        destruct (negb (negb (AppConfig.copySimulateOnly config) && _)); simpl;
          split; [discriminate|intros [_ H]; discriminate H
                 |discriminate|intros [_ H]; discriminate H].
      * intros h.
        destruct (AppConfig.copySimulateOnly config) eqn:Hsim; simpl.
        -- intros [= <-]. simpl. auto.
        -- destruct (_ && _); simpl; intros [= <-]; simpl;
             repeat split; discriminate.
    + split.
      * intros err. split; [intros [= ->]; auto|intros [_ [= ->]]; reflexivity].
      * intros h. discriminate.
  - split.
    + intros err. rewrite !andb_false_r. simpl.
      split; [discriminate|intros [H _]; discriminate H].
    + intros h. rewrite !andb_false_r. simpl. intros [= <-]. simpl.
      repeat split.
Qed.

End HandlerMore.

(** ** From a decoded call to the fill that is copied *)

Section PipelineMore.
Import Decoder DecoderRef RoleInference Strategy Examples.

(** The side and the token that [computeFillForTarget] reports are those of
    the taker order. *)
Lemma breakdown_side_and_token (decoded : MatchDecoded.t) (target : string) :
  String.eqb (MatchDecoded.functionName decoded) "matchOrders" = true ->
  exists r,
    computeFillForTarget (Some decoded) target = Some r
    /\ FillBreakdown.side r
       = side_of (Order.side (default Order.empty
                                (MatchArgs.takerOrder <$> MatchDecoded.args decoded)))
    /\ FillBreakdown.tokenId r
       = (if truthy_bigint
               (Order.tokenId (default Order.empty
                                 (MatchArgs.takerOrder <$> MatchDecoded.args decoded)))
          then String_of_bigint
                 <$> Order.tokenId (default Order.empty
                                      (MatchArgs.takerOrder <$> MatchDecoded.args decoded))
          else None).
Proof.
  intros Hname. unfold computeFillForTarget. rewrite Hname. simpl.
  set (args := MatchDecoded.args decoded).
  set (takerOrder := default Order.empty (MatchArgs.takerOrder <$> args)).
  destruct (lower_is (Order.maker takerOrder) (toLowerCase target)
            || lower_is (Order.signer takerOrder) (toLowerCase target)).
  - destruct (side_of _); simpl; eexists; repeat split.
  - destruct (0 <? length _)%nat.
    + destruct (fold_left _ _ _). simpl. eexists; repeat split.
    + simpl. eexists; repeat split.
Qed.

(** For an event that a watcher emitted for a decoded call, the strategy
    hands a fill to the copy handler exactly when the call is a
    [matchOrders] call whose taker order has a non-zero token id; the fill
    then carries the hash of the event and the token id and the side of
    the taker order, whatever part the target has in the call. *)
Theorem copied_fill_has_taker_side_and_token (hash : option string)
    (decoded : option MatchDecoded.t) (target : string) :
  match copy_fill hash (Some (event_info decoded target)) decoded target with
  | Some fill =>
      exists d tokenId,
        decoded = Some d
        /\ MatchDecoded.functionName d = "matchOrders"
        /\ Order.tokenId (default Order.empty
                            (MatchArgs.takerOrder <$> MatchDecoded.args d))
           = Some tokenId
        /\ tokenId <> 0
        /\ CopyFill.tokenId fill = String_of_bigint tokenId
        /\ CopyFill.side fill
           = side_of (Order.side (default Order.empty
                                    (MatchArgs.takerOrder <$> MatchDecoded.args d)))
        /\ CopyFill.hash fill = hash
  | None =>
      forall d,
        decoded = Some d ->
        MatchDecoded.functionName d = "matchOrders" ->
        truthy_bigint (Order.tokenId (default Order.empty
                                        (MatchArgs.takerOrder <$> MatchDecoded.args d)))
        = false
  end.
Proof.
  destruct decoded as [d|]; [|simpl; intros d' [=]].
  destruct (String.eqb (MatchDecoded.functionName d) "matchOrders") eqn:Hname.
  - destruct (breakdown_side_and_token d target Hname) as (r & Hr & Hside & _).
    unfold copy_fill, event_info. rewrite Hr.
    unfold inferRoleAndSide. rewrite Hname. simpl.
    set (takerOrder := default Order.empty (MatchArgs.takerOrder <$> MatchDecoded.args d))
      in *.
    destruct (Order.tokenId takerOrder) as [tokenId|] eqn:Htok; simpl.
    + destruct (tokenId =? 0) eqn:Hz; simpl.
      * intros d' [= <-] _. fold takerOrder. rewrite Htok. simpl. rewrite Hz.
        reflexivity.
      * unfold truthy_string.
        destruct (String.eqb_spec (String_of_bigint tokenId) "") as [He|_];
          [destruct (String_of_bigint_nonempty _ He)|]. simpl.
        exists d, tokenId. apply String.eqb_eq in Hname. apply Z.eqb_neq in Hz.
        repeat split; auto.
    + intros d' [= <-] _. fold takerOrder. rewrite Htok. reflexivity.
  - unfold copy_fill, event_info, inferRoleAndSide. rewrite Hname. simpl.
    intros d' [= <-] Hn. rewrite Hn in Hname. discriminate Hname.
Qed.

(** A [matchOrders] call in which the target is neither maker nor signer
    of any order is still handed to the copy handler, as a trade of the
    taker's: the shares are the amount the taker receives (the amount the
    taker fills, when none is received), the cash is the amount the taker
    fills (the amount received, when nothing is filled), and the side is
    the taker order's. *)
Theorem stranger_call_is_copied_from_taker_amounts (hash : option string)
    (a : MatchArgs.t) (target : string) (tokenId : Z) :
  maker_or_signer_is target (MatchArgs.takerOrder a) = false ->
  forallb (fun order => negb (maker_or_signer_is target order))
          (MatchArgs.makerOrders a) = true ->
  Order.tokenId (MatchArgs.takerOrder a) = Some tokenId ->
  tokenId <> 0 ->
  copy_fill hash
            (Some (event_info (Some {| MatchDecoded.functionName := "matchOrders";
                                       MatchDecoded.args := Some a |}) target))
            (Some {| MatchDecoded.functionName := "matchOrders";
                     MatchDecoded.args := Some a |}) target
  = Some {| CopyFill.hash := hash;
            CopyFill.tokenId := String_of_bigint tokenId;
            CopyFill.side := side_of (Order.side (MatchArgs.takerOrder a));
            CopyFill.shares :=
              nullish (String_if_truthy (MatchArgs.takerReceiveAmount a))
                      (String_if_truthy (MatchArgs.takerFillAmount a));
            CopyFill.usdc :=
              nullish (String_if_truthy (MatchArgs.takerFillAmount a))
                      (String_if_truthy (MatchArgs.takerReceiveAmount a)) |}.
Proof.
  intros Htaker Hmakers Htok Hnz.
  unfold copy_fill. rewrite (stranger_breakdown a target Htaker Hmakers).
  unfold event_info, inferRoleAndSide. simpl. rewrite Htok. simpl.
  apply Z.eqb_neq in Hnz. rewrite Hnz. simpl.
  unfold truthy_string.
  destruct (String.eqb_spec (String_of_bigint tokenId) "") as [He|_];
    [destruct (String_of_bigint_nonempty _ He)|].
  reflexivity.
Qed.

(** The call in which [target] sells as a maker, seen by a watcher of
    [proxy]: a BUY of 500 shares for 150. *)
Lemma stranger_call_is_copied_witness :
  copy_fill (Some "0xabc") (Some (event_info (Some maker_sell_call) proxy))
            (Some maker_sell_call) proxy
  = Some {| CopyFill.hash := Some "0xabc";
            CopyFill.tokenId := "77";
            CopyFill.side := BUY;
            CopyFill.shares := Some "500";
            CopyFill.usdc := Some "150" |}.
Proof.
  exact (stranger_call_is_copied_from_taker_amounts
           (Some "0xabc")
           {| MatchArgs.takerOrder := leg other other 0 300 1000;
              MatchArgs.makerOrders := [leg target target 1 1000 300];
              MatchArgs.takerFillAmount := Some 150;
              MatchArgs.takerReceiveAmount := Some 500;
              MatchArgs.makerFillAmounts := [500];
              MatchArgs.takerFeeAmount := Some 0;
              MatchArgs.makerFeeAmounts := [0] |}
           proxy 77 eq_refl eq_refl eq_refl ltac:(discriminate)).
Defined.

End PipelineMore.

(** ** Gamma HTTP client: the retry loop *)

Section GammaClientMore.
Import GammaClient GammaClientRef GammaExamples.

Lemma first_success_bounds fetch more :
  forall n : nat,
    ((n < snd (first_success fetch n more))%nat
     /\ (snd (first_success fetch n more) <= n + more + 1)%nat)
    /\ (forall err, fst (first_success fetch n more) = Throw err ->
                    snd (first_success fetch n more) = (n + more + 1)%nat)
    /\ (forall k, (n <= k)%nat -> (k < snd (first_success fetch n more) - 1)%nat ->
                  exists err, attempt_result (fetch k) = Throw err)
    /\ attempt_result (fetch (snd (first_success fetch n more) - 1)%nat)
       = fst (first_success fetch n more).
Proof.
  induction more as [|more IH]; intros n; simpl.
  - destruct (attempt_result (fetch n)) as [v|e] eqn:Hn; simpl.
    + repeat split; try lia; try discriminate.
      rewrite Nat.sub_0_r. exact Hn.
    + repeat split; try lia.
      rewrite Nat.sub_0_r. exact Hn.
  - destruct (attempt_result (fetch n)) as [v|e] eqn:Hn; simpl.
    + repeat split; try lia; try discriminate.
      rewrite Nat.sub_0_r. exact Hn.
    + destruct (IH (S n)) as (Hb & Hall & Hfail & Hlast).
      split; [lia|]. split.
      * intros err Herr. rewrite (Hall err Herr). lia.
      * split; [|exact Hlast].
        intros k Hk Hlt. destruct (decide (k = n)) as [->|Hne]; [eauto|].
        apply Hfail; lia.
Qed.

(** The loop, entered at any turn. *)
Lemma loop_is_first_success retries_option path fetch :
  forall fuel attempt lastError n log,
    0 <= attempt <= retries retries_option ->
    (Z.to_nat (retries retries_option - attempt) < fuel)%nat ->
    exists log',
      loop retries_option path fetch fuel attempt lastError n log
      = Some {| result :=
                  fst (first_success fetch n
                         (Z.to_nat (retries retries_option - attempt)));
                requests :=
                  snd (first_success fetch n
                         (Z.to_nat (retries retries_option - attempt)));
                logged := log' |}.
Proof.
  set (R := retries retries_option).
  induction fuel as [|fuel IH]; intros attempt lastError n log Hatt Hfuel; [lia|].
  cbn [loop]. fold R.
  destruct (Z.leb_spec attempt R) as [_|Hgt]; [|lia].
  destruct (Z.ltb_spec attempt R) as [Hlt|Hge].
  - (* a failure is followed by one more turn *)
    assert (Z.to_nat (R - attempt) = S (Z.to_nat (R - (attempt + 1)))) as Hmore
      by lia.
    rewrite Hmore.
    assert (forall e l,
               attempt_result (fetch n) = Throw e ->
               forall lastError',
               exists log',
                 loop retries_option path fetch fuel (attempt + 1) lastError' (S n) l
                 = Some {| result :=
                             fst (first_success fetch n
                                    (S (Z.to_nat (R - (attempt + 1)))));
                           requests :=
                             snd (first_success fetch n
                                    (S (Z.to_nat (R - (attempt + 1)))));
                           logged := log' |}) as Hnext.
    { intros e l He lastError'. cbn [first_success]. rewrite He.
      apply IH; lia. }
    destruct (fetch n) as [res|err] eqn:Hfetch.
    + destruct (ok res) eqn:Hok; cbn [negb].
      * destruct (json res) as [value|err] eqn:Hjson.
        -- cbn [first_success]. unfold attempt_result. rewrite Hfetch, Hok, Hjson.
           eauto.
        -- eapply Hnext. unfold attempt_result. rewrite ?Hfetch, Hok, Hjson.
           reflexivity.
      * cbn [andb]. destruct (shouldRetry (status res));
          eapply Hnext; unfold attempt_result; rewrite ?Hfetch, Hok; reflexivity.
    + eapply Hnext. unfold attempt_result. rewrite ?Hfetch. reflexivity.
  - (* the last turn *)
    assert (attempt = R) as -> by lia.
    replace (Z.to_nat (R - R)) with 0%nat by lia.
    cbn [first_success]. unfold attempt_result.
    destruct (fetch n) as [res|err] eqn:Hfetch.
    + destruct (ok res) eqn:Hok; cbn [negb andb].
      * destruct (json res) as [value|err] eqn:Hjson; eauto.
      * eauto.
    + eauto.
Qed.

(** [fetchJson] with a whole number of retries ends, after at least one
    and at most [retries + 1] requests, with the parsed body of the first
    request that succeeds, and with the error of the last request when none
    does. Every failing request is followed by another one while requests
    remain -- a thrown [fetch], an unreadable body, and a response that is
    not [ok], whatever its status: [shouldRetry] has no bearing on the
    number of requests or on the result. *)
Theorem fetchJson_retries_every_failure (retries_option : option Z)
    (path : string) (fetch : nat -> completion Response) (fuel : nat) :
  (Z.to_nat (retries retries_option) < fuel)%nat ->
  exists o,
    fetchJson retries_option path fetch fuel = Some o
    /\ (result o, requests o)
       = first_success fetch 0 (Z.to_nat (retries retries_option))
    /\ (1 <= requests o)%nat
    /\ (requests o <= Z.to_nat (retries retries_option) + 1)%nat
    /\ (forall err, result o = Throw err ->
                    requests o = (Z.to_nat (retries retries_option) + 1)%nat)
    /\ (forall k, (k < requests o - 1)%nat ->
                  exists err, attempt_result (fetch k) = Throw err)
    /\ attempt_result (fetch (requests o - 1)%nat) = result o.
Proof.
  intros Hfuel. unfold fetchJson.
  assert (0 <= retries retries_option) as Hpos by (unfold retries; lia).
  destruct (loop_is_first_success retries_option path fetch fuel 0 None 0%nat []
              ltac:(lia) ltac:(rewrite Z.sub_0_r; exact Hfuel)) as (log' & Hloop).
  rewrite Z.sub_0_r in Hloop.
  destruct (first_success_bounds fetch (Z.to_nat (retries retries_option)) 0%nat)
    as (Hb & Hall & Hfail & Hlast).
  eexists. split; [exact Hloop|]. cbn [result requests].
  split; [symmetry; apply surjective_pairing|].
  split; [lia|]. split; [lia|]. split; [exact Hall|]. split; [|exact Hlast].
  intros k Hk. apply Hfail; [lia|exact Hk].
Qed.

(** One retry, a server that answers 404 and then 200: the 404 is
    retried, and the second body is returned. *)
Lemma fetchJson_retries_every_failure_witness :
  exists o,
    fetchJson None "/markets" not_found_once 2 = Some o
    /\ result o = Return (JsString "ok")
    /\ requests o = 2%nat.
Proof.
  destruct (fetchJson_retries_every_failure None "/markets" not_found_once 2
              ltac:(vm_compute; lia)) as (o & Ho & Hfirst & _).
  exists o. split; [exact Ho|].
  vm_compute in Hfirst. injection Hfirst as Hr Hn. split; assumption.
Defined.

End GammaClientMore.

(** ** Gamma market resolver *)

Section GammaResolverMore.
Import TtlCache GammaResolver GammaResolverRef GammaExamples.
Variable ttlMs_option : option float.
Variable negativeTtlMs_option : option float.

(** The token loop of [put] writes one entry under each token key and
    leaves the other keys alone. *)
Lemma put_tokens_lookup now market ttl tokenIds :
  forall (c : TtlCache.t (option GammaMarket.t)) k,
    TtlCache.inflight
      (fold_left
         (fun c tokenId => snd (set now (cacheKey "token" tokenId) market ttl c))
         tokenIds c)
    = TtlCache.inflight c
    /\ (k ∈ (cacheKey "token" <$> tokenIds) ->
        store (fold_left
                 (fun c tokenId => snd (set now (cacheKey "token" tokenId) market ttl c))
                 tokenIds c) !! k
        = Some (CacheEntry.mk market (now + Math_max 0 ttl)%float))
    /\ (k ∉ (cacheKey "token" <$> tokenIds) ->
        store (fold_left
                 (fun c tokenId => snd (set now (cacheKey "token" tokenId) market ttl c))
                 tokenIds c) !! k
        = store c !! k).
Proof.
  induction tokenIds as [|t tokenIds IH]; intros c k; cbn [fold_left fmap list_fmap].
  - split; [reflexivity|]. split; [intros H; inversion H|reflexivity].
  - destruct (IH (snd (set now (cacheKey "token" t) market ttl c)) k)
      as (Hin & Hhit & Hmiss).
    split; [rewrite Hin; reflexivity|]. split.
    + intros Hk.
      destruct (decide (k ∈ (cacheKey "token" <$> tokenIds))) as [Hl|Hl];
        [exact (Hhit Hl)|].
      rewrite (Hmiss Hl). apply elem_of_cons in Hk as [->|Hk]; [|contradiction].
      simpl. apply lookup_insert_eq.
    + intros Hk. apply not_elem_of_cons in Hk as [Hne Hl].
      rewrite (Hmiss Hl). simpl. apply lookup_insert_ne. congruence.
Qed.

(** After [put(key, market)] with a market, every key of the market holds
    the same entry, and every other key is as before. *)
Lemma put_market_lookup now key m (c : TtlCache.t (option GammaMarket.t)) k :
  TtlCache.inflight (put ttlMs_option negativeTtlMs_option now key (Some m) c)
  = TtlCache.inflight c
  /\ (k ∈ keys_of key m ->
      store (put ttlMs_option negativeTtlMs_option now key (Some m) c) !! k
      = Some (CacheEntry.mk (Some m) (now + Math_max 0 (ttlMs ttlMs_option))%float))
  /\ (k ∉ keys_of key m ->
      store (put ttlMs_option negativeTtlMs_option now key (Some m) c) !! k
      = store c !! k).
Proof.
  unfold put, keys_of.
  set (e := CacheEntry.mk (Some m) (now + Math_max 0 (ttlMs ttlMs_option))%float).
  set (c1 := snd (set now (cacheKey "id" (GammaMarket.id m)) (Some m)
                      (ttlMs ttlMs_option)
                      (snd (set now key (Some m) (ttlMs ttlMs_option) c)))).
  assert (TtlCache.inflight c1 = TtlCache.inflight c) as Hin1 by reflexivity.
  assert (forall k, k = key \/ k = cacheKey "id" (GammaMarket.id m) ->
                    store c1 !! k = Some e) as Hhit1.
  { intros k' [->| ->]; subst c1; simpl.
    - destruct (decide (key = cacheKey "id" (GammaMarket.id m))) as [<-|Hne].
      + apply lookup_insert_eq.
      + rewrite lookup_insert_ne by congruence. apply lookup_insert_eq.
    - apply lookup_insert_eq. }
  assert (forall k, k <> key -> k <> cacheKey "id" (GammaMarket.id m) ->
                    store c1 !! k = store c !! k) as Hmiss1.
  { intros k' H1 H2. subst c1. simpl.
    rewrite !lookup_insert_ne by congruence. reflexivity. }
  clearbody c1.
  set (slugKeys := match GammaMarket.slug m with
                   | Some slug => if truthy_string slug then [cacheKey "slug" slug] else []
                   | None => []
                   end).
  set (c2 := match GammaMarket.slug m with
             | Some slug =>
                 if truthy_string slug
                 then snd (set now (cacheKey "slug" slug) (Some m) (ttlMs ttlMs_option) c1)
                 else c1
             | None => c1
             end).
  assert (TtlCache.inflight c2 = TtlCache.inflight c
          /\ (forall k, k = key \/ k = cacheKey "id" (GammaMarket.id m) \/ k ∈ slugKeys ->
                        store c2 !! k = Some e)
          /\ (forall k, k <> key -> k <> cacheKey "id" (GammaMarket.id m) ->
                        k ∉ slugKeys -> store c2 !! k = store c !! k))
    as (Hin2 & Hhit2 & Hmiss2).
  { subst c2 slugKeys. destruct (GammaMarket.slug m) as [slug|].
    - destruct (truthy_string slug); simpl.
      + split; [exact Hin1|]. split.
        * intros k' Hk'.
          destruct (decide (k' = cacheKey "slug" slug)) as [->|Hne];
            [apply lookup_insert_eq|].
          rewrite lookup_insert_ne by congruence. apply Hhit1.
          destruct Hk' as [H|[H|H]]; auto.
          apply list_elem_of_singleton in H. contradiction.
        * intros k' H1 H2 H3. apply not_elem_of_cons in H3 as [H3 _].
          rewrite lookup_insert_ne by congruence. apply Hmiss1; assumption.
      + split; [exact Hin1|]. split.
        * intros k' [H|[H|H]]; [apply Hhit1; auto|apply Hhit1; auto|inversion H].
        * intros k' H1 H2 _. apply Hmiss1; assumption.
    - split; [exact Hin1|]. split.
      + intros k' [H|[H|H]]; [apply Hhit1; auto|apply Hhit1; auto|inversion H].
      + intros k' H1 H2 _. apply Hmiss1; assumption. }
  clearbody c2. fold slugKeys.
  assert (forall k', k' ∈ (key :: cacheKey "id" (GammaMarket.id m)
                               :: slugKeys
                               ++ (cacheKey "token"
                                     <$> default [] (GammaMarket.clobTokenIds m)))%list
                     <-> (k' = key \/ k' = cacheKey "id" (GammaMarket.id m)
                          \/ k' ∈ slugKeys)
                         \/ k' ∈ (cacheKey "token"
                                    <$> default [] (GammaMarket.clobTokenIds m)))
    as Hkeys.
  { intros k'. rewrite !elem_of_cons, elem_of_app. tauto. }
  destruct (GammaMarket.clobTokenIds m) as [tokenIds|]; cbn [default] in *.
  - destruct (put_tokens_lookup now (Some m) (ttlMs ttlMs_option) tokenIds c2 k)
      as (Hin & Hhit & Hmiss).
    split; [rewrite Hin; exact Hin2|]. split.
    + intros Hk. apply Hkeys in Hk.
      destruct (decide (k ∈ (cacheKey "token" <$> tokenIds))) as [Hl|Hl];
        [exact (Hhit Hl)|].
      rewrite (Hmiss Hl). apply Hhit2. destruct Hk as [Hk|Hk]; [exact Hk|contradiction].
    + intros Hk. rewrite Hkeys in Hk.
      rewrite Hmiss by tauto. apply Hmiss2; tauto.
  - split; [exact Hin2|]. split.
    + intros Hk. apply Hkeys in Hk. apply Hhit2.
      destruct Hk as [Hk|Hk]; [exact Hk|inversion Hk].
    + intros Hk. rewrite Hkeys in Hk. apply Hmiss2; tauto.
Qed.

(** When a fetcher fulfils with a market, the market is stored under the
    key that was asked for, under its id, under its slug when it has one,
    and under each of its token ids: until [ttlMs] has passed, [getCached]
    and every resolve under one of these keys answer with the market from
    the cache, and no fetcher is launched. Keys that are not the market's
    are left as they were. *)
Theorem resolved_market_is_cached_under_all_keys (r : GammaResolver.t)
    (now now' : float) (key k : string) (m : GammaMarket.t) (fresh : promise) :
  k ∈ keys_of key m ->
  (now + Math_max 0 (ttlMs ttlMs_option) <=? now')%float = false ->
  let r1 := snd (fetcher_fulfilled ttlMs_option negativeTtlMs_option
                                   now key (Some m) r) in
  fst (getCached now' k r1) = Some (Some m)
  /\ fst (resolveWithFetcher now' k fresh r1) = Cached (Some m)
  /\ GammaResolver.inflight (snd (resolveWithFetcher now' k fresh r1))
     = delete key (GammaResolver.inflight r)
  /\ fst (resolveById now' (GammaMarket.id m) fresh r1) = Cached (Some m)
  /\ (forall k', k' ∉ keys_of key m ->
                 store (cache r1) !! k' = store (cache r) !! k').
Proof.
  intros Hk Hlive r1.
  assert (forall k0, k0 ∈ keys_of key m ->
                     get now' k0 (cache r1) = (Some (Some m), cache r1)) as Hget.
  { intros k0 Hk0. unfold get. subst r1. unfold fetcher_fulfilled.
    cbn [snd cache].
    destruct (put_market_lookup now key m (cache r) k0) as (_ & Hhit & _).
    rewrite (Hhit Hk0). cbn [CacheEntry.expiresAt CacheEntry.value].
    rewrite Hlive. reflexivity. }
  assert (forall k0, k0 ∈ keys_of key m ->
                     fst (resolveWithFetcher now' k0 fresh r1) = Cached (Some m)
                     /\ GammaResolver.inflight (snd (resolveWithFetcher now' k0 fresh r1))
                        = delete key (GammaResolver.inflight r)) as Hres.
  { intros k0 Hk0. unfold resolveWithFetcher, fromCache. rewrite (Hget k0 Hk0).
    simpl. split; reflexivity. }
  split; [unfold getCached; rewrite (Hget k Hk); reflexivity|].
  split; [apply (Hres k Hk)|]. split; [apply (Hres k Hk)|].
  split.
  - apply Hres. unfold keys_of. apply elem_of_cons. right. apply elem_of_cons. left.
    reflexivity.
  - intros k' Hk'. subst r1. unfold fetcher_fulfilled. cbn [snd cache].
    destruct (put_market_lookup now key m (cache r) k') as (_ & _ & Hmiss).
    exact (Hmiss Hk').
Qed.

(** A lookup that found nothing, or whose request failed, is remembered as
    null under the key that was asked for and under no other: until
    [negativeTtlMs] has passed a resolve of that key answers null from the
    cache and launches no fetcher, and from then on it launches one
    again. *)
Theorem failed_lookup_is_cached_as_null (r : GammaResolver.t)
    (now now' : float) (key : string) (fresh : promise) :
  let r1 := snd (fetcher_fulfilled ttlMs_option negativeTtlMs_option now key None r) in
  (forall err tokenId,
      market_fetcher (Throw err) = None /\ token_fetcher (Throw err) tokenId = None
      /\ token_fetcher (Return []) tokenId = None)
  /\ ((now + Math_max 0 (negativeTtlMs negativeTtlMs_option) <=? now')%float = false ->
      fst (resolveWithFetcher now' key fresh r1) = Cached None
      /\ GammaResolver.inflight (snd (resolveWithFetcher now' key fresh r1))
         = delete key (GammaResolver.inflight r))
  /\ ((now + Math_max 0 (negativeTtlMs negativeTtlMs_option) <=? now')%float = true ->
      fst (resolveWithFetcher now' key fresh r1) = Launched fresh
      /\ GammaResolver.inflight (snd (resolveWithFetcher now' key fresh r1)) !! key
         = Some fresh)
  /\ (forall k, k <> key -> store (cache r1) !! k = store (cache r) !! k).
Proof.
  intros r1. split; [intros; repeat split|].
  subst r1. unfold resolveWithFetcher, fromCache, fetcher_fulfilled, put, get, set.
  simpl. rewrite lookup_insert_eq. simpl.
  split; [|split].
  - intros ->. simpl. split; reflexivity.
  - intros ->. simpl. rewrite lookup_delete_eq. simpl.
    split; [reflexivity|apply lookup_insert_eq].
  - intros k Hne. apply lookup_insert_ne. congruence.
Qed.

(** What the fetcher of [resolveByClobTokenId] gives: nothing when the
    listing failed or is empty, and otherwise the first listed market with
    the requested token among its token ids -- its own list when that has
    the token, its own list with the token appended when it does not, and
    the token alone when it has no list. *)
Theorem token_fetcher_lists_token (listed : completion (list GammaMarket.t))
    (tokenId : string) :
  match token_fetcher listed tokenId with
  | Some m =>
      tokenId ∈ default [] (GammaMarket.clobTokenIds m)
      /\ (forall key, cacheKey "token" tokenId ∈ keys_of key m)
      /\ exists first others,
          listed = Return (first :: others)
          /\ GammaMarket.id m = GammaMarket.id first
          /\ GammaMarket.slug m = GammaMarket.slug first
          /\ GammaMarket.rest m = GammaMarket.rest first
          /\ match GammaMarket.clobTokenIds first with
             | Some tokenIds =>
                 GammaMarket.clobTokenIds m
                 = Some (if bool_decide (tokenId ∈ tokenIds) then tokenIds
                         else (tokenIds ++ [tokenId])%list)
             | None => GammaMarket.clobTokenIds m = Some [tokenId]
             end
  | None => listed = Return [] \/ exists err, listed = Throw err
  end.
Proof.
  assert (forall m, tokenId ∈ default [] (GammaMarket.clobTokenIds m) ->
                    forall key, cacheKey "token" tokenId ∈ keys_of key m) as Hkey.
  { intros m Hin key. unfold keys_of.
    apply elem_of_cons. right. apply elem_of_cons. right.
    apply elem_of_app. right. apply list_elem_of_fmap. eauto. }
  unfold token_fetcher, getMarketByClobTokenId.
  destruct listed as [[|first others]|err]; simpl; [auto|..|eauto].
  destruct (GammaMarket.clobTokenIds first) as [tokenIds|] eqn:Hids; simpl.
  - destruct (bool_decide (tokenId ∈ tokenIds)) eqn:Hdec; simpl.
    + pose proof (proj1 (bool_decide_eq_true _) Hdec) as Hin.
      split; [exact Hin|]. split; [apply Hkey; exact Hin|].
      exists first, others. rewrite Hids, Hdec. repeat split.
    + assert (tokenId ∈ (tokenIds ++ [tokenId])%list) as Hin
          by (apply elem_of_app; right; apply list_elem_of_singleton; reflexivity).
      split; [exact Hin|]. split; [apply Hkey; exact Hin|].
      exists first, others. rewrite Hids, Hdec. repeat split.
  - rewrite bool_decide_eq_true_2 by (apply list_elem_of_singleton; reflexivity).
    simpl.
    assert (tokenId ∈ [tokenId]) as Hin by (apply list_elem_of_singleton; reflexivity).
    split; [exact Hin|]. split; [apply Hkey; exact Hin|].
    exists first, others. rewrite Hids. repeat split.
Qed.

End GammaResolverMore.

Section GammaResolverExample.
Import TtlCache GammaResolver GammaResolverRef GammaExamples.

(** The example market resolved by token 77: its id is served from the
    cache half a minute later. *)
Lemma resolved_market_is_cached_witness :
  fst (resolveById 31000 "512" 2%nat
         (snd (fetcher_fulfilled None None 1000 "token:77" (Some market)
                 (createGammaResolver))))
  = Cached (Some market).
Proof.
  destruct (resolved_market_is_cached_under_all_keys None None
              createGammaResolver 1000 31000 "token:77" "token:78" market 2%nat)
    as (_ & _ & _ & H & _).
  - unfold keys_of. simpl. set_solver.
  - reflexivity.
  - exact H.
Defined.

End GammaResolverExample.

(** ** Token resolver *)

Section TokenResolverMore.
Import TtlCache TokenResolver TokenResolverRef.

Lemma step_keeps_found (r : TokenResolver.t) (o : op) (tokenId : string)
    (info : TokenInfo.t) :
  cache r !! tokenId = Some info ->
  completes tokenId o = false ->
  cache (step r o) !! tokenId = Some info.
Proof.
  intros Hc Ho. destruct o as [t fresh|t i]; simpl.
  - unfold resolve. destruct (cache r !! t); [exact Hc|].
    destruct (inflight r !! t); exact Hc.
  - simpl in Ho. apply String.eqb_neq in Ho.
    destruct i as [i|]; simpl; [|exact Hc].
    rewrite lookup_insert_ne by congruence. exact Hc.
Qed.

(** A token that was found stays found: after the fetch of a token
    fulfilled with its information, and whatever is resolved and fetched
    for other tokens afterwards, [resolve] answers with that information
    from the cache and never launches a fetch for the token again. A fetch
    that found nothing caches nothing: the next [resolve] of the token
    launches a new fetch. *)
Theorem token_resolver_caches_found_only (r : TokenResolver.t)
    (tokenId : string) (fresh : promise) :
  (forall info ops,
      forallb (fun o => negb (completes tokenId o)) ops = true ->
      resolve tokenId fresh (run ops (snd (fetched tokenId (Some info) r)))
      = (Cached info, run ops (snd (fetched tokenId (Some info) r))))
  /\ (cache r !! tokenId = None ->
      fst (resolve tokenId fresh (snd (fetched tokenId None r))) = Launched fresh
      /\ getCached tokenId (snd (fetched tokenId None r)) = None).
Proof.
  split.
  - intros info ops Hops.
    assert (cache (snd (fetched tokenId (Some info) r)) !! tokenId = Some info) as Hc
      by (simpl; apply lookup_insert_eq).
    generalize dependent (snd (fetched tokenId (Some info) r)).
    induction ops as [|o ops IH]; intros r1 Hc.
    + unfold run. simpl. unfold resolve. rewrite Hc. reflexivity.
    + simpl in Hops. apply andb_true_iff in Hops as [Ho Hops].
      apply negb_true_iff in Ho.
      apply (IH Hops (step r1 o)). apply step_keeps_found; assumption.
  - intros Hnone. unfold resolve, getCached, fetched. simpl. rewrite Hnone.
    rewrite lookup_delete_eq. split; reflexivity.
Qed.

End TokenResolverMore.

Section GammaResolverNegativeExample.
Import TtlCache GammaResolver.

(** A slug that was not found, asked for again four seconds later. *)
Lemma failed_lookup_is_cached_witness :
  fst (resolveWithFetcher 5000 "slug:nope" 2%nat
         (snd (fetcher_fulfilled None None 1000 "slug:nope" None
                 createGammaResolver)))
  = Cached None.
Proof.
  destruct (failed_lookup_is_cached_as_null None None createGammaResolver
              1000 5000 "slug:nope" 2%nat) as (_ & H & _).
  apply H. reflexivity.
Defined.

End GammaResolverNegativeExample.

(** ** Readable amounts *)

Section FormatMore.
Import DecimalRef Format FormatRef.

Lemma list_ascii_of_string_append (a b : string) :
  list_ascii_of_string (a ++ b)
  = (list_ascii_of_string a ++ list_ascii_of_string b)%list.
Proof.
  induction a as [|c a IH]; [reflexivity|].
  rewrite append_cons. simpl. f_equal. exact IH.
Qed.

(** The value of a numeral after an accumulator. *)
Lemma uint_value_acc (d : Decimal.uint) :
  forall acc,
    uint_value acc d
    = acc * 10 ^ Z.of_nat (length (list_ascii_of_string (NilEmpty.string_of_uint d)))
      + uint_value 0 d
    /\ 0 <= uint_value 0 d.
Proof.
  induction d as [|d IH|d IH|d IH|d IH|d IH|d IH|d IH|d IH|d IH|d IH];
    intros acc; [simpl; lia|..];
    cbn [uint_value NilEmpty.string_of_uint list_ascii_of_string length];
    rewrite Nat2Z.inj_succ, Z.pow_succ_r by lia;
    destruct (IH (acc * 10 + 0)) as [E0 H0]; destruct (IH (acc * 10 + 1)) as [E1 _];
    destruct (IH (acc * 10 + 2)) as [E2 _]; destruct (IH (acc * 10 + 3)) as [E3 _];
    destruct (IH (acc * 10 + 4)) as [E4 _]; destruct (IH (acc * 10 + 5)) as [E5 _];
    destruct (IH (acc * 10 + 6)) as [E6 _]; destruct (IH (acc * 10 + 7)) as [E7 _];
    destruct (IH (acc * 10 + 8)) as [E8 _]; destruct (IH (acc * 10 + 9)) as [E9 _];
    destruct (IH (0 * 10 + 0)) as [F0 _]; destruct (IH (0 * 10 + 1)) as [F1 _];
    destruct (IH (0 * 10 + 2)) as [F2 _]; destruct (IH (0 * 10 + 3)) as [F3 _];
    destruct (IH (0 * 10 + 4)) as [F4 _]; destruct (IH (0 * 10 + 5)) as [F5 _];
    destruct (IH (0 * 10 + 6)) as [F6 _]; destruct (IH (0 * 10 + 7)) as [F7 _];
    destruct (IH (0 * 10 + 8)) as [F8 _]; destruct (IH (0 * 10 + 9)) as [F9 _];
    pose proof (Z.pow_nonneg 10
                  (Z.of_nat (length (list_ascii_of_string (NilEmpty.string_of_uint d))))
                  ltac:(lia));
    split; nia.
Qed.

(** A numeral of a positive number has no more digits than a power of ten
    above the number has zeros. *)
Lemma to_uint_length (p : positive) (n : nat) :
  Z.pos p < 10 ^ Z.of_nat n ->
  (length (list_ascii_of_string (NilEmpty.string_of_uint (Pos.to_uint p))) <= n)%nat.
Proof.
  intros Hlt.
  assert (Pos.to_uint p = Decimal.unorm (Pos.to_uint p)) as Hnorm.
  { rewrite <- DecimalPos.Unsigned.to_of, DecimalPos.Unsigned.of_to. reflexivity. }
  pose proof (to_uint_value p) as Hval.
  pose proof (DecimalPos.Unsigned.to_uint_nonnil p) as Hnil.
  set (d := Pos.to_uint p) in *.
  assert (forall d' : Decimal.uint,
             0 <= uint_value 0 d'
             /\ forall k, uint_value k d'
                          = k * 10 ^ Z.of_nat (length (list_ascii_of_string
                                                         (NilEmpty.string_of_uint d')))
                            + uint_value 0 d') as Hacc.
  { intros d'. split; [apply (uint_value_acc d' 0)|]. intros k.
    apply (uint_value_acc d' k). }
  assert (forall m : nat, 10 ^ Z.of_nat m <= Z.pos p -> (m < n)%nat) as Hbound.
  { intros m Hm. apply Nat2Z.inj_lt.
    apply (Z.pow_lt_mono_r_iff 10); lia. }
  destruct d as [|d'|d'|d'|d'|d'|d'|d'|d'|d'|d'] eqn:Hd; [contradiction|..];
    try (cbn [NilEmpty.string_of_uint list_ascii_of_string length];
         apply Hbound; cbn [uint_value] in Hval;
         destruct (Hacc d') as [H0 Hk]; rewrite Hk in Hval;
         pose proof (Z.pow_nonneg 10
                       (Z.of_nat (length (list_ascii_of_string
                                            (NilEmpty.string_of_uint d'))))
                       ltac:(lia));
         nia).
  (* a leading zero *)
  exfalso. unfold Decimal.unorm in Hnorm. cbn [Decimal.nzhead] in Hnorm.
  destruct (Decimal.nzhead d') as [|x|x|x|x|x|x|x|x|x|x] eqn:Hhead;
    try discriminate Hnorm.
  - injection Hnorm as ->. simpl in Hval. discriminate Hval.
  - exact (DecimalFacts.nzhead_nonzero d' x Hhead).
Qed.

(** The decimal string of a non-negative bigint. *)
Lemma nonneg_digits (z : Z) :
  0 <= z ->
  exists l,
    String_of_bigint z = string_of_list_ascii l
    /\ l <> []
    /\ Forall (fun c => is_decimal_digit c = true) l
    /\ digits_value 10 0 l = Some z
    /\ forall n, 0 < z -> z < 10 ^ Z.of_nat n -> (length l <= n)%nat.
Proof.
  intros Hz. destruct z as [|p|p]; [| |lia].
  - exists ["0"%char]. repeat split; try discriminate; try lia.
    repeat constructor.
  - unfold String_of_bigint. simpl.
    destruct (to_uint_string p) as [Heq Hne].
    exists (list_ascii_of_string (NilEmpty.string_of_uint (Pos.to_uint p))).
    split; [exact Heq|]. split; [exact Hne|].
    split; [apply uint_chars_are_digits|].
    split; [rewrite digits_value_of_uint, to_uint_value; reflexivity|].
    intros n _ Hlt. apply to_uint_length. exact Hlt.
Qed.

Lemma digits_value_leading_zeros (k : nat) (l : list ascii) :
  digits_value 10 0 (repeat "0"%char k ++ l) = digits_value 10 0 l.
Proof. induction k as [|k IH]; [reflexivity|exact IH]. Qed.

Lemma drop_zeros_spec (m : list ascii) :
  exists k, m = (repeat "0"%char k ++ drop_zeros m)%list.
Proof.
  induction m as [|c m [k IH]]; [exists 0%nat; reflexivity|].
  simpl. destruct (Ascii.eqb_spec c "0") as [->|_].
  - exists (S k). simpl. f_equal. exact IH.
  - exists 0%nat. reflexivity.
Qed.

Lemma rev_repeat_zero (k : nat) :
  rev (repeat "0"%char k) = repeat "0"%char k.
Proof.
  induction k as [|k IH]; [reflexivity|].
  simpl. rewrite IH. symmetry. apply List.repeat_cons.
Qed.

(** Stripping removes a run of zeros at the end. *)
Lemma strip_spec (l : list ascii) :
  exists k, l = (rev (drop_zeros (rev l)) ++ repeat "0"%char k)%list.
Proof.
  destruct (drop_zeros_spec (rev l)) as [k Hk]. exists k.
  rewrite <- (rev_involutive l) at 1. rewrite Hk at 1.
  rewrite rev_app_distr, rev_repeat_zero. reflexivity.
Qed.

Lemma split_dot_digits (l : list ascii) :
  Forall (fun c => is_decimal_digit c = true) l ->
  split_dot l = (l, None)
  /\ forall r, split_dot (l ++ "."%char :: r) = (l, Some r).
Proof.
  induction 1 as [|c l Hc _ [IH1 IH2]]; [split; reflexivity|].
  assert (Ascii.eqb c "." = false) as Hdot
      by (destruct c as [[] [] [] [] [] [] [] []]; try discriminate; reflexivity).
  split; [|intros r]; simpl; rewrite Hdot; [rewrite IH1|rewrite IH2]; reflexivity.
Qed.

(** The readable form of a non-negative amount of micro-units denotes that
    amount exactly: reading [formatUnits(String(v))] back as a decimal
    numeral with six fraction digits gives [v] again, so different amounts
    are never displayed alike; a whole number of units is displayed
    without a fraction. *)
Theorem formatUnits_reads_back (v : Z) :
  0 <= v ->
  units_of_display (formatUnits (Some (String_of_bigint v))) = Some v
  /\ (Z.rem v DECIMAL_BASE = 0 ->
      formatUnits (Some (String_of_bigint v)) = String_of_bigint (v ÷ DECIMAL_BASE))
  /\ (forall v', 0 <= v' ->
                 formatUnits (Some (String_of_bigint v'))
                 = formatUnits (Some (String_of_bigint v)) ->
                 v' = v).
Proof.
  assert (forall v, 0 <= v ->
            units_of_display (formatUnits (Some (String_of_bigint v))) = Some v)
    as Hback.
  { clear v. intros v Hv.
    assert (DECIMAL_BASE = 1000000) as HB by reflexivity.
    pose proof (Z.quot_rem' v DECIMAL_BASE) as Hqr.
    pose proof (Z.rem_bound_pos v DECIMAL_BASE Hv ltac:(lia)) as Hrem.
    pose proof (Z.quot_pos v DECIMAL_BASE Hv ltac:(lia)) as Hquot.
    unfold formatUnits, truthy_string, BigInt_of_string.
    destruct (String.eqb_spec (String_of_bigint v) "") as [He|_];
      [destruct (String_of_bigint_nonempty _ He)|].
    rewrite StringToBigInt_String_of_bigint. cbn [negb].
    destruct (nonneg_digits _ Hquot) as (lq & Hq & Hqne & Hqd & Hqv & _).
    destruct (Z.eqb_spec (Z.rem v DECIMAL_BASE) 0) as [H0|Hn0].
    - unfold units_of_display. rewrite Hq, list_ascii_of_string_of_list_ascii.
      rewrite (proj1 (split_dot_digits lq Hqd)).
      unfold parse_digits. destruct lq as [|c lq]; [contradiction|].
      rewrite Hqv. f_equal. lia.
    - destruct (nonneg_digits (Z.rem v DECIMAL_BASE) ltac:(lia))
        as (lf & Hf & Hfne & Hfd & Hfv & Hflen).
      specialize (Hflen 6%nat ltac:(lia)
                         ltac:(change (10 ^ Z.of_nat 6) with DECIMAL_BASE; lia)).
      unfold padStart_zero, strip_trailing_zeros.
      rewrite Hf, Hq.
      replace (String.length (string_of_list_ascii lf)) with (length lf)
        by (rewrite <- (list_ascii_of_string_of_list_ascii lf) at 1;
            generalize (string_of_list_ascii lf); intros s;
            induction s; simpl; congruence).
      change (Z.to_nat DISPLAY_DECIMALS) with 6%nat.
      rewrite list_ascii_of_string_append, !list_ascii_of_string_of_list_ascii.
      set (padded := (repeat "0"%char (6 - length lf) ++ lf)%list).
      assert (length padded = 6%nat) as Hplen
          by (subst padded; rewrite length_app, repeat_length; lia).
      assert (digits_value 10 0 padded = Some (Z.rem v DECIMAL_BASE)) as Hpv
          by (subst padded; rewrite digits_value_leading_zeros; exact Hfv).
      assert (Forall (fun c => is_decimal_digit c = true) padded) as Hpd.
      { subst padded. apply Forall_app. split; [|exact Hfd].
        clear. induction (6 - length lf)%nat; simpl; constructor; auto. }
      destruct (strip_spec padded) as [k Hk].
      set (t := rev (drop_zeros (rev padded))) in *.
      assert (length t + k = 6)%nat as Hlen
          by (rewrite <- Hplen, Hk, length_app, repeat_length; reflexivity).
      assert (t <> []) as Htne.
      { intros Ht. rewrite Hk, Ht in Hpv. simpl in Hpv.
        rewrite <- (app_nil_r (repeat _ k)) in Hpv.
        rewrite digits_value_leading_zeros in Hpv. simpl in Hpv.
        injection Hpv as Hpv. lia. }
      assert (Forall (fun c => is_decimal_digit c = true) t) as Htd.
      { rewrite Hk in Hpd. apply Forall_app in Hpd. apply Hpd. }
      unfold units_of_display.
      rewrite list_ascii_of_string_append. 
      change (list_ascii_of_string ("." ++ string_of_list_ascii t))
        with ("."%char :: list_ascii_of_string (string_of_list_ascii t)).
      rewrite !list_ascii_of_string_of_list_ascii.
      rewrite (proj2 (split_dot_digits lq Hqd)).
      unfold parse_digits. destruct lq as [|c lq]; [contradiction|].
      rewrite Hqv.
      replace (0 <? length t)%nat with true
        by (symmetry; apply Nat.ltb_lt; destruct t; [contradiction|simpl; lia]).
      replace (length t <=? 6)%nat with true
        by (symmetry; apply Nat.leb_le; lia).
      cbn [andb].
      replace (6 - length t)%nat with k by lia.
      rewrite <- Hk, Hpv. f_equal. lia. }
  intros Hv. split; [exact (Hback v Hv)|]. split.
  - intros H0. unfold formatUnits, truthy_string, BigInt_of_string.
    destruct (String.eqb_spec (String_of_bigint v) "") as [He|_];
      [destruct (String_of_bigint_nonempty _ He)|].
    rewrite StringToBigInt_String_of_bigint. cbn [negb]. rewrite H0. reflexivity.
  - intros v' Hv' Heq.
    pose proof (Hback v' Hv') as H'. rewrite Heq, (Hback v Hv) in H'.
    injection H' as H'. symmetry. exact H'.
Qed.

(** One and a half units. *)
Lemma formatUnits_reads_back_witness :
  formatUnits (Some "1500000") = "1.5"
  /\ units_of_display (formatUnits (Some (String_of_bigint 1500000))) = Some 1500000.
Proof.
  split; [vm_compute; reflexivity|].
  exact (proj1 (formatUnits_reads_back 1500000 ltac:(lia))).
Defined.

End FormatMore.
